(** * vtprotobuf: pool/reset generator, transport codecs and wire model

    A shallow embedding of the Go sources of the repository:

    - [generator] helpers ([ShouldPool], [IsOpaque], [FieldGoType],
      the [helpers] table),
    - the [pool] feature ([pool.GenerateFile], [pool.message]) together
      with a semantics of the Go statements it prints,
    - the gRPC and DRPC transport codecs,
    - a model of the wire encoder/decoder, whose generators are not part
      of the sources at hand. *)

From Stdlib Require Import ZArith Lia List String Ascii DecimalString.
From stdpp Require Import base option list gmap strings sets.

Open Scope string_scope.

Set Warnings "-register-all".

(** ** Descriptors (what the generator reads of [protogen] and
       [protoreflect]) *)

Module Descriptor.

(** [protoreflect.Kind]. *)
Inductive Kind :=
| BoolKind | EnumKind
| Int32Kind | Sint32Kind | Uint32Kind
| Int64Kind | Sint64Kind | Uint64Kind
| Sfixed32Kind | Fixed32Kind | FloatKind
| Sfixed64Kind | Fixed64Kind | DoubleKind
| StringKind | BytesKind | MessageKind | GroupKind.

#[global] Instance Kind_eq_dec : EqDecision Kind.
Proof. solve_decision. Defined.

(** [gofeaturespb.GoFeatures_APILevel]. *)
Inductive APILevel :=
| API_LEVEL_UNSPECIFIED | API_OPEN | API_HYBRID | API_OPAQUE.

#[global] Instance APILevel_eq_dec : EqDecision APILevel.
Proof. solve_decision. Defined.

(** A [protogen.GoIdent], as it is printed inside its own package. *)
Definition GoIdent := string.

(** [protogen.Oneof]: its Go name and [Desc.IsSynthetic()]. *)
Record Oneof := mkOneof {
  oGoName : string;
  oIsSynthetic : bool
}.

(** [protogen.Message] and [protogen.Field].  A field of message kind
    points to the descriptor of its type ([fMessage]); the embedding
    holds the finite unfolding of that pointer the generator reads
    (identity and options of the type and, for a map, the two fields of
    its entry). *)
Inductive Message := mkMessage {
  mGoIdent : GoIdent;
  (* the vtproto.mempool option, when it is a bool *)
  mMempool : option bool;
  mIsMapEntry : bool;
  mAPILevel : APILevel;
  mFields : list Field;
  mMessages : list Message
}
with Field := mkField {
  fGoName : string;
  (* the Go identifier of the field; for a oneof member, of its wrapper *)
  fGoIdent : GoIdent;
  fKind : Kind;
  fIsList : bool;
  fIsMap : bool;
  fHasPresence : bool;
  fIsWeak : bool;
  fOneof : option Oneof;
  fMessage : option Message;
  fEnum : option GoIdent
}.

End Descriptor.
Export Descriptor.

(** ** [generator.GeneratedFile] helpers *)

Module Generator.

(** The part of [generator.Config] read here: the two object sets that
    steer pooling. *)
Record Config := mkConfig {
  Poolable : gset GoIdent;
  PoolableExclude : gset GoIdent
}.

(** [ObjectSet.Contains]. *)
Definition Contains (o : gset GoIdent) (g : GoIdent) : bool :=
  bool_decide (g ∈ o).

(** [GeneratedFile.ShouldPool]; the argument is a [*protogen.Message],
    [None] being the nil pointer. *)
Definition ShouldPool (cfg : Config) (message : option Message) : bool :=
  match message with
  | None => false
  | Some msg =>
      if Contains (PoolableExclude cfg) (mGoIdent msg) then false
      else if Contains (Poolable cfg) (mGoIdent msg) then true
      else match mMempool msg with
           | Some mempool => mempool
           | None => false
           end
  end.

(** [GeneratedFile.IsOpaque]. *)
Definition IsOpaque (message : Message) : bool :=
  bool_decide (mAPILevel message = API_OPAQUE).

Definition isMessageKind (k : Kind) : bool :=
  match k with MessageKind | GroupKind => true | _ => false end.

(** [GeneratedFile.FieldGoType]: the Go type of the struct field and
    whether it is held through a pointer.  [None] is the run-time panic
    of Go on a nil [field.Enum] or [field.Message] or on a map entry
    with fewer than two fields. *)
Fixpoint FieldGoType (field : Field) : option (string * bool) :=
  if fIsWeak field then Some ("struct{}", false)
  else
    let pointer := fHasPresence field in
    let scalar :=
      match fKind field with
      | BoolKind => Some ("bool", pointer)
      | EnumKind =>
          match fEnum field with
          | Some e => Some (e, pointer)
          | None => None
          end
      | Int32Kind | Sint32Kind | Sfixed32Kind => Some ("int32", pointer)
      | Uint32Kind | Fixed32Kind => Some ("uint32", pointer)
      | Int64Kind | Sint64Kind | Sfixed64Kind => Some ("int64", pointer)
      | Uint64Kind | Fixed64Kind => Some ("uint64", pointer)
      | FloatKind => Some ("float32", pointer)
      | DoubleKind => Some ("float64", pointer)
      | StringKind => Some ("string", pointer)
      | BytesKind => Some ("[]byte", false)
      | MessageKind | GroupKind =>
          match fMessage field with
          | Some m => Some ("*" ++ mGoIdent m, false)
          | None => None
          end
      end in
    match scalar with
    | None => None
    | Some (goType, pointer) =>
        if fIsList field then Some ("[]" ++ goType, false)
        else if fIsMap field then
          match fMessage field with
          | Some m =>
              match mFields m with
              | k :: v :: _ =>
                  match FieldGoType k, FieldGoType v with
                  | Some (keyType, _), Some (valType, _) =>
                      Some ("map[" ++ keyType ++ "]" ++ valType, false)
                  | _, _ => None
                  end
              | _ => None
              end
          | None => None
          end
        else Some (goType, pointer)
    end.

(** The names of the [helpers] table: the run-time helpers and error
    values of package [protohelpers] that generated code refers to. *)
Definition helpers : list string :=
  [ "EncodeVarint"; "SizeOfVarint"; "SizeOfZigzag"; "Skip";
    "ErrInvalidLength"; "ErrIntOverflow"; "ErrUnexpectedEndOfGroup";
    "ErrInvalidUTF8"; "ValidateUTF8" ].

End Generator.
Export Generator.

(** ** The [pool] feature: what [pool.message] prints *)

Module Pool.

(** The Go statements [pool.message] prints into the body of [ResetVT],
    one constructor per group of [p.P] calls; [render_stmt] below gives
    the printed lines. *)
Inductive stmt :=
| SRangeReset (fieldName : string) (pooled : bool)
| SClear (fieldName : string)
| SSave (n : nat) (fieldName : string)
| SOneofReturn (oneofName : string) (wrapper : GoIdent) (fieldName : string)
| SFieldReturn (fieldName : string)
| SOneofSave (oneofName : string) (ccTypeName : GoIdent)
             (cases : list (GoIdent * string))
| SReset
| SRestore (fieldName : string) (n : nat)
| SOneofRestore (oneofName : string).

#[global] Instance stmt_eq_dec : EqDecision stmt.
Proof. solve_decision. Defined.

(** [fmt.Sprintf("f%d", n)]. *)
Definition fN (n : nat) : string :=
  "f" ++ NilEmpty.string_of_uint (Nat.to_uint n).

Definition render_case (oneofName : string) (c : GoIdent * string) : list string :=
  [ "case *" ++ c.1 ++ ":";
    "c." ++ c.2 ++ " = c." ++ c.2 ++ "[:0]";
    "saved" ++ oneofName ++ " = c" ].

(** The lines of one statement, each the concatenation of the arguments
    of its [p.P] call. *)
Definition render_stmt (s : stmt) : list string :=
  match s with
  | SRangeReset fieldName pooled =>
      [ "for _, mm := range m." ++ fieldName ++ "{";
        if pooled then "mm.ResetVT()" else "mm.Reset()";
        "}" ]
  | SClear fieldName => [ "clear(m." ++ fieldName ++ ")" ]
  | SSave n fieldName => [ fN n ++ " := m." ++ fieldName ++ "[:0]" ]
  | SOneofReturn oneofName wrapper fieldName =>
      [ "if oneof, ok := m." ++ oneofName ++ ".(*" ++ wrapper ++ "); ok {";
        "oneof." ++ fieldName ++ ".ReturnToVTPool()";
        "}" ]
  | SFieldReturn fieldName => [ "m." ++ fieldName ++ ".ReturnToVTPool()" ]
  | SOneofSave oneofName ccTypeName cases =>
      [ "var saved" ++ oneofName ++ " is" ++ ccTypeName ++ "_" ++ oneofName;
        "switch c := m." ++ oneofName ++ ".(type) {" ]
      ++ concat (map (render_case oneofName) cases)
      ++ [ "}" ]
  | SReset => [ "m.Reset()" ]
  | SRestore fieldName n => [ "m." ++ fieldName ++ " = " ++ fN n ]
  | SOneofRestore oneofName => [ "m." ++ oneofName ++ " = saved" ++ oneofName ]
  end.

(** What is printed for one message: its type name and the statements
    between [if m != nil {] and the closing braces of [ResetVT]. *)
Record poolCode := mkPoolCode {
  pcType : GoIdent;
  pcBody : list stmt
}.

#[global] Instance poolCode_eq_dec : EqDecision poolCode.
Proof. solve_decision. Defined.

(** All lines printed for one message, in the order of the [p.P] calls. *)
Definition render_message (c : poolCode) : list string :=
  let ccTypeName := pcType c in
  [ "var vtprotoPool_" ++ ccTypeName ++ " = sync.Pool{";
    "New: func() interface{} {";
    "return &" ++ ccTypeName ++ "{}";
    "},";
    "}";
    "func (m *" ++ ccTypeName ++ ") ResetVT() {";
    "if m != nil {" ]
  ++ concat (map render_stmt (pcBody c))
  ++ [ "}";
       "}";
       "func (m *" ++ ccTypeName ++ ") ReturnToVTPool() {";
       "if m != nil {";
       "m.ResetVT()";
       "vtprotoPool_" ++ ccTypeName ++ ".Put(m)";
       "}";
       "}";
       "func " ++ ccTypeName ++ "FromVTPool() *" ++ ccTypeName ++ "{";
       "return vtprotoPool_" ++ ccTypeName ++ ".Get().(*" ++ ccTypeName ++ ")";
       "}" ].

(** The local variables of the field loop of [pool.message]. *)
Record loopState := mkLoop {
  saved : list Field;
  oneofBytes : list Field;
  printed : list stmt
}.

(** [field.Oneof.GoName]; used only on fields whose [Oneof] is not nil. *)
Definition OneofGoName (field : Field) : string :=
  match fOneof field with
  | Some o => oGoName o
  | None => ""
  end.

(** [field.Oneof != nil && !field.Oneof.Desc.IsSynthetic()]. *)
Definition inRealOneof (field : Field) : bool :=
  match fOneof field with
  | Some o => negb (oIsSynthetic o)
  | None => false
  end.

(** One iteration of [for _, field := range message.Fields]. *)
Definition fieldStep (cfg : Config) (st : loopState) (field : Field) : loopState :=
  let fieldName := fGoName field in
  if fIsList field then
    let pre :=
      match fKind field with
      | MessageKind | GroupKind =>
          [ SRangeReset fieldName (ShouldPool cfg (fMessage field)) ]
      | BytesKind | StringKind => [ SClear fieldName ]
      | _ => []
      end in
    {| saved := saved st ++ [field];
       oneofBytes := oneofBytes st;
       printed := printed st ++ pre ++ [ SSave (length (saved st)) fieldName ] |}
  else if inRealOneof field then
    match fKind field with
    | MessageKind | GroupKind =>
        if ShouldPool cfg (fMessage field) then
          {| saved := saved st;
             oneofBytes := oneofBytes st;
             printed := printed st ++
               [ SOneofReturn (OneofGoName field) (fGoIdent field) fieldName ] |}
        else st
    | BytesKind =>
        {| saved := saved st;
           oneofBytes := oneofBytes st ++ [field];
           printed := printed st |}
    | _ => st
    end
  else
    match fKind field with
    | MessageKind | GroupKind =>
        if negb (fIsMap field) && ShouldPool cfg (fMessage field) then
          {| saved := saved st;
             oneofBytes := oneofBytes st;
             printed := printed st ++ [ SFieldReturn fieldName ] |}
        else st
    | BytesKind =>
        {| saved := saved st ++ [field];
           oneofBytes := oneofBytes st;
           printed := printed st ++ [ SSave (length (saved st)) fieldName ] |}
    | _ => st
    end.

(** The Go map [oneofGroups], filled by
    [oneofGroups[name] = append(oneofGroups[name], field)]. *)
Definition oneofGroups (fields : list Field) : gmap string (list Field) :=
  foldl (fun groups field =>
           <[ OneofGoName field :=
                (default [] (groups !! OneofGoName field) ++ [field])%list ]> groups)
        ∅ fields.

(** A [for ... range] over a Go map visits every entry once, in an order
    the language leaves unspecified and the runtime randomises.  The
    order a run happens to take is a parameter of the model. *)
Definition rangeOrder := gmap string (list Field) → list (string * list Field).

Definition validRange (r : rangeOrder) : Prop :=
  ∀ m, r m ≡ₚ map_to_list m.

(** The orders of the two map loops of [pool.message]:
    [for oneofName, fields := range oneofGroups] (save) and
    [for oneofName := range oneofGroups] (restore). *)
Record mapOrders := mkOrders {
  saveOrder : rangeOrder;
  restoreOrder : rangeOrder
}.

Definition validOrders (o : mapOrders) : Prop :=
  validRange (saveOrder o) ∧ validRange (restoreOrder o).

Definition saveGroup (ccTypeName : GoIdent) (g : string * list Field) : stmt :=
  SOneofSave g.1 ccTypeName (map (fun field => (fGoIdent field, fGoName field)) g.2).

Definition restoreSaved (saved : list Field) : list stmt :=
  imap (fun i field => SRestore (fGoName field) i) saved.

(** The body of [ResetVT] printed for [message]. *)
Definition resetBody (cfg : Config) (o : mapOrders) (message : Message) : list stmt :=
  let st := foldl (fieldStep cfg) (mkLoop [] [] []) (mFields message) in
  let saves :=
    if bool_decide (0 < length (oneofBytes st)) then
      map (saveGroup (mGoIdent message)) (saveOrder o (oneofGroups (oneofBytes st)))
    else [] in
  let restores :=
    if bool_decide (0 < length (oneofBytes st)) then
      map (fun g => SOneofRestore g.1) (restoreOrder o (oneofGroups (oneofBytes st)))
    else [] in
  printed st ++ saves ++ [ SReset ] ++ restoreSaved (saved st) ++ restores.

(** The generator [pool]: its flag [once] and the code printed so far. *)
Record pool := mkPool {
  once : bool;
  output : list poolCode
}.

(** The guards of [pool.message] under which code is printed for a
    message. *)
Definition generates (cfg : Config) (message : Message) : bool :=
  negb (mIsMapEntry message || negb (ShouldPool cfg (Some message)))
  && negb (IsOpaque message).

(** [pool.message]. *)
Fixpoint message (cfg : Config) (o : mapOrders) (msg : Message) (p : pool) : pool :=
  let p := fold_left (fun p nested => message cfg o nested p) (mMessages msg) p in
  if mIsMapEntry msg || negb (ShouldPool cfg (Some msg)) then p
  else if IsOpaque msg then p
  else {| once := true;
          output := output p ++ [ mkPoolCode (mGoIdent msg) (resetBody cfg o msg) ] |}.

(** [pool.GenerateFile] on the messages of a file, from a fresh
    generator; the result holds the returned flag and the printed
    code. *)
Definition GenerateFile (cfg : Config) (o : mapOrders) (messages : list Message) : pool :=
  fold_left (fun p msg => message cfg o msg p) messages (mkPool false []).

(** The text of the generated file. *)
Definition render (p : pool) : list string :=
  concat (map render_message (output p)).

End Pool.
Export Pool.

(** ** Go values the generated code works on *)

Module Runtime.

(** Message instances are owned trees (the pool hands an instance to one
    holder at a time), so a pointer is modelled by the object it points
    to, tagged with its address.  A slice is its header: the address of
    the backing array, the length, and the backing array itself, whose
    size is the capacity. *)
Inductive value :=
| VNil
| VInt (z : Z)
| VStr (s : string)
| VSlice (arr : nat) (len : nat) (store : list value)
| VMsg (addr : nat) (ty : GoIdent) (flds : list (string * value))
| VWrap (addr : nat) (ty : GoIdent) (payload : value)
| VMap (entries : list (value * value)).

Abbreviation fields := (list (string * value)).

(** [m.name]. *)
Fixpoint getField (name : string) (fs : fields) : option value :=
  match fs with
  | [] => None
  | (n, v) :: fs => if String.eqb n name then Some v else getField name fs
  end.

(** [m.name = v]; [None] when the struct has no such field. *)
Fixpoint setField (name : string) (v : value) (fs : fields) : option fields :=
  match fs with
  | [] => None
  | (n, w) :: fs =>
      if String.eqb n name then Some ((n, v) :: fs)
      else match setField name v fs with
           | Some fs' => Some ((n, w) :: fs')
           | None => None
           end
  end.

(** [len(v)] and [cap(v)] of a slice value; a nil slice has both 0. *)
Definition sliceLen (v : value) : nat :=
  match v with VSlice _ len _ => len | _ => 0 end.

Definition sliceCap (v : value) : nat :=
  match v with VSlice _ _ store => length store | _ => 0 end.

(** The backing array a slice value points to, if any. *)
Definition sliceArr (v : value) : option nat :=
  match v with VSlice arr _ _ => Some arr | _ => None end.

Definition isSlice (v : value) : bool :=
  match v with VNil | VSlice _ _ _ => true | _ => false end.

(** [v[:0]]. *)
Definition truncate (v : value) : option value :=
  match v with
  | VNil => Some VNil
  | VSlice arr _ store => Some (VSlice arr 0 store)
  | _ => None
  end.

(** The zero value of the type a value has. *)
Definition zeroLike (v : value) : value :=
  match v with
  | VInt _ => VInt 0
  | VStr _ => VStr ""
  | _ => VNil
  end.

(** [clear(v)] on a slice: every element below the length becomes the
    zero value of its type. *)
Definition clearSlice (v : value) : option value :=
  match v with
  | VNil => Some VNil
  | VSlice arr len store =>
      Some (VSlice arr len (map zeroLike (take len store) ++ drop len store))
  | _ => None
  end.

(** The zero value of a struct field, by its Go type. *)
Definition zeroValue (field : Field) : value :=
  match FieldGoType field with
  | Some (_, true) => VNil
  | Some (_, false) =>
      if fIsList field || fIsMap field then VNil
      else match fKind field with
           | BytesKind | MessageKind | GroupKind => VNil
           | StringKind => VStr ""
           | _ => VInt 0
           end
  | None => VNil
  end.

(** The fields of the Go struct of a message, each at its zero value:
    one field per member outside a real oneof, one interface field per
    real oneof. *)
Fixpoint zeroStruct (fs : list Field) (seen : list string) : fields :=
  match fs with
  | [] => []
  | field :: fs =>
      if inRealOneof field then
        if bool_decide (OneofGoName field ∈ seen) then zeroStruct fs seen
        else (OneofGoName field, VNil) :: zeroStruct fs (OneofGoName field :: seen)
      else (fGoName field, zeroValue field) :: zeroStruct fs seen
  end.

(** The pools [vtprotoPool_T], by type name. *)
Abbreviation pools := (gmap GoIdent (list value)).

(** [vtprotoPool_T.Put(m)]. *)
Definition poolPut (ty : GoIdent) (v : value) (P : pools) : pools :=
  <[ ty := v :: default [] (P !! ty) ]> P.

(** How a call ends: normally, with a run-time panic or a reference the
    Go compiler would reject ([Fault]), or cut off by the step bound of
    the model. *)
Inductive outcome (A : Type) :=
| Done (a : A)
| Fault
| OutOfFuel.
Arguments Done {A} a.
Arguments Fault {A}.
Arguments OutOfFuel {A}.

#[global] Instance outcome_bind : MBind outcome := fun A B k x =>
  match x with
  | Done a => k a
  | Fault => Fault
  | OutOfFuel => OutOfFuel
  end.

Definition ofOption {A} (x : option A) : outcome A :=
  match x with Some a => Done a | None => Fault end.

End Runtime.
Export Runtime.

(** ** Semantics of the generated pool code *)

Module Exec.

(** What the generated code of a file set is run against: the body of
    [ResetVT] of every type that has one, and the zero struct [T{}] of
    every message type. *)
Record program := mkProgram {
  methods : GoIdent → option (list stmt);
  zeroOfType : GoIdent → option fields
}.

(** The state of one activation of [ResetVT]: the fields of [*m], the
    locals [f0], [f1], ..., the locals [saved<Oneof>], and the pools. *)
Record frame := mkFrame {
  self : fields;
  locals : gmap nat value;
  savedOneof : gmap string value;
  pool_state : pools
}.

Section Body.
Variable prog : program.
(** [ResetVT] on the message a field or element points to. *)
Variable callResetVT : value → pools → outcome (value * pools).

(** The printed [ReturnToVTPool]: nothing on a nil receiver, else
    [m.ResetVT()] and [vtprotoPool_T.Put(m)]. *)
Definition returnToPool (v : value) (P : pools) : outcome (value * pools) :=
  match v with
  | VNil => Done (VNil, P)
  | VMsg _ ty _ =>
      '(v', P') ← callResetVT v P;
      Done (v', poolPut ty v' P')
  | _ => Fault
  end.

(** The generated [Reset] of protoc-gen-go, [*x = T{}]: a panic on a
    nil receiver. *)
Definition plainReset (v : value) : outcome value :=
  match v with
  | VMsg addr ty _ =>
      zero ← ofOption (zeroOfType prog ty);
      Done (VMsg addr ty zero)
  | _ => Fault
  end.

(** [for _, mm := range elems { mm.ResetVT() }], or [mm.Reset()]. *)
Fixpoint rangeReset (pooled : bool) (elems : list value) (P : pools)
  : outcome (list value * pools) :=
  match elems with
  | [] => Done ([], P)
  | mm :: elems =>
      '(mm', P1) ←
        (if pooled then
           match mm with
           | VNil | VMsg _ _ _ => callResetVT mm P
           | _ => Fault
           end
         else
           mm' ← plainReset mm; Done (mm', P));
      '(elems', P2) ← rangeReset pooled elems P1;
      Done (mm' :: elems', P2)
  end.

(** The first [case *W:] of a type switch that matches [ty]. *)
Definition matchCase (cases : list (GoIdent * string)) (ty : GoIdent)
  : option (GoIdent * string) :=
  List.find (fun c => String.eqb c.1 ty) cases.

Definition exec_stmt (ccTypeName : GoIdent) (s : stmt) (fr : frame) : outcome frame :=
  match s with
  | SRangeReset fieldName pooled =>
      v ← ofOption (getField fieldName (self fr));
      match v with
      | VNil => Done fr
      | VSlice arr len store =>
          '(elems, P) ← rangeReset pooled (take len store) (pool_state fr);
          flds ← ofOption
            (setField fieldName (VSlice arr len (elems ++ drop len store)) (self fr));
          Done (mkFrame flds (locals fr) (savedOneof fr) P)
      | _ => Fault
      end
  | SClear fieldName =>
      v ← ofOption (getField fieldName (self fr));
      v' ← ofOption (clearSlice v);
      flds ← ofOption (setField fieldName v' (self fr));
      Done (mkFrame flds (locals fr) (savedOneof fr) (pool_state fr))
  | SSave n fieldName =>
      v ← ofOption (getField fieldName (self fr));
      v' ← ofOption (truncate v);
      Done (mkFrame (self fr) (<[ n := v' ]> (locals fr)) (savedOneof fr) (pool_state fr))
  | SOneofReturn oneofName wrapper fieldName =>
      v ← ofOption (getField oneofName (self fr));
      match v with
      | VNil => Done fr
      | VWrap addr ty payload =>
          if String.eqb ty wrapper then
            '(payload', P) ← returnToPool payload (pool_state fr);
            flds ← ofOption (setField oneofName (VWrap addr ty payload') (self fr));
            Done (mkFrame flds (locals fr) (savedOneof fr) P)
          else Done fr
      | _ => Fault
      end
  | SFieldReturn fieldName =>
      v ← ofOption (getField fieldName (self fr));
      '(v', P) ← returnToPool v (pool_state fr);
      flds ← ofOption (setField fieldName v' (self fr));
      Done (mkFrame flds (locals fr) (savedOneof fr) P)
  | SOneofSave oneofName _ cases =>
      v ← ofOption (getField oneofName (self fr));
      match v with
      | VNil =>
          Done (mkFrame (self fr) (locals fr)
                  (<[ oneofName := VNil ]> (savedOneof fr)) (pool_state fr))
      | VWrap addr ty payload =>
          match matchCase cases ty with
          | Some _ =>
              payload' ← ofOption (truncate payload);
              flds ← ofOption (setField oneofName (VWrap addr ty payload') (self fr));
              Done (mkFrame flds (locals fr)
                      (<[ oneofName := VWrap addr ty payload' ]> (savedOneof fr))
                      (pool_state fr))
          | None =>
              Done (mkFrame (self fr) (locals fr)
                      (<[ oneofName := VNil ]> (savedOneof fr)) (pool_state fr))
          end
      | _ => Fault
      end
  | SReset =>
      zero ← ofOption (zeroOfType prog ccTypeName);
      Done (mkFrame zero (locals fr) (savedOneof fr) (pool_state fr))
  | SRestore fieldName n =>
      v ← ofOption (locals fr !! n);
      flds ← ofOption (setField fieldName v (self fr));
      Done (mkFrame flds (locals fr) (savedOneof fr) (pool_state fr))
  | SOneofRestore oneofName =>
      v ← ofOption (savedOneof fr !! oneofName);
      flds ← ofOption (setField oneofName v (self fr));
      Done (mkFrame flds (locals fr) (savedOneof fr) (pool_state fr))
  end.

Fixpoint exec_body (ccTypeName : GoIdent) (body : list stmt) (fr : frame)
  : outcome frame :=
  match body with
  | [] => Done fr
  | s :: body =>
      fr' ← exec_stmt ccTypeName s fr;
      exec_body ccTypeName body fr'
  end.
End Body.

(** The printed [ResetVT]: nothing on a nil receiver, else the body.
    [fuel] bounds the depth of nested calls. *)
Fixpoint ResetVT (prog : program) (fuel : nat) (m : value) (P : pools)
  : outcome (value * pools) :=
  match m with
  | VNil => Done (VNil, P)
  | VMsg addr ty flds =>
      match fuel with
      | 0 => OutOfFuel
      | S fuel =>
          body ← ofOption (methods prog ty);
          fr ← exec_body prog (ResetVT prog fuel) ty body (mkFrame flds ∅ ∅ P);
          Done (VMsg addr ty (self fr), pool_state fr)
      end
  | _ => Fault
  end.

(** The printed [ReturnToVTPool]. *)
Definition ReturnToVTPool (prog : program) (fuel : nat) (m : value) (P : pools)
  : outcome (value * pools) :=
  returnToPool (ResetVT prog fuel) m P.

(** [sync.Pool.Get] may hand out any pooled item or none of them; [pick]
    is the choice it makes.  With none, [New] allocates [&T{}] at the
    address [fresh]. *)
Definition FromVTPool (prog : program) (ty : GoIdent) (pick : option nat)
    (fresh : nat) (P : pools) : outcome (value * pools) :=
  let items := default [] (P !! ty) in
  match pick ≫= (fun i => items !! i) with
  | Some m => Done (m, <[ ty := delete (default 0 pick) items ]> P)
  | None =>
      zero ← ofOption (zeroOfType prog ty);
      Done (VMsg fresh ty zero, P)
  end.

End Exec.
Export Exec.

(** ** The program generated for a set of files *)

Module Program.

(** A message and every message nested in it, in the order
    [pool.message] visits them. *)
Fixpoint allMessages (msg : Message) : list Message :=
  concat (map allMessages (mMessages msg)) ++ [msg].

Definition universe (messages : list Message) : list Message :=
  concat (map allMessages messages).

(** The generated methods and struct types of the given messages. *)
Definition programOf (cfg : Config) (o : mapOrders) (messages : list Message) : program :=
  {| methods ty :=
       pcBody <$> List.find (fun c => String.eqb (pcType c) ty)
                            (output (GenerateFile cfg o messages));
     zeroOfType ty :=
       (fun m => zeroStruct (mFields m) []) <$>
         List.find (fun m => String.eqb (mGoIdent m) ty) (universe messages) |}.

End Program.
Export Program.

(** ** A test schema *)

Module Sample.

Definition scalar (name : string) (k : Kind) : Field :=
  mkField name name k false false false false None None None.

Definition repeated (name : string) (k : Kind) (elem : option Message) : Field :=
  mkField name name k true false false false None elem None.

Definition inOneof (name wrapper : string) (k : Kind) (oneof : string)
    (elem : option Message) : Field :=
  mkField name wrapper k false false true false (Some (mkOneof oneof false)) elem None.

(** [message Item { option (vtproto.mempool) = true; string name; bytes data; }] *)
Definition Item : Message :=
  mkMessage "Item" (Some true) false API_OPEN
    [ scalar "Name" StringKind; scalar "Data" BytesKind ] [].

(** [message Plain { int64 n; }], not pooled. *)
Definition Plain : Message :=
  mkMessage "Plain" None false API_OPEN [ scalar "N" Int64Kind ] [].

(** A pooled message with a repeated pooled message, a repeated plain
    message, repeated strings, a bytes field, a pooled child and a oneof
    holding bytes or a pooled message. *)
Definition Parent : Message :=
  mkMessage "Parent" (Some true) false API_OPEN
    [ repeated "Items" MessageKind (Some Item);
      repeated "Plains" MessageKind (Some Plain);
      repeated "Tags" StringKind None;
      scalar "Payload" BytesKind;
      mkField "Child" "Child" MessageKind false false true false None (Some Item) None;
      inOneof "Raw" "Parent_Raw" BytesKind "Body" None;
      inOneof "Sub" "Parent_Sub" MessageKind "Body" (Some Item);
      scalar "Count" Int64Kind ] [].

(** A pooled message with two oneofs, each holding bytes:
    [oneof x { bytes a = 1; } oneof y { bytes b = 2; }]. *)
Definition TwoOneofs : Message :=
  mkMessage "T" (Some true) false API_OPEN
    [ inOneof "A" "T_A" BytesKind "X" None;
      inOneof "B" "T_B" BytesKind "Y" None ] [].

Definition cfg : Config := mkConfig ∅ ∅.

(** The order of a run that visits map entries as [map_to_list] lists
    them, and of a run that visits them the other way round. *)
Definition forwards : mapOrders := mkOrders map_to_list map_to_list.
Definition backwards : mapOrders :=
  mkOrders (fun m => reverse (map_to_list m)) (fun m => reverse (map_to_list m)).

Definition prog : program := programOf cfg forwards [Item; Plain; Parent].

Definition bytes (arr len : nat) (store : list nat) : value :=
  VSlice arr len (map (fun b => VInt (Z.of_nat b)) store).

Definition item (addr : nat) (name : string) (data : value) : value :=
  VMsg addr "Item" [ ("Name", VStr name); ("Data", data) ].

(** An instance of [Parent] whose [Items] holds 2 of 4 allocated slots
    and whose oneof holds bytes. *)
Definition parentFields : list (string * value) :=
    [ ("Items", VSlice 10 2 [ item 2 "a" (bytes 11 1 [7; 0]); item 3 "b" VNil; VNil; VNil ]);
      ("Plains", VSlice 12 1 [ VMsg 4 "Plain" [ ("N", VInt 5) ] ]);
      ("Tags", VSlice 13 2 [ VStr "x"; VStr "y"; VStr "" ]);
      ("Payload", bytes 14 3 [1; 2; 3; 0; 0]);
      ("Child", item 5 "c" (bytes 15 2 [8; 9]));
      ("Body", VWrap 6 "Parent_Raw" (bytes 16 2 [4; 5; 0; 0]));
      ("Count", VInt 42) ].

Definition parent : value := VMsg 1 "Parent" parentFields.

(** An instance of [Parent] that holds nothing but two [Item]s. *)
Definition itemsOnly : value :=
  VMsg 1 "Parent"
    [ ("Items", VSlice 10 2 [ item 2 "a" VNil; item 3 "b" VNil; VNil; VNil ]);
      ("Plains", VNil); ("Tags", VNil); ("Payload", VNil);
      ("Child", VNil); ("Body", VNil); ("Count", VInt 0) ].

End Sample.

(** ** Views of the printed body

    The field loop of [pool.message], read as a function of the field
    list, and the names the statements of a body assign. *)

Open Scope list_scope.

(** A field whose slice handle the body saves in a local [fN]. *)
Definition savedField (f : Field) : bool :=
  fIsList f || (negb (inRealOneof f) && bool_decide (fKind f = BytesKind)).

(** A bytes member of a real oneof. *)
Definition oneofBytesField (f : Field) : bool :=
  negb (fIsList f) && inRealOneof f && bool_decide (fKind f = BytesKind).

(** The name of the struct field a message field lives in. *)
Definition structName (f : Field) : string :=
  if fIsList f then fGoName f
  else if inRealOneof f then OneofGoName f
  else fGoName f.

(** What the field loop prints for one field when [k] handles are
    already saved. *)
Definition fieldStmts (cfg : Config) (k : nat) (f : Field) : list stmt :=
  if fIsList f then
    match fKind f with
    | MessageKind | GroupKind =>
        [ SRangeReset (fGoName f) (ShouldPool cfg (fMessage f)); SSave k (fGoName f) ]
    | BytesKind | StringKind => [ SClear (fGoName f); SSave k (fGoName f) ]
    | _ => [ SSave k (fGoName f) ]
    end
  else if inRealOneof f then
    match fKind f with
    | MessageKind | GroupKind =>
        if ShouldPool cfg (fMessage f)
        then [ SOneofReturn (OneofGoName f) (fGoIdent f) (fGoName f) ]
        else []
    | _ => []
    end
  else
    match fKind f with
    | MessageKind | GroupKind =>
        if negb (fIsMap f) && ShouldPool cfg (fMessage f)
        then [ SFieldReturn (fGoName f) ] else []
    | BytesKind => [ SSave k (fGoName f) ]
    | _ => []
    end.

Fixpoint fieldsStmts (cfg : Config) (k : nat) (fs : list Field) : list stmt :=
  match fs with
  | [] => []
  | f :: fs =>
      fieldStmts cfg k f
      ++ fieldsStmts cfg (if savedField f then S k else k) fs
  end.

(** The fields saved in locals, and the bytes members of real oneofs. *)
Definition savedOf (msg : Message) : list Field :=
  filter (fun f => savedField f = true) (mFields msg).

Definition oneofBytesOf (msg : Message) : list Field :=
  filter (fun f => oneofBytesField f = true) (mFields msg).

(** The struct field a statement assigns, if it assigns one. *)
Definition writesField (s : stmt) : option string :=
  match s with
  | SRangeReset f _ | SClear f | SFieldReturn f | SRestore f _ => Some f
  | SOneofReturn o _ _ | SOneofSave o _ _ | SOneofRestore o => Some o
  | SSave _ _ | SReset => None
  end.

Definition writesLocal (s : stmt) : option nat :=
  match s with SSave n _ => Some n | _ => None end.

Definition writesSaved (s : stmt) : option string :=
  match s with SOneofSave o _ _ => Some o | _ => None end.

(** The statements printed for a saved field end in the save of its
    handle; [ownPrefix] is what comes before. *)
Definition ownPrefix (cfg : Config) (f : Field) : list stmt :=
  if fIsList f then
    match fKind f with
    | MessageKind | GroupKind =>
        [ SRangeReset (fGoName f) (ShouldPool cfg (fMessage f)) ]
    | BytesKind | StringKind => [ SClear (fGoName f) ]
    | _ => []
    end
  else [].

Definition groupStep (groups : gmap string (list Field)) (field : Field)
  : gmap string (list Field) :=
  <[ OneofGoName field := default [] (groups !! OneofGoName field) ++ [field] ]> groups.

(** The statements of the field loop. *)
Definition loopStmt (s : stmt) : bool :=
  match s with
  | SRangeReset _ _ | SClear _ | SSave _ _ | SOneofReturn _ _ _ | SFieldReturn _ => true
  | _ => false
  end.

(** ** Instances of the generated types

    The Go types of the generated structs decide what a struct field
    can hold.  The definitions below state as much of that as the body
    of [ResetVT] relies on. *)

(** The descriptor of the message type named [ty], among [U]. *)
Definition findMessage (U : list Message) (ty : GoIdent) : option Message :=
  List.find (fun m => String.eqb (mGoIdent m) ty) U.

(** What is printed for one message. *)
Definition codeOf (cfg : Config) (o : mapOrders) (msg : Message) : poolCode :=
  mkPoolCode (mGoIdent msg) (resetBody cfg o msg).

(** Two fields of one struct type: they live in different struct
    fields, or they are members of one oneof with different wrapper
    types. *)
Definition compatible (f g : Field) : bool :=
  if String.eqb (structName f) (structName g) then
    inRealOneof f && inRealOneof g
    && negb (fIsList f) && negb (fIsList g)
    && negb (String.eqb (fGoIdent f) (fGoIdent g))
  else true.

Fixpoint distinctSlots (fs : list Field) : bool :=
  match fs with
  | [] => true
  | f :: fs => forallb (compatible f) fs && distinctSlots fs
  end.

(** A descriptor protoc accepts: no repeated field is a member of a
    oneof, and the Go names it gives rise to do not clash. *)
Definition wellFormed (msg : Message) : bool :=
  forallb (fun f => implb (fIsList f) (negb (inRealOneof f))) (mFields msg)
  && distinctSlots (mFields msg).

(** A [*T] of a pooled type [T]: nil, or an instance [R] accepts. *)
Definition pooledRef (R : value → bool) (v : value) : bool :=
  match v with
  | VNil => true
  | VMsg _ _ _ => R v
  | _ => false
  end.

(** A [*T] that [Reset] can be called on: an instance of a type of
    [U], not nil. *)
Definition plainRef (U : list Message) (v : value) : bool :=
  match v with
  | VMsg _ ty _ =>
      match findMessage U ty with Some _ => true | None => false end
  | _ => false
  end.

(** The value [v] of the struct field of [f] has the shape its Go type
    gives it: a slice for a repeated or bytes field, whose elements are
    instances where the body resets them; nil or a wrapper in a oneof
    slot, the wrapper of [f] holding what [f] holds; nil or an instance
    for a pooled message.  [R] accepts the instances nested one level
    down. *)
Definition slotFits (cfg : Config) (U : list Message) (R : value → bool)
    (f : Field) (v : value) : bool :=
  if fIsList f then
    match v with
    | VNil => true
    | VSlice _ len store =>
        if isMessageKind (fKind f) then
          forallb (if ShouldPool cfg (fMessage f) then pooledRef R else plainRef U)
                  (take len store)
        else true
    | _ => false
    end
  else if inRealOneof f then
    match v with
    | VNil => true
    | VWrap _ ty p =>
        if String.eqb ty (fGoIdent f) then
          match fKind f with
          | MessageKind | GroupKind =>
              if ShouldPool cfg (fMessage f) then pooledRef R p else true
          | BytesKind => isSlice p
          | _ => true
          end
        else true
    | _ => false
    end
  else
    match fKind f with
    | MessageKind | GroupKind =>
        if negb (fIsMap f) && ShouldPool cfg (fMessage f) then pooledRef R v else true
    | BytesKind => isSlice v
    | _ => true
    end.

Definition fieldFits (cfg : Config) (U : list Message) (R : value → bool)
    (flds : fields) (f : Field) : bool :=
  match getField (structName f) flds with
  | Some v => slotFits cfg U R f v
  | None => false
  end.

(** An instance of a message type that pool code is generated for,
    nested at most [n] levels deep. *)
Fixpoint instanceFits (cfg : Config) (U : list Message) (n : nat) (v : value) : bool :=
  match n, v with
  | S n, VMsg _ ty flds =>
      match findMessage U ty with
      | Some msg =>
          generates cfg msg
          && forallb (fieldFits cfg U (instanceFits cfg U n) flds) (mFields msg)
      | None => false
      end
  | _, _ => false
  end.

(** [prog] is what is generated for the message types [U]: every type
    has its struct, and every type [pool.message] prints code for has
    the body printed for it, under some order of the map loops. *)
Definition generatedFor (cfg : Config) (U : list Message) (prog : program) : Prop :=
  ∀ ty msg, findMessage U ty = Some msg →
    zeroOfType prog ty = Some (zeroStruct (mFields msg) [])
    ∧ (generates cfg msg = true →
       ∃ o, validOrders o ∧ methods prog ty = Some (resetBody cfg o msg)).

(** ** Further helpers of [generator.GeneratedFile] *)

Module Helpers.

(** [GeneratedFile.IsHybrid]. *)
Definition IsHybrid (message : Message) : bool :=
  bool_decide (mAPILevel message = API_HYBRID).

(** [GeneratedFile.IsOpen]. *)
Definition IsOpen (message : Message) : bool :=
  bool_decide (mAPILevel message = API_OPEN)
  || bool_decide (mAPILevel message = API_LEVEL_UNSPECIFIED).

(** [GeneratedFile.UsesAccessors]. *)
Definition UsesAccessors (message : Message) : bool :=
  IsOpaque message || IsHybrid message.

(** [GeneratedFile.Alloc]: the line it prints.  [qualified] is
    [QualifiedGoIdent] of protogen, which prints an identifier of the
    file's own package by its name alone. *)
Definition Alloc (cfg : Config) (qualified : GoIdent → string)
    (vname : string) (message : Message) (isQualifiedIdent : bool) : string :=
  let ident := if isQualifiedIdent then qualified (mGoIdent message)
               else mGoIdent message in
  if ShouldPool cfg (Some message)
  then vname ++ " := " ++ ident ++ "FromVTPool()"
  else vname ++ " := new(" ++ ident ++ ")".

End Helpers.
Export Helpers.

(** ** What the statements of a body declare and use *)

(** The local [fN] a statement reads. *)
Definition readsLocal (s : stmt) : option nat :=
  match s with SRestore _ n => Some n | _ => None end.

(** The local [saved<Oneof>] a statement reads. *)
Definition readsSaved (s : stmt) : option string :=
  match s with SOneofRestore o => Some o | _ => None end.

(** A slice handle that reads as empty: nil, or of length zero. *)
Definition emptied (v : value) : bool :=
  match v with
  | VNil => true
  | VSlice _ len _ => Nat.eqb len 0
  | _ => false
  end.

Definition isNil (v : value) : bool :=
  match v with VNil => true | _ => false end.

(** The value [v] of the struct field of [f] is as a reset leaves it:
    an emptied handle for a repeated or bytes field; in a oneof slot
    nil, or the wrapper of one of the oneof's bytes members around an
    emptied slice; nil for a pooled message. *)
Definition restingSlot (cfg : Config) (msg : Message) (f : Field) (v : value) : bool :=
  if fIsList f then emptied v
  else if inRealOneof f then
    match v with
    | VNil => true
    | VWrap _ W p =>
        emptied p
        && existsb (fun h => oneofBytesField h
                             && String.eqb (OneofGoName h) (OneofGoName f)
                             && String.eqb (fGoIdent h) W) (mFields msg)
        && (if String.eqb W (fGoIdent f)
            then bool_decide (fKind f = BytesKind) else true)
    | _ => false
    end
  else
    match fKind f with
    | MessageKind | GroupKind =>
        if negb (fIsMap f) && ShouldPool cfg (fMessage f) then isNil v else true
    | BytesKind => emptied v
    | _ => true
    end.

Definition resting (cfg : Config) (msg : Message) (flds : fields) : bool :=
  forallb (fun f => match getField (structName f) flds with
                    | Some v => restingSlot cfg msg f v
                    | None => false
                    end) (mFields msg).

(** Pools that hold at least what they held before. *)
Definition poolsGrow (P P' : pools) : Prop :=
  ∀ ty x, x ∈ default [] (P !! ty) → x ∈ default [] (P' !! ty).

(** ** Wire format: varints, utf-8, sizes *)

Module Wire.

Open Scope Z_scope.

(** Modelled from the spec: the kinds of decode failure (section 7), the
    generators of the decoder and package [protohelpers] not being among
    the sources.  The first five are MalformedInput, the last one is
    InvalidEncoding; four of them bear the names the [helpers] table of
    the generator gives them, [ErrUnexpectedEOF] stands for Go's
    [io.ErrUnexpectedEOF]. *)
Inductive DecodeError :=
| ErrInvalidLength
| ErrIntOverflow
| ErrUnexpectedEndOfGroup
| ErrUnexpectedEOF
| ErrIllegalTag
| ErrInvalidUTF8.

#[global] Instance DecodeError_eq_dec : EqDecision DecodeError.
Proof. solve_decision. Defined.

(** Modelled from the spec: the two error classes of section 7, the
    error values of package [protohelpers] not being among the sources. *)
Definition malformedInput (e : DecodeError) : bool :=
  match e with ErrInvalidUTF8 => false | _ => true end.

Definition invalidEncoding (e : DecodeError) : bool :=
  match e with ErrInvalidUTF8 => true | _ => false end.

(** The name generated code calls an error by, when the [helpers] table
    has one for it. *)
Definition helperName (e : DecodeError) : option string :=
  match e with
  | ErrInvalidLength => Some "ErrInvalidLength"%string
  | ErrIntOverflow => Some "ErrIntOverflow"%string
  | ErrUnexpectedEndOfGroup => Some "ErrUnexpectedEndOfGroup"%string
  | ErrInvalidUTF8 => Some "ErrInvalidUTF8"%string
  | ErrUnexpectedEOF | ErrIllegalTag => None
  end.

(** Modelled from the spec: a decode returns either its result or one
    error ([error] of the missing generated [UnmarshalVT]). *)
Inductive result (A : Type) :=
| Ok (a : A)
| Err (e : DecodeError).
Arguments Ok {A} a.
Arguments Err {A} e.

(** Bytes are integers from 0 to 255. *)
Abbreviation bytes := (list Z).

(** Go's conversions to the fixed-width integer types. *)
Definition uint64 (v : Z) : Z := v mod 2 ^ 64.
Definition uint32 (v : Z) : Z := v mod 2 ^ 32.
Definition int64 (v : Z) : Z := (v + 2 ^ 63) mod 2 ^ 64 - 2 ^ 63.
Definition int32 (v : Z) : Z := (v + 2 ^ 31) mod 2 ^ 32 - 2 ^ 31.

(** Modelled from the spec: [EncodeVarint] of the missing package
    [protohelpers]; a varint holds 7 bits per byte, low bits first, the
    top bit of a byte saying that more follow. *)
Fixpoint encodeVarintFuel (fuel : nat) (v : Z) : bytes :=
  match fuel with
  | O => []
  | S fuel =>
      if v <? 128 then [v]
      else Z.lor (Z.land v 127) 128 :: encodeVarintFuel fuel (Z.shiftr v 7)
  end.

(** Modelled from the spec: [EncodeVarint] of a [uint64] (package
    [protohelpers], missing), at most 10 bytes. *)
Definition EncodeVarint (v : Z) : bytes := encodeVarintFuel 10 (uint64 v).

(** Modelled from the spec: [SizeOfVarint] of the missing package
    [protohelpers], the number of bytes [EncodeVarint] writes. *)
Fixpoint sizeVarintFuel (fuel : nat) (v : Z) : nat :=
  match fuel with
  | O => O
  | S fuel => if v <? 128 then 1%nat else S (sizeVarintFuel fuel (Z.shiftr v 7))
  end.

Definition SizeOfVarint (v : Z) : nat := sizeVarintFuel 10 (uint64 v).

(** Modelled from the spec: the varint loop the missing decoder
    generator prints; reading a varint rejects one that runs past 64
    bits ([ErrIntOverflow]) and one cut short by the end of the input. *)
Fixpoint readVarintFuel (fuel : nat) (shift acc : Z) (data : bytes)
  : result (Z * bytes) :=
  match fuel with
  | O => Err ErrIntOverflow
  | S fuel =>
      match data with
      | [] => Err ErrUnexpectedEOF
      | b :: rest =>
          let acc := Z.lor acc (uint64 (Z.shiftl (Z.land b 127) shift)) in
          if b <? 128 then Ok (acc, rest)
          else readVarintFuel fuel (shift + 7) acc rest
      end
  end.

Definition ReadVarint (data : bytes) : result (Z * bytes) :=
  readVarintFuel 10 0 0 data.

(** Modelled from the spec: the zigzag remap of the two
    signed-optimised kinds (encoder and decoder generators, missing). *)
Definition zigzag (v : Z) : Z := if v <? 0 then - 2 * v - 1 else 2 * v.
Definition unzigzag (u : Z) : Z := if Z.odd u then - ((u + 1) / 2) else u / 2.

(** Modelled from the spec: fixed-width little-endian, as the missing
    encoder and decoder generators write and read it. *)
Fixpoint littleEndian (n : nat) (v : Z) : bytes :=
  match n with
  | O => []
  | S n => v mod 256 :: littleEndian n (v / 256)
  end.

Fixpoint ofLittleEndian (bs : bytes) : Z :=
  match bs with
  | [] => 0
  | b :: bs => b + 256 * ofLittleEndian bs
  end.

Definition inRange (lo hi b : Z) : bool := (lo <=? b) && (b <=? hi).

(** Modelled from the spec: [ValidateUTF8] of the missing package
    [protohelpers]; well-formed text is well-formed UTF-8: ASCII, or
    a lead byte followed by continuation bytes in the ranges of the
    Unicode standard, which exclude overlong forms, surrogates and code
    points above U+10FFFF. *)
Fixpoint ValidateUTF8 (s : bytes) : bool :=
  match s with
  | [] => true
  | b0 :: r0 =>
      if inRange 0 127 b0 then ValidateUTF8 r0
      else
        match r0 with
        | [] => false
        | b1 :: r1 =>
            if inRange 194 223 b0 then inRange 128 191 b1 && ValidateUTF8 r1
            else
              match r1 with
              | [] => false
              | b2 :: r2 =>
                  if inRange 224 239 b0 then
                    inRange (if b0 =? 224 then 160 else 128)
                            (if b0 =? 237 then 159 else 191) b1
                    && inRange 128 191 b2 && ValidateUTF8 r2
                  else
                    match r2 with
                    | [] => false
                    | b3 :: r3 =>
                        inRange 240 244 b0
                        && inRange (if b0 =? 240 then 144 else 128)
                                   (if b0 =? 244 then 143 else 191) b1
                        && inRange 128 191 b2 && inRange 128 191 b3
                        && ValidateUTF8 r3
                    end
              end
        end
  end.

(** Modelled from the spec: the wire types and the tag of a field
    (package [protowire], not among the sources). *)
Definition WireVarint : Z := 0.
Definition WireFixed64 : Z := 1.
Definition WireBytes : Z := 2.
Definition WireStartGroup : Z := 3.
Definition WireEndGroup : Z := 4.
Definition WireFixed32 : Z := 5.

Definition tagOf (number wireType : Z) : Z := Z.lor (Z.shiftl number 3) wireType.

End Wire.

(** ** Field plans, instances, encoder and decoder *)

Module Codegen.

Import Wire.
Open Scope Z_scope.

(** Modelled from the spec: presence of a singular field (section 3),
    which the missing encoder and decoder generators read off the
    descriptor. *)
Inductive Presence := Implicit | Explicit.

#[global] Instance Presence_eq_dec : EqDecision Presence.
Proof. solve_decision. Defined.

(** Modelled from the spec: the FieldPlan of section 4.1 (the planner is
    not among the sources), for singular fields of integer, floating
    point, bool, enum, string and bytes kind: wire number, kind,
    presence, and whether a string is under the strict encoding
    contract. *)
Record FieldPlan := mkPlan {
  pNumber : Z;
  pKind : Kind;
  pPresence : Presence;
  pStrict : bool
}.

(** The descriptor of a planned field, as far as [FieldGoType] reads
    it. *)
Definition planField (p : FieldPlan) : Field :=
  mkField "" "" (pKind p) false false
    (bool_decide (pPresence p = Explicit)) false None None (Some ""%string).

(** Whether the Go struct holds the field through a pointer, by
    [FieldGoType]. *)
Definition heldByPointer (p : FieldPlan) : bool :=
  match FieldGoType (planField p) with
  | Some (_, pointer) => pointer
  | None => false
  end.

(** Modelled from the spec: what a struct field of a generated message
    holds (the generated structs are not among the sources): a scalar or
    a pointer to one (nil when absent), a string or a pointer to one, or
    a byte slice (nil or its content).  A floating-point number is held
    as its IEEE 754 bit pattern, the form in which it goes on the wire;
    the zero value of Go, +0, is the pattern 0. *)
Inductive FieldValue :=
| Direct (v : Z)
| Pointer (p : option Z)
| Text (s : bytes)
| TextPointer (p : option bytes)
| Slice (b : option bytes).

#[global] Instance FieldValue_eq_dec : EqDecision FieldValue.
Proof. solve_decision. Defined.

(** Modelled from the spec: the field of a freshly allocated instance,
    Go's zero value of the field's type. *)
Definition freshValue (p : FieldPlan) : FieldValue :=
  match pKind p with
  | BytesKind => Slice None
  | StringKind => if heldByPointer p then TextPointer None else Text []
  | _ => if heldByPointer p then Pointer None else Direct 0
  end.

Definition fresh (plans : list FieldPlan) : list FieldValue := map freshValue plans.

(** Modelled from the spec: the closed kind to wire-type table of
    section 4.3 (encoder generator, missing). *)
Definition wireTypeOf (k : Kind) : option Z :=
  match k with
  | BoolKind | EnumKind | Int32Kind | Sint32Kind | Uint32Kind
  | Int64Kind | Sint64Kind | Uint64Kind => Some WireVarint
  | Fixed32Kind | Sfixed32Kind | FloatKind => Some WireFixed32
  | Fixed64Kind | Sfixed64Kind | DoubleKind => Some WireFixed64
  | StringKind | BytesKind => Some WireBytes
  | MessageKind | GroupKind => None
  end.

(** Modelled from the spec: the payload of an integer, floating-point,
    bool or enum value (encoder generator, missing); a floating-point
    number is its bit pattern in fixed width. *)
Definition scalarPayload (k : Kind) (v : Z) : bytes :=
  match k with
  | Sint32Kind | Sint64Kind => EncodeVarint (zigzag v)
  | Fixed32Kind | Sfixed32Kind | FloatKind => littleEndian 4 (uint32 v)
  | Fixed64Kind | Sfixed64Kind | DoubleKind => littleEndian 8 (uint64 v)
  | _ => EncodeVarint v
  end.

(** Modelled from the spec: the size of that payload (size generator,
    missing). *)
Definition scalarSize (k : Kind) (v : Z) : nat :=
  match k with
  | Sint32Kind | Sint64Kind => SizeOfVarint (zigzag v)
  | Fixed32Kind | Sfixed32Kind | FloatKind => 4
  | Fixed64Kind | Sfixed64Kind | DoubleKind => 8
  | _ => SizeOfVarint v
  end.

(** Modelled from the spec: the omission rule of section 4.3 (encoder
    generator, missing).  What is on the wire for a field, if anything:
    [None] when the field is skipped, else its payload.  An
    implicit-presence field is skipped when it holds its zero value (for
    strings and bytes, when the length is 0); an explicit-presence field
    is emitted whenever it is not absent. *)
Definition emitted (p : FieldPlan) (v : FieldValue) : option bytes :=
  match v with
  | Direct z => if z =? 0 then None else Some (scalarPayload (pKind p) z)
  | Pointer (Some z) => Some (scalarPayload (pKind p) z)
  | Pointer None => None
  | Text s => if bool_decide (s = []) then None else Some s
  | TextPointer o => o
  | Slice None => None
  | Slice (Some b) =>
      match pPresence p with
      | Implicit => if bool_decide (b = []) then None else Some b
      | Explicit => Some b
      end
  end.

(** Modelled from the spec: strings and bytes are length-delimited; the
    tag is the varint of number and wire type. *)
Definition lengthDelimited (p : FieldPlan) : bool :=
  bool_decide (wireTypeOf (pKind p) = Some WireBytes).

Definition tagBytes (p : FieldPlan) : bytes :=
  EncodeVarint (tagOf (pNumber p) (default 0 (wireTypeOf (pKind p)))).

(** Modelled from the spec: a value has the shape the plan's Go type
    gives it (the generated structs are not among the sources). *)
Definition wellShaped (p : FieldPlan) (v : FieldValue) : bool :=
  match pKind p, v with
  | (MessageKind | GroupKind), _ => false
  | BytesKind, Slice _ => true
  | BytesKind, _ => false
  | StringKind, Text _ => negb (heldByPointer p)
  | StringKind, TextPointer _ => heldByPointer p
  | StringKind, _ => false
  | _, Direct _ => negb (heldByPointer p)
  | _, Pointer _ => heldByPointer p
  | _, _ => false
  end.

(** *** The reference encoder *)

(** Modelled from the spec: the generic encoder the generated one is
    compared with ([proto.Marshal], not among the sources) writes, front
    to back and in declaration order, for each field that is not skipped
    its tag, for a length-delimited field the varint length, and the
    payload. *)
Definition referenceField (p : FieldPlan) (v : FieldValue) : bytes :=
  match emitted p v with
  | None => []
  | Some payload =>
      tagBytes p
      ++ (if lengthDelimited p then EncodeVarint (Z.of_nat (length payload)) else [])
      ++ payload
  end.

Fixpoint referenceEncode (plans : list FieldPlan) (vals : list FieldValue) : bytes :=
  match plans, vals with
  | p :: plans, v :: vals => referenceField p v ++ referenceEncode plans vals
  | _, _ => []
  end.

(** *** The size calculator (section 4.2) *)

(** Modelled from the spec: [SizeVT] as the missing size generator
    prints it, the sum over the fields that are not skipped of tag,
    length prefix and payload. *)
Definition sizeField (p : FieldPlan) (v : FieldValue) : nat :=
  match emitted p v with
  | None => 0
  | Some payload =>
      length (tagBytes p)
      + (if lengthDelimited p
         then SizeOfVarint (Z.of_nat (length payload)) + length payload
         else match v with
              | Direct z | Pointer (Some z) => scalarSize (pKind p) z
              | _ => length payload
              end)
  end%nat.

Fixpoint SizeVT (plans : list FieldPlan) (vals : list FieldValue) : nat :=
  match plans, vals with
  | p :: plans, v :: vals => (sizeField p v + SizeVT plans vals)%nat
  | _, _ => 0%nat
  end.

(** *** The generated encoder (section 4.3) *)

(** Modelled from the spec: [MarshalToSizedBufferVT] as the missing
    encoder generator prints it.  The output buffer has the size the
    size calculator gives and is filled from the tail backward, fields
    in reverse order, within a field the payload first, then the length,
    then the tag.  [i] is the index below which nothing is written yet;
    a write that does not fit is the index panic of Go ([None]). *)
Definition putBack (bs : bytes) (st : bytes * nat) : option (bytes * nat) :=
  let '(buf, i) := st in
  if bool_decide (length bs ≤ i)%nat then
    let i' := (i - length bs)%nat in
    Some (take i' buf ++ bs ++ drop i buf, i')
  else None.

Definition marshalField (p : FieldPlan) (v : FieldValue) (st : bytes * nat)
  : option (bytes * nat) :=
  match emitted p v with
  | None => Some st
  | Some payload =>
      st ← putBack payload st;
      st ← (if lengthDelimited p
            then putBack (EncodeVarint (Z.of_nat (length payload))) st
            else Some st);
      putBack (tagBytes p) st
  end.

(** Modelled from the spec: the fields in reverse order. *)
Fixpoint MarshalToSizedBufferVT (plans : list FieldPlan) (vals : list FieldValue)
    (st : bytes * nat) : option (bytes * nat) :=
  match plans, vals with
  | p :: plans, v :: vals =>
      st ← MarshalToSizedBufferVT plans vals st;
      marshalField p v st
  | _, _ => Some st
  end.

(** Modelled from the spec: [MarshalVT] (encoder generator, missing)
    returns [dAtA[:n]] of the sized buffer, [n] being the number of bytes
    written. *)
Definition MarshalVT (plans : list FieldPlan) (vals : list FieldValue) : option bytes :=
  let size := SizeVT plans vals in
  '(buf, i) ← MarshalToSizedBufferVT plans vals (repeat 0 size, size);
  Some (take (size - i)%nat buf).

(** *** The generated decoder (section 4.4) *)

(** Modelled from the spec: what a decoded integer becomes in a field
    of kind [k] (decoder generator, missing); the bits of a
    floating-point number are kept as read. *)
Definition convert (k : Kind) (u : Z) : Z :=
  match k with
  | Int32Kind | EnumKind | Sfixed32Kind => int32 u
  | Int64Kind | Sfixed64Kind => int64 u
  | Uint32Kind | Fixed32Kind | FloatKind => uint32 u
  | Sint32Kind => int32 (unzigzag (uint32 u))
  | Sint64Kind => unzigzag u
  | BoolKind => if u =? 0 then 0 else 1
  | _ => u
  end.

(** Modelled from the spec: fixed-width and scalar payloads as the
    missing decoder generator reads them. *)
Definition readFixed (n : nat) (data : bytes) : result (Z * bytes) :=
  if bool_decide (n ≤ length data)%nat
  then Ok (ofLittleEndian (take n data), drop n data)
  else Err ErrUnexpectedEOF.

Definition readScalar (k : Kind) (data : bytes) : result (Z * bytes) :=
  match
    match k with
    | Fixed32Kind | Sfixed32Kind | FloatKind => readFixed 4 data
    | Fixed64Kind | Sfixed64Kind | DoubleKind => readFixed 8 data
    | _ => ReadVarint data
    end
  with
  | Ok (u, rest) => Ok (convert k u, rest)
  | Err e => Err e
  end.

(** Modelled from the spec: the length-delimited read of the missing
    decoder generator, a varint length and that many bytes; a length
    that is negative as a Go [int] or exceeds the remaining input is
    rejected. *)
Definition readLengthDelimited (data : bytes) : result (bytes * bytes) :=
  match ReadVarint data with
  | Err e => Err e
  | Ok (len, rest) =>
      if 2 ^ 63 <=? len then Err ErrInvalidLength
      else if Z.of_nat (length rest) <? len then Err ErrUnexpectedEOF
      else Ok (take (Z.to_nat len) rest, drop (Z.to_nat len) rest)
  end.

(** Modelled from the spec: a decoded value is stored directly, or
    behind a new pointer where [FieldGoType] has one. *)
Definition storeScalar (p : FieldPlan) (z : Z) : FieldValue :=
  if heldByPointer p then Pointer (Some z) else Direct z.

Definition storeText (p : FieldPlan) (s : bytes) : FieldValue :=
  if heldByPointer p then TextPointer (Some s) else Text s.

(** Modelled from the spec: the case the missing decoder generator
    prints for a known field.  A string under the strict contract is
    checked for well-formed text and the decode fails at once with the
    distinguishable error if it is not. *)
Definition readField (p : FieldPlan) (data : bytes) : result (FieldValue * bytes) :=
  match pKind p with
  | StringKind =>
      match readLengthDelimited data with
      | Err e => Err e
      | Ok (s, rest) =>
          if pStrict p && negb (ValidateUTF8 s) then Err ErrInvalidUTF8
          else Ok (storeText p s, rest)
      end
  | BytesKind =>
      match readLengthDelimited data with
      | Err e => Err e
      | Ok (s, rest) => Ok (Slice (Some s), rest)
      end
  | k =>
      match readScalar k data with
      | Err e => Err e
      | Ok (z, rest) => Ok (storeScalar p z, rest)
      end
  end.

(** Modelled from the spec: [Skip] of the missing package
    [protohelpers] skips one field by the framing of its wire type;
    groups nest. *)
Definition skipOne (wireType : Z) (rest : bytes) (depth : nat)
  : result (bytes * nat) :=
  if wireType =? WireVarint then
    match ReadVarint rest with Ok (_, r) => Ok (r, depth) | Err e => Err e end
  else if wireType =? WireFixed64 then
    match readFixed 8 rest with Ok (_, r) => Ok (r, depth) | Err e => Err e end
  else if wireType =? WireBytes then
    match readLengthDelimited rest with Ok (_, r) => Ok (r, depth) | Err e => Err e end
  else if wireType =? WireStartGroup then Ok (rest, S depth)
  else if wireType =? WireEndGroup then
    match depth with
    | O => Err ErrUnexpectedEndOfGroup
    | S depth => Ok (rest, depth)
    end
  else if wireType =? WireFixed32 then
    match readFixed 4 rest with Ok (_, r) => Ok (r, depth) | Err e => Err e end
  else Err ErrIllegalTag.

Fixpoint skipFuel (fuel : nat) (depth : nat) (data : bytes) : option (result bytes) :=
  match fuel with
  | O => None
  | S fuel =>
      match ReadVarint data with
      | Err e => Some (Err e)
      | Ok (wire, rest) =>
          match skipOne (Z.land wire 7) rest depth with
          | Err e => Some (Err e)
          | Ok (rest', O) => Some (Ok rest')
          | Ok (rest', S d) => skipFuel fuel (S d) rest'
          end
      end
  end.

(** Modelled from the spec: [Skip] gives the input after the first
    field, unknown to the decoder. *)
Definition Skip (data : bytes) : option (result bytes) :=
  skipFuel (S (length data)) 0 data.

(** Modelled from the spec: the [switch fieldNum] of the missing
    generated decoder, as a search of the plans. *)
Fixpoint findPlan (number : Z) (plans : list FieldPlan) (i : nat)
  : option (nat * FieldPlan) :=
  match plans with
  | [] => None
  | p :: plans =>
      if pNumber p =? number then Some (i, p) else findPlan number plans (S i)
  end.

(** Modelled from the spec: one turn of the decode loop of the missing
    generated [UnmarshalVT], [continue] being the rest of the loop.  A
    tag is read as a varint and dispatched by field number; a later
    occurrence of a singular field overwrites an earlier one; a field of
    unknown number, or of a wire type its kind does not expect, is
    skipped (the configuration that discards such fields). *)
Definition unmarshalStep
    (continue : bytes → list FieldValue → option (result (list FieldValue)))
    (plans : list FieldPlan) (data : bytes) (vals : list FieldValue)
  : option (result (list FieldValue)) :=
  match ReadVarint data with
  | Err e => Some (Err e)
  | Ok (wire, rest) =>
      let fieldNum := int32 (Z.shiftr wire 3) in
      let wireType := Z.land wire 7 in
      if wireType =? WireEndGroup then Some (Err ErrIllegalTag)
      else if fieldNum <=? 0 then Some (Err ErrIllegalTag)
      else
        let skip :=
          match Skip data with
          | None => None
          | Some (Err e) => Some (Err e)
          | Some (Ok rest') => continue rest' vals
          end in
        match findPlan fieldNum plans 0 with
        | None => skip
        | Some (i, p) =>
            if bool_decide (wireTypeOf (pKind p) = Some wireType) then
              match readField p rest with
              | Err e => Some (Err e)
              | Ok (v, rest') => continue rest' (<[ i := v ]> vals)
              end
            else skip
        end
  end.

(** Modelled from the spec: the decode loop [for iNdEx < l { ... }];
    [fuel] bounds the number of turns. *)
Fixpoint unmarshalFuel (fuel : nat) (plans : list FieldPlan) (data : bytes)
    (vals : list FieldValue) : option (result (list FieldValue)) :=
  match data with
  | [] => Some (Ok vals)
  | _ :: _ =>
      match fuel with
      | O => None
      | S fuel => unmarshalStep (unmarshalFuel fuel plans) plans data vals
      end
  end.

(** Modelled from the spec: [UnmarshalVT] (decoder generator, missing)
    into an instance that holds [vals]. *)
Definition UnmarshalVT (plans : list FieldPlan) (data : bytes)
    (vals : list FieldValue) : option (result (list FieldValue)) :=
  unmarshalFuel (length data) plans data vals.

(** Modelled from the spec: decoding into a fresh instance. *)
Definition decode (plans : list FieldPlan) (data : bytes)
  : option (result (list FieldValue)) :=
  UnmarshalVT plans data (fresh plans).

(** Modelled from the spec: the kinds held as a number: integers,
    floating point, bools and enums. *)
Definition isScalar (k : Kind) : bool :=
  match wireTypeOf k with
  | Some w => negb (w =? WireBytes)
  | None => false
  end.

(** Modelled from the spec: a field that is set and holds the zero
    value of its kind (section 3), as the struct holds it: the number 0
    (for floating point, +0), the empty string, the empty byte
    sequence; behind a pointer where [FieldGoType] has one. *)
Definition zeroHeld (p : FieldPlan) : FieldValue :=
  match pKind p with
  | BytesKind => Slice (Some [])
  | StringKind => storeText p []
  | _ => storeScalar p 0
  end.

(** Modelled from the spec: what follows the tag when that zero is on
    the wire (section 4.3): the length 0 for a string or a byte
    sequence, else the payload of the number 0. *)
Definition zeroWire (p : FieldPlan) : bytes :=
  if lengthDelimited p then EncodeVarint 0 else scalarPayload (pKind p) 0.

(** Modelled from the spec: an optional slot that is not absent
    (section 3): a pointer or a slice that is not nil. *)
Definition nonAbsent (v : FieldValue) : bool :=
  match v with
  | Pointer None | TextPointer None | Slice None => false
  | _ => true
  end.

End Codegen.

(** ** The transport codecs *)

Module Codecs.

(** What a codec can find out about the value behind an [interface{}]:
    the name of its dynamic type and the methods that type has, each
    acting on the state [S] of the value.  A value satisfies an
    interface when its type has the interface's methods. *)
Record methodSet (S E : Type) := mkMethods {
  typeName : string;
  msMarshalVT : option (S → option (list Z) * option E);
  msUnmarshalVT : option (list Z → S → S * option E);
  msResetVT : option (S → S);
  msReset : option (S → S)
}.
Arguments mkMethods {S E} _ _ _ _ _.
Arguments typeName {S E} _.
Arguments msMarshalVT {S E} _.
Arguments msUnmarshalVT {S E} _.
Arguments msResetVT {S E} _.
Arguments msReset {S E} _.

(** An error a codec returns: its own, made by [fmt.Errorf], or the one
    the message's method returned. *)
Inductive codecError (E : Type) :=
| MissingHelpers (text : string)
| MessageError (e : E).
Arguments MissingHelpers {E} text.
Arguments MessageError {E} e.

(** How a call ends. *)
Inductive call (A : Type) :=
| Returned (a : A)
| Panicked.
Arguments Returned {A} a.
Arguments Panicked {A}.

(** [v.(vtprotoMessage)]: both [MarshalVT] and [UnmarshalVT]. *)
Definition asVtprotoMessage {S E} (v : methodSet S E)
  : option ((S → option (list Z) * option E) * (list Z → S → S * option E)) :=
  match msMarshalVT v, msUnmarshalVT v with
  | Some m, Some u => Some (m, u)
  | _, _ => None
  end.

(** The reset both codecs make before unmarshaling:
    [if r, ok := v.(vtprotoResetter); ok { r.ResetVT() }
     else if r, ok := v.(protoResetter); ok { r.Reset() }]. *)
Definition resetBeforeUnmarshal {S E} (v : methodSet S E) (s : S) : S :=
  match msResetVT v with
  | Some r => r s
  | None =>
      match msReset v with
      | Some r => r s
      | None => s
      end
  end.

Definition missingHelpers (what : string) (tname : string) : string :=
  ("failed to " ++ what ++ ", message is " ++ tname
   ++ " (missing vtprotobuf helpers)")%string.

(** [grpc.Codec.Marshal]. *)
Definition grpcMarshal {S E} (v : methodSet S E) (s : S)
  : call (option (list Z) * option (codecError E)) :=
  match asVtprotoMessage v with
  | None => Returned (None, Some (MissingHelpers (missingHelpers "marshal" (typeName v))))
  | Some (marshalVT, _) =>
      let '(data, err) := marshalVT s in Returned (data, MessageError <$> err)
  end.

(** [grpc.Codec.Unmarshal]: the state the value is left in, and the
    error returned. *)
Definition grpcUnmarshal {S E} (data : list Z) (v : methodSet S E) (s : S)
  : S * call (option (codecError E)) :=
  match asVtprotoMessage v with
  | None => (s, Returned (Some (MissingHelpers (missingHelpers "unmarshal" (typeName v)))))
  | Some (_, unmarshalVT) =>
      let '(s', err) := unmarshalVT data (resetBeforeUnmarshal v s) in
      (s', Returned (MessageError <$> err))
  end.

(** [drpc.Marshal]: the type assertion [msg.(vtprotoMessage)] panics
    when it fails. *)
Definition drpcMarshal {S E} (v : methodSet S E) (s : S)
  : call (option (list Z) * option E) :=
  match asVtprotoMessage v with
  | None => Panicked
  | Some (marshalVT, _) => Returned (marshalVT s)
  end.

(** [drpc.Unmarshal]: the reset comes before the type assertion. *)
Definition drpcUnmarshal {S E} (buf : list Z) (v : methodSet S E) (s : S)
  : S * call (option E) :=
  let s1 := resetBeforeUnmarshal v s in
  match asVtprotoMessage v with
  | None => (s1, Panicked)
  | Some (_, unmarshalVT) =>
      let '(s', err) := unmarshalVT buf s1 in (s', Returned err)
  end.

(** A Go type with [MarshalVT] and [UnmarshalVT] and no reset method:
    a buffer whose [UnmarshalVT] appends what it is given. *)
Definition appender : methodSet (list Z) Empty_set :=
  mkMethods "*Appender"
    (Some (fun s => (Some s, None)))
    (Some (fun data s => (s ++ data, None)))
    None None.

(** The same buffer with a [Reset] that empties it. *)
Definition resettable : methodSet (list Z) Empty_set :=
  mkMethods "*Resettable"
    (Some (fun s => (Some s, None)))
    (Some (fun data s => (s ++ data, None)))
    None (Some (fun _ => [])).

(** A Go type with [MarshalVT] only. *)
Definition marshalOnly : methodSet (list Z) Empty_set :=
  mkMethods "*MarshalOnly" (Some (fun s => (Some s, None))) None None None.

End Codecs.

(** * Properties *)

Arguments exec_stmt : simpl never.

(** ** Struct fields *)

Section FieldLemmas.
Implicit Types (fs : fields) (v w : value) (n k : string).

Lemma getField_setField_eq n v fs fs' :
  setField n v fs = Some fs' → getField n fs' = Some v.
Proof.
  revert fs'. induction fs as [|[k w] fs IH]; intros fs' H; simpl in *; [done|].
  destruct (String.eqb k n) eqn:E.
  - inversion H; subst. simpl. by rewrite E.
  - destruct (setField n v fs) as [fs1|]; [|done].
    inversion H; subst. simpl. rewrite E. by apply IH.
Qed.

Lemma getField_setField_ne n k v fs fs' :
  n ≠ k → setField n v fs = Some fs' → getField k fs' = getField k fs.
Proof.
  intros Hne. revert fs'.
  induction fs as [|[k' w] fs IH]; intros fs' H; simpl in *; [done|].
  destruct (String.eqb k' n) eqn:E.
  - inversion H; subst. simpl.
    apply String.eqb_eq in E. subst k'.
    destruct (String.eqb n k) eqn:E'; [|done].
    apply String.eqb_eq in E'. done.
  - destruct (setField n v fs) as [fs1|]; [|done].
    inversion H; subst. simpl.
    destruct (String.eqb k' k); [done|]. by apply IH.
Qed.

Lemma setField_is_Some n v fs :
  is_Some (getField n fs) → is_Some (setField n v fs).
Proof.
  induction fs as [|[k w] fs IH]; simpl; intros [x Hx]; [done|].
  destruct (String.eqb k n); [by eexists|].
  destruct IH as [fs1 ->]; by eexists.
Qed.
End FieldLemmas.

(** ** Outcomes *)

Lemma bind_Done {A B} (x : outcome A) (k : A → outcome B) b :
  x ≫= k = Done b → ∃ a, x = Done a ∧ k a = Done b.
Proof. destruct x; simpl; [eauto|done|done]. Qed.

Lemma ofOption_Done {A} (x : option A) a : ofOption x = Done a → x = Some a.
Proof. destruct x; simpl; congruence. Qed.

(** Splits a hypothesis [... = Done _] along the binds it is made of. *)
Ltac done_inv H :=
  repeat match type of H with
  | _ ≫= _ = Done _ =>
      let a := fresh "a" in
      let Ha := fresh "Ha" in
      apply bind_Done in H as (a & Ha & H)
  | ofOption _ = Done _ => apply ofOption_Done in H
  | (let '(_, _) := ?p in _) = Done _ => destruct p
  | Done _ = Done _ => inversion H; subst; clear H
  | Fault = Done _ => discriminate H
  | OutOfFuel = Done _ => discriminate H
  end;
  repeat match goal with
  | H' : ofOption _ = Done _ |- _ => apply ofOption_Done in H'
  end.

Lemma exec_body_app prog rec ty a b fr :
  exec_body prog rec ty (a ++ b) fr
  = exec_body prog rec ty a fr ≫= exec_body prog rec ty b.
Proof.
  revert fr. induction a as [|s a IH]; intros fr; simpl; [done|].
  destruct (exec_stmt prog rec ty s fr); simpl; [apply IH|done|done].
Qed.

Lemma exec_body_app_Done prog rec ty a b fr fr2 :
  exec_body prog rec ty (a ++ b) fr = Done fr2 →
  ∃ fr1, exec_body prog rec ty a fr = Done fr1
         ∧ exec_body prog rec ty b fr1 = Done fr2.
Proof. rewrite exec_body_app. apply bind_Done. Qed.

(** ** The shape of the printed body *)

Lemma fieldStep_spec cfg st f :
  fieldStep cfg st f =
    {| saved := saved st ++ (if savedField f then [f] else []);
       oneofBytes := oneofBytes st ++ (if oneofBytesField f then [f] else []);
       printed := printed st ++ fieldStmts cfg (length (saved st)) f |}.
Proof.
  destruct st as [sv ob pr].
  unfold fieldStep, fieldStmts, savedField, oneofBytesField; simpl.
  destruct (fIsList f); simpl.
  { rewrite app_nil_r. by destruct (fKind f). }
  destruct (inRealOneof f); simpl.
  { destruct (fKind f); simpl; rewrite ?app_nil_r;
      try done; by destruct (ShouldPool cfg (fMessage f)); rewrite ?app_nil_r. }
  destruct (fKind f); simpl; rewrite ?app_nil_r; try done;
    by destruct (negb (fIsMap f) && ShouldPool cfg (fMessage f)); rewrite ?app_nil_r.
Qed.

Lemma fieldLoop_spec cfg fs st :
  foldl (fieldStep cfg) st fs =
    {| saved := saved st ++ filter (fun f => savedField f = true) fs;
       oneofBytes := oneofBytes st ++ filter (fun f => oneofBytesField f = true) fs;
       printed := printed st ++ fieldsStmts cfg (length (saved st)) fs |}.
Proof.
  revert st. induction fs as [|f fs IH]; intros st; simpl.
  { destruct st; simpl. by rewrite !app_nil_r. }
  rewrite IH, fieldStep_spec; simpl.
  rewrite <- !app_assoc. f_equal.
  - f_equal. rewrite filter_cons. by destruct (savedField f).
  - f_equal. rewrite filter_cons. by destruct (oneofBytesField f).
  - f_equal. f_equal. rewrite length_app.
    destruct (savedField f); simpl; f_equal; lia.
Qed.

(** The five parts of the printed body. *)
Lemma resetBody_spec cfg o msg :
  resetBody cfg o msg =
    fieldsStmts cfg 0 (mFields msg)
    ++ (if bool_decide (0 < length (oneofBytesOf msg)) then
          map (saveGroup (mGoIdent msg)) (saveOrder o (oneofGroups (oneofBytesOf msg)))
        else [])
    ++ [ SReset ]
    ++ restoreSaved (savedOf msg)
    ++ (if bool_decide (0 < length (oneofBytesOf msg)) then
          map (fun g => SOneofRestore g.1) (restoreOrder o (oneofGroups (oneofBytesOf msg)))
        else []).
Proof. unfold resetBody. by rewrite fieldLoop_spec. Qed.

(** ** What a statement can change *)

Ltac exec_inv H :=
  unfold exec_stmt in H; done_inv H;
  repeat (case_match; simplify_eq; done_inv H); simplify_eq;
  repeat match goal with
  | H' : ofOption _ = Done _ |- _ => apply ofOption_Done in H'
  end.

Section Frames.
Variable prog : program.
Variable rec : value → pools → outcome (value * pools).
Variable ty : GoIdent.

Lemma exec_stmt_field_other s F fr fr' :
  s ≠ SReset → writesField s ≠ Some F →
  exec_stmt prog rec ty s fr = Done fr' →
  getField F (self fr') = getField F (self fr).
Proof.
  intros Hr Hw H. destruct s; simpl in Hw; try done; exec_inv H; simpl; try done;
    eapply getField_setField_ne; try eassumption; congruence.
Qed.

Lemma exec_stmt_locals_other s k fr fr' :
  writesLocal s ≠ Some k →
  exec_stmt prog rec ty s fr = Done fr' →
  locals fr' !! k = locals fr !! k.
Proof.
  intros Hw H. destruct s; simpl in Hw; exec_inv H; simpl; try done.
  apply lookup_insert_ne. congruence.
Qed.

Lemma exec_stmt_saved_other s O fr fr' :
  writesSaved s ≠ Some O →
  exec_stmt prog rec ty s fr = Done fr' →
  savedOneof fr' !! O = savedOneof fr !! O.
Proof.
  intros Hw H. destruct s; simpl in Hw; exec_inv H; simpl; try done;
    apply lookup_insert_ne; congruence.
Qed.

Lemma exec_body_field_other body F fr fr' :
  Forall (fun s => s ≠ SReset ∧ writesField s ≠ Some F) body →
  exec_body prog rec ty body fr = Done fr' →
  getField F (self fr') = getField F (self fr).
Proof.
  intros Hall. revert fr. induction Hall as [|s body [Hr Hw] _ IH]; intros fr H; simpl in H.
  - by done_inv H.
  - done_inv H. rewrite (IH _ H). by eapply exec_stmt_field_other.
Qed.

Lemma exec_body_locals_other body k fr fr' :
  Forall (fun s => writesLocal s ≠ Some k) body →
  exec_body prog rec ty body fr = Done fr' →
  locals fr' !! k = locals fr !! k.
Proof.
  intros Hall. revert fr. induction Hall as [|s body Hw _ IH]; intros fr H; simpl in H.
  - by done_inv H.
  - done_inv H. rewrite (IH _ H). by eapply exec_stmt_locals_other.
Qed.

Lemma exec_body_saved_other body O fr fr' :
  Forall (fun s => writesSaved s ≠ Some O) body →
  exec_body prog rec ty body fr = Done fr' →
  savedOneof fr' !! O = savedOneof fr !! O.
Proof.
  intros Hall. revert fr. induction Hall as [|s body Hw _ IH]; intros fr H; simpl in H.
  - by done_inv H.
  - done_inv H. rewrite (IH _ H). by eapply exec_stmt_saved_other.
Qed.
End Frames.

(** ** What the statements of the field loop write *)

Lemma fieldStmts_writes cfg k f s :
  In s (fieldStmts cfg k f) →
  s ≠ SReset
  ∧ (writesField s = None ∨ writesField s = Some (structName f))
  ∧ (writesLocal s = None ∨ writesLocal s = Some k)
  ∧ writesSaved s = None.
Proof.
  unfold fieldStmts, structName.
  destruct (fIsList f); [|destruct (inRealOneof f)];
    destruct (fKind f); simpl;
    repeat case_match; simpl; intros Hin;
    repeat (destruct Hin as [<-|Hin]; [simpl; auto|]); try done.
Qed.

Lemma fieldsStmts_In cfg k fs s :
  In s (fieldsStmts cfg k fs) →
  ∃ k' f, In f fs ∧ (k ≤ k')%nat ∧ In s (fieldStmts cfg k' f).
Proof.
  revert k. induction fs as [|f fs IH]; intros k; simpl; [done|].
  rewrite in_app_iff. intros [H|H].
  - exists k, f. auto.
  - apply IH in H as (k' & g & Hg & Hk & Hs).
    exists k', g. split_and!; auto. destruct (savedField f); lia.
Qed.

Lemma fieldsStmts_field_other cfg k fs F :
  Forall (fun g => structName g ≠ F) fs →
  Forall (fun s => s ≠ SReset ∧ writesField s ≠ Some F) (fieldsStmts cfg k fs).
Proof.
  intros Hall. apply List.Forall_forall. intros s Hs.
  apply fieldsStmts_In in Hs as (k' & g & Hg & _ & Hs).
  apply fieldStmts_writes in Hs as (Hr & [Hw|Hw] & _); split; auto; rewrite Hw; [done|].
  rewrite List.Forall_forall in Hall. specialize (Hall _ Hg). congruence.
Qed.

Lemma fieldsStmts_locals_other cfg k fs n :
  (n < k)%nat → Forall (fun s => writesLocal s ≠ Some n) (fieldsStmts cfg k fs).
Proof.
  intros Hn. apply List.Forall_forall. intros s Hs.
  apply fieldsStmts_In in Hs as (k' & g & _ & Hk & Hs).
  apply fieldStmts_writes in Hs as (_ & _ & [Hw|Hw] & _); rewrite Hw; [done|].
  intros [= ->]. lia.
Qed.

Lemma fieldsStmts_saved_other cfg k fs O :
  Forall (fun s => writesSaved s ≠ Some O) (fieldsStmts cfg k fs).
Proof.
  apply List.Forall_forall. intros s Hs.
  apply fieldsStmts_In in Hs as (k' & g & _ & _ & Hs).
  apply fieldStmts_writes in Hs as (_ & _ & _ & Hw). by rewrite Hw.
Qed.

Lemma fieldsStmts_app cfg k pre post :
  fieldsStmts cfg k (pre ++ post) =
    fieldsStmts cfg k pre
    ++ fieldsStmts cfg (k + length (filter (fun f => savedField f = true) pre)) post.
Proof.
  revert k. induction pre as [|f pre IH]; intros k; simpl.
  { f_equal. lia. }
  rewrite IH, <- app_assoc. do 3 f_equal.
  rewrite filter_cons. destruct (savedField f); simpl; lia.
Qed.

Lemma fieldStmts_saved cfg k f :
  savedField f = true →
  fieldStmts cfg k f = ownPrefix cfg f ++ [ SSave k (fGoName f) ].
Proof.
  unfold savedField, fieldStmts, ownPrefix.
  destruct (fIsList f); simpl; [by destruct (fKind f)|].
  destruct (inRealOneof f); simpl; [done|].
  intros H. apply bool_decide_eq_true in H. by rewrite H.
Qed.

Lemma savedField_structName f : savedField f = true → structName f = fGoName f.
Proof.
  unfold savedField, structName. destruct (fIsList f); [done|].
  by destruct (inRealOneof f).
Qed.

Lemma oneofBytesField_structName f :
  oneofBytesField f = true → structName f = OneofGoName f.
Proof.
  unfold oneofBytesField, structName. destruct (fIsList f); [done|].
  by destruct (inRealOneof f).
Qed.

(** ** The map [oneofGroups] and the orders of its range loops *)

Lemma groups_lookup fs acc O :
  foldl groupStep acc fs !! O =
    if decide (filter (fun g => OneofGoName g = O) fs = [])
    then acc !! O
    else Some (default [] (acc !! O) ++ filter (fun g => OneofGoName g = O) fs).
Proof.
  revert acc. induction fs as [|f fs IH]; intros acc; simpl; [done|].
  rewrite IH. unfold groupStep. rewrite filter_cons.
  destruct (decide (OneofGoName f = O)) as [->|Hne].
  - rewrite lookup_insert_eq. simpl.
    repeat case_decide; simplify_eq; try done.
    + by match goal with H : filter _ fs = [] |- _ => rewrite H end.
    + by rewrite <- app_assoc.
  - rewrite lookup_insert_ne by done. done.
Qed.

Lemma oneofGroups_lookup fs O :
  oneofGroups fs !! O =
    if decide (filter (fun g => OneofGoName g = O) fs = []) then None
    else Some (filter (fun g => OneofGoName g = O) fs).
Proof.
  unfold oneofGroups. change (foldl _ ∅ fs) with (foldl groupStep ∅ fs).
  rewrite groups_lookup, lookup_empty. done.
Qed.

Lemma oneofGroups_member fs g :
  g ∈ fs →
  ∃ grp, oneofGroups fs !! OneofGoName g = Some grp ∧ g ∈ grp.
Proof.
  intros Hg.
  assert (g ∈ filter (fun h => OneofGoName h = OneofGoName g) fs) as Hin
    by (apply list_elem_of_filter; done).
  rewrite oneofGroups_lookup.
  destruct (decide _) as [E|_]; [rewrite E in Hin; by apply not_elem_of_nil in Hin|].
  eauto.
Qed.

Lemma oneofGroups_key fs O grp :
  oneofGroups fs !! O = Some grp →
  ∃ g, g ∈ fs ∧ OneofGoName g = O.
Proof.
  rewrite oneofGroups_lookup. destruct (decide _) as [|Hne]; [done|].
  intros _. destruct (filter _ fs) as [|g l] eqn:E; [done|].
  assert (g ∈ filter (fun g => OneofGoName g = O) fs) as Hin
    by (rewrite E; left).
  apply list_elem_of_filter in Hin as [? ?]. eauto.
Qed.

Section Range.
Variable r : rangeOrder.
Hypothesis Hr : validRange r.

Lemma range_elem m O grp : (O, grp) ∈ r m ↔ m !! O = Some grp.
Proof. rewrite (Hr m). apply elem_of_map_to_list. Qed.

Lemma range_NoDup m : NoDup (r m).*1.
Proof. rewrite (Hr m). apply NoDup_fst_map_to_list. Qed.
End Range.

(** ** The parts of the body after the field loop *)

Section Phases.
Variable prog : program.
Variable rec : value → pools → outcome (value * pools).
Variable ty : GoIdent.

Lemma restore_oneofs_other names F fr fr' :
  F ∉ names →
  exec_body prog rec ty (map SOneofRestore names) fr = Done fr' →
  getField F (self fr') = getField F (self fr).
Proof.
  intros HF. apply exec_body_field_other.
  apply List.Forall_forall. intros s Hs.
  apply in_map_iff in Hs as (O & <- & HO). split; [done|].
  simpl. intros [= ->]. apply HF. by apply list_elem_of_In.
Qed.

Lemma restore_oneofs_saved names fr fr' :
  exec_body prog rec ty (map SOneofRestore names) fr = Done fr' →
  savedOneof fr' = savedOneof fr.
Proof.
  revert fr. induction names as [|O names IH]; intros fr H; simpl in H.
  - by done_inv H.
  - done_inv H. rewrite (IH _ H). by exec_inv Ha.
Qed.

(** After [m.O = savedO] has run for every group, the slot of a group
    holds what was saved for it. *)
Lemma restore_oneofs names O fr fr' :
  NoDup names → O ∈ names →
  exec_body prog rec ty (map SOneofRestore names) fr = Done fr' →
  ∃ v, savedOneof fr !! O = Some v ∧ getField O (self fr') = Some v.
Proof.
  intros Hnd. revert fr.
  induction Hnd as [|O' names Hnotin Hnd IH]; intros fr HO H.
  { by apply not_elem_of_nil in HO. }
  simpl in H. done_inv H.
  destruct (decide (O = O')) as [->|Hne].
  - rewrite (restore_oneofs_other _ _ _ _ Hnotin H).
    exec_inv Ha. simpl. eexists. split; [eassumption|].
    by eapply getField_setField_eq.
  - apply elem_of_cons in HO as [?|HO]; [done|].
    destruct (IH _ HO H) as (v & Hv & Hget).
    exists v. split; [|done].
    rewrite <- Hv. symmetry. eapply exec_stmt_saved_other; [|exact Ha]. done.
Qed.

Lemma save_groups_other T l F fr fr' :
  F ∉ l.*1 →
  exec_body prog rec ty (map (saveGroup T) l) fr = Done fr' →
  getField F (self fr') = getField F (self fr)
  ∧ savedOneof fr' !! F = savedOneof fr !! F.
Proof.
  intros HF H.
  assert (∀ s, In s (map (saveGroup T) l) →
               s ≠ SReset ∧ writesField s ≠ Some F ∧ writesSaved s ≠ Some F) as Hall.
  { intros s Hs. apply in_map_iff in Hs as ([O grp] & <- & HO).
    assert (O ≠ F).
    { intros ->. apply HF. apply list_elem_of_fmap.
      exists (F, grp). split; [done|]. by apply list_elem_of_In. }
    unfold saveGroup; simpl. split_and!; congruence. }
  split.
  - eapply exec_body_field_other; [|exact H].
    apply List.Forall_forall. intros s Hs. destruct (Hall s Hs) as (?&?&?). done.
  - eapply exec_body_saved_other; [|exact H].
    apply List.Forall_forall. intros s Hs. destruct (Hall s Hs) as (?&?&?). done.
Qed.

(** The save of the group of [O]: when the slot holds the wrapper of
    one of the group's members, its bytes are cut to length zero in
    place and the wrapper is what [savedO] holds. *)
Lemma save_groups T l O grp a W p fr fr' :
  NoDup l.*1 → (O, grp) ∈ l →
  (∃ g, g ∈ grp ∧ fGoIdent g = W) →
  getField O (self fr) = Some (VWrap a W p) →
  exec_body prog rec ty (map (saveGroup T) l) fr = Done fr' →
  ∃ p', truncate p = Some p'
        ∧ getField O (self fr') = Some (VWrap a W p')
        ∧ savedOneof fr' !! O = Some (VWrap a W p').
Proof.
  intros Hnd Hin (g & Hg & HW). revert fr.
  induction l as [|[O' grp'] l IH]; intros fr Hget H.
  { by apply not_elem_of_nil in Hin. }
  simpl in Hnd. apply NoDup_cons in Hnd as [Hnotin Hnd].
  simpl in H. done_inv H.
  apply elem_of_cons in Hin as [[= <- <-]|Hin].
  - destruct (save_groups_other _ _ _ _ _ Hnotin H) as [-> ->].
    unfold saveGroup in Ha; simpl in Ha. unfold exec_stmt in Ha.
    rewrite Hget in Ha. simpl in Ha.
    assert (is_Some (matchCase
              (map (fun field => (fGoIdent field, fGoName field)) grp) W)) as [c Hc].
    { unfold matchCase.
      destruct (List.find _ _) eqn:E; [by eexists|]. exfalso.
      eapply List.find_none in E.
      2:{ apply in_map_iff. exists g. split; [done|]. by apply list_elem_of_In. }
      simpl in E. rewrite HW, String.eqb_refl in E. done. }
    rewrite Hc in Ha. done_inv Ha. simpl.
    eexists. split; [eassumption|]. split.
    + by eapply getField_setField_eq.
    + apply lookup_insert_eq.
  - assert (O ≠ O') as Hne.
    { intros ->. apply Hnotin. apply list_elem_of_fmap. by exists (O', grp). }
    apply (IH Hnd Hin a0); [|done].
    rewrite <- Hget. eapply exec_stmt_field_other; [| |exact Ha];
      unfold saveGroup; simpl; congruence.
Qed.

(** The restores [m.F = fN] of the saved handles. *)
Lemma restore_saved_other i saved F fr fr' :
  Forall (fun g => fGoName g ≠ F) saved →
  exec_body prog rec ty (imap (fun j g => SRestore (fGoName g) (i + j)) saved) fr
    = Done fr' →
  getField F (self fr') = getField F (self fr).
Proof.
  intros Hall. apply exec_body_field_other.
  apply List.Forall_forall. intros s Hs.
  apply list_elem_of_In, elem_of_lookup_imap in Hs as (j & g & -> & Hg).
  split; [done|]. simpl.
  rewrite Forall_forall in Hall. apply list_elem_of_lookup_2 in Hg.
  specialize (Hall _ Hg). congruence.
Qed.

Lemma restore_saved_frame i saved fr fr' :
  exec_body prog rec ty (imap (fun j g => SRestore (fGoName g) (i + j)) saved) fr
    = Done fr' →
  locals fr' = locals fr ∧ savedOneof fr' = savedOneof fr
  ∧ pool_state fr' = pool_state fr.
Proof.
  revert i fr. induction saved as [|g saved IH]; intros i fr H; simpl in H.
  - by done_inv H.
  - done_inv H.
    erewrite imap_ext in H; [apply (IH (S i)) in H|].
    2:{ intros j x _. simpl. f_equal. lia. }
    destruct H as (-> & -> & ->). by exec_inv Ha.
Qed.

Lemma restore_saved sp f sq fr fr' :
  Forall (fun g => fGoName g ≠ fGoName f) sq →
  exec_body prog rec ty (restoreSaved (sp ++ f :: sq)) fr = Done fr' →
  ∃ v, locals fr !! length sp = Some v
       ∧ getField (fGoName f) (self fr') = Some v.
Proof.
  intros Hsq H. unfold restoreSaved in H.
  rewrite imap_app, imap_cons in H.
  apply exec_body_app_Done in H as (fr1 & H1 & H2).
  simpl in H2. done_inv H2.
  destruct (restore_saved_frame 0 sp fr fr1) as (Hl & _ & _); [exact H1|].
  rewrite <- Hl.
  erewrite imap_ext in H2;
    [apply (restore_saved_other (S (length sp)) sq (fGoName f)) in H2; [|exact Hsq]|].
  2:{ intros j x _. simpl. f_equal. lia. }
  rewrite H2. exec_inv Ha. simpl.
  rewrite Nat.add_0_r in *. eexists. split; [eassumption|].
  by eapply getField_setField_eq.
Qed.
End Phases.

(** ** Single statements *)

Section Statements.
Variable prog : program.
Variable rec : value → pools → outcome (value * pools).
Variable ty : GoIdent.

Lemma exec_SSave n F fr fr' :
  exec_stmt prog rec ty (SSave n F) fr = Done fr' →
  ∃ v t, getField F (self fr) = Some v ∧ truncate v = Some t
         ∧ fr' = mkFrame (self fr) (<[ n := t ]> (locals fr))
                   (savedOneof fr) (pool_state fr).
Proof. intros H. exec_inv H. eauto. Qed.

Lemma exec_SReset fr fr' :
  exec_stmt prog rec ty SReset fr = Done fr' →
  ∃ zero, zeroOfType prog ty = Some zero
          ∧ fr' = mkFrame zero (locals fr) (savedOneof fr) (pool_state fr).
Proof. intros H. exec_inv H. eauto. Qed.

Lemma exec_SClear F fr fr' :
  exec_stmt prog rec ty (SClear F) fr = Done fr' →
  ∃ v v', getField F (self fr) = Some v ∧ clearSlice v = Some v'
          ∧ getField F (self fr') = Some v'
          ∧ pool_state fr' = pool_state fr.
Proof.
  intros H. exec_inv H. simpl. do 2 eexists. split_and!; try done.
  by eapply getField_setField_eq.
Qed.

Lemma exec_SRangeReset F pooled fr fr' :
  exec_stmt prog rec ty (SRangeReset F pooled) fr = Done fr' →
  (getField F (self fr) = Some VNil ∧ fr' = fr)
  ∨ ∃ arr len store elems,
      getField F (self fr) = Some (VSlice arr len store)
      ∧ rangeReset prog rec pooled (take len store) (pool_state fr)
        = Done (elems, pool_state fr')
      ∧ getField F (self fr') = Some (VSlice arr len (elems ++ drop len store)).
Proof.
  intros H. exec_inv H; [by left|]. right. simpl.
  do 4 eexists. split_and!; try done.
  by eapply getField_setField_eq.
Qed.
End Statements.

(** ** A run of the whole body, seen from one saved field *)

Lemma oneofBytes_not_saved f :
  oneofBytesField f = true → savedField f = true → False.
Proof.
  unfold oneofBytesField, savedField.
  destruct (fIsList f), (inRealOneof f); simpl; congruence.
Qed.

Section SavedField.
Variable cfg : Config.
Variable o : mapOrders.
Variable prog : program.
Variable rec : value → pools → outcome (value * pools).
Variable msg : Message.
Variables (pre post : list Field) (f : Field).

Hypothesis Hord : validOrders o.
Hypothesis Hfields : mFields msg = pre ++ f :: post.
Hypothesis Hsaved : savedField f = true.
Hypothesis Hnames : Forall (fun g => structName g ≠ fGoName f) (pre ++ post).

Let k := length (filter (fun g => savedField g = true) pre).

Lemma oneof_names_other (r : rangeOrder) :
  validRange r →
  fGoName f ∉ (r (oneofGroups (oneofBytesOf msg))).*1.
Proof.
  intros Hr Hin. apply list_elem_of_fmap in Hin as ([O grp] & HO & Hin).
  simpl in HO. subst O.
  apply (range_elem r Hr) in Hin.
  apply oneofGroups_key in Hin as (g & Hg & Hname).
  unfold oneofBytesOf in Hg. apply list_elem_of_filter in Hg as [Hob Hg].
  rewrite Hfields in Hg.
  rewrite Forall_forall in Hnames.
  apply elem_of_app in Hg as [Hg|Hg].
  - apply (Hnames g); [apply elem_of_app; by left|].
    by rewrite oneofBytesField_structName.
  - apply elem_of_cons in Hg as [->|Hg].
    + by eapply oneofBytes_not_saved.
    + apply (Hnames g); [apply elem_of_app; by right|].
      by rewrite oneofBytesField_structName.
Qed.

Lemma saved_field_run flds P fr' :
  exec_body prog rec (mGoIdent msg) (resetBody cfg o msg) (mkFrame flds ∅ ∅ P)
    = Done fr' →
  ∃ fr1 fr2 v t,
    exec_body prog rec (mGoIdent msg) (fieldsStmts cfg 0 pre) (mkFrame flds ∅ ∅ P)
      = Done fr1
    ∧ getField (fGoName f) (self fr1) = getField (fGoName f) flds
    ∧ exec_body prog rec (mGoIdent msg) (ownPrefix cfg f) fr1 = Done fr2
    ∧ getField (fGoName f) (self fr2) = Some v
    ∧ truncate v = Some t
    ∧ getField (fGoName f) (self fr') = Some t.
Proof.
  intros H. pose proof Hord as [Hso Hro].
  pose proof Hnames as Hn. apply Forall_app in Hn as [Hpre Hpost].
  rewrite resetBody_spec, Hfields, fieldsStmts_app in H. simpl in H.
  rewrite Hsaved, (fieldStmts_saved _ _ _ Hsaved) in H.
  fold k in H. rewrite <- !app_assoc in H.
  apply exec_body_app_Done in H as (fr1 & HA & H).
  apply exec_body_app_Done in H as (fr2 & HB & H).
  simpl in H. apply bind_Done in H as (frC & HC & H).
  apply exec_body_app_Done in H as (frD & HD & H).
  apply exec_body_app_Done in H as (frE & HE & H).
  simpl in H. apply bind_Done in H as (frF & HF & H).
  apply exec_body_app_Done in H as (frG & HG & HH).
  apply exec_SSave in HC as (v & t & Hv & Ht & ->).
  exists fr1, fr2, v, t. split_and!; try done.
  { eapply (exec_body_field_other _ _ _ _ (fGoName f)) in HA; [exact HA|].
    by apply fieldsStmts_field_other. }
  (* the handle stays in its local until it is restored *)
  assert (locals frF !! k = Some t) as Hloc.
  { apply exec_SReset in HF as (zero & _ & ->). simpl.
    apply (exec_body_locals_other _ _ _ _ k) in HE.
    2:{ apply List.Forall_forall. intros s Hs. case_bool_decide; [|done].
        apply in_map_iff in Hs as (g & <- & _). done. }
    apply (exec_body_locals_other _ _ _ _ k) in HD.
    2:{ apply fieldsStmts_locals_other. lia. }
    rewrite HE, HD. simpl. apply lookup_insert_eq. }
  assert (savedOf msg =
            filter (fun g => savedField g = true) pre
            ++ f :: filter (fun g => savedField g = true) post) as Hsv.
  { unfold savedOf. rewrite Hfields, filter_app, filter_cons.
    by rewrite decide_True. }
  rewrite Hsv in HG.
  apply restore_saved in HG as (t' & Ht' & HG).
  2:{ apply Forall_forall. intros g Hg.
      apply list_elem_of_filter in Hg as [Hgs Hg].
      rewrite Forall_forall in Hpost. specialize (Hpost g Hg).
      by rewrite savedField_structName in Hpost. }
  fold k in Ht'. rewrite Hloc in Ht'. injection Ht' as <-.
  rewrite <- HG. case_bool_decide.
  - rewrite <- (map_map fst SOneofRestore) in HH.
    eapply restore_oneofs_other; [|exact HH].
    by apply oneof_names_other.
  - simpl in HH. by done_inv HH.
Qed.
End SavedField.

(** ** A run of the whole body, seen from a oneof that holds bytes *)

Lemma fieldsStmts_loopStmt cfg k fs :
  Forall (fun s => loopStmt s = true) (fieldsStmts cfg k fs).
Proof.
  apply List.Forall_forall. intros s Hs.
  apply fieldsStmts_In in Hs as (k' & f & _ & _ & Hs).
  revert Hs. unfold fieldStmts.
  destruct (fIsList f); [|destruct (inRealOneof f)];
    destruct (fKind f); simpl; repeat case_match; simpl; intros Hin;
    repeat (destruct Hin as [<-|Hin]; [done|]); done.
Qed.

Section Wrapper.
Variable prog : program.
Variable rec : value → pools → outcome (value * pools).
Variable ty : GoIdent.
Variables (O : string) (a : nat) (W : GoIdent) (p : value).
Hypothesis Hp : isSlice p = true.

(** No statement of the field loop changes a oneof slot that holds
    wrapped bytes. *)
Lemma exec_stmt_keeps_wrapper s fr fr' :
  loopStmt s = true →
  getField O (self fr) = Some (VWrap a W p) →
  exec_stmt prog rec ty s fr = Done fr' →
  getField O (self fr') = Some (VWrap a W p).
Proof.
  intros Hs Hget H.
  destruct (decide (writesField s = Some O)) as [Hw|Hw].
  2:{ rewrite <- Hget. eapply exec_stmt_field_other; [|exact Hw|exact H].
      by destruct s. }
  destruct s; simpl in Hs, Hw; try done; simplify_eq;
    unfold exec_stmt in H; rewrite Hget in H; simpl in H; try done.
  destruct (String.eqb W wrapper); [|by done_inv H].
  destruct p; simpl in Hp, H; try done.
  done_inv H. simpl. by eapply getField_setField_eq.
Qed.

Lemma exec_body_keeps_wrapper body fr fr' :
  Forall (fun s => loopStmt s = true) body →
  getField O (self fr) = Some (VWrap a W p) →
  exec_body prog rec ty body fr = Done fr' →
  getField O (self fr') = Some (VWrap a W p).
Proof.
  intros Hall. revert fr.
  induction Hall as [|s body Hs _ IH]; intros fr Hget H; simpl in H.
  - by done_inv H.
  - done_inv H. eapply IH; [|exact H]. by eapply exec_stmt_keeps_wrapper.
Qed.
End Wrapper.

Lemma restoreSaved_frame prog rec ty saved fr fr' :
  exec_body prog rec ty (restoreSaved saved) fr = Done fr' →
  locals fr' = locals fr ∧ savedOneof fr' = savedOneof fr
  ∧ pool_state fr' = pool_state fr.
Proof. apply (restore_saved_frame prog rec ty 0). Qed.

Section OneofBytes.
Variable cfg : Config.
Variable o : mapOrders.
Variable prog : program.
Variable rec : value → pools → outcome (value * pools).
Variable msg : Message.
Variable f : Field.

Hypothesis Hord : validOrders o.
Hypothesis Hin : f ∈ mFields msg.
Hypothesis Hob : oneofBytesField f = true.

Lemma oneofBytes_group :
  0 < length (oneofBytesOf msg)
  ∧ ∃ grp, oneofGroups (oneofBytesOf msg) !! OneofGoName f = Some grp ∧ f ∈ grp.
Proof.
  assert (f ∈ oneofBytesOf msg) as Hf by (by apply list_elem_of_filter).
  split; [|by apply oneofGroups_member].
  destruct (oneofBytesOf msg); [by apply not_elem_of_nil in Hf|simpl; lia].
Qed.

Lemma oneof_bytes_run flds P a p fr' :
  isSlice p = true →
  getField (OneofGoName f) flds = Some (VWrap a (fGoIdent f) p) →
  exec_body prog rec (mGoIdent msg) (resetBody cfg o msg) (mkFrame flds ∅ ∅ P)
    = Done fr' →
  ∃ p', truncate p = Some p'
        ∧ getField (OneofGoName f) (self fr') = Some (VWrap a (fGoIdent f) p').
Proof.
  intros Hp Hget H. pose proof Hord as [Hso Hro].
  destruct oneofBytes_group as (Hlen & grp & Hgrp & Hfg).
  rewrite resetBody_spec in H.
  rewrite !bool_decide_eq_true_2 in H by done.
  apply exec_body_app_Done in H as (fr1 & HA & H).
  apply exec_body_app_Done in H as (fr2 & HB & H).
  simpl in H. apply bind_Done in H as (fr3 & HC & H).
  apply exec_body_app_Done in H as (fr4 & HD & HE).
  apply (exec_body_keeps_wrapper _ _ _ (OneofGoName f) a (fGoIdent f) p Hp) in HA;
    [|apply fieldsStmts_loopStmt|exact Hget].
  eapply save_groups in HB as (p' & Hp' & _ & Hsv); [| | | |exact HA].
  2:{ by apply range_NoDup. }
  2:{ apply range_elem; [done|exact Hgrp]. }
  2:{ by exists f. }
  exists p'. split; [done|].
  apply exec_SReset in HC as (zero & _ & ->).
  apply restoreSaved_frame in HD as (_ & HD & _). simpl in HD.
  rewrite <- (map_map fst SOneofRestore) in HE.
  eapply (restore_oneofs _ _ _ _ (OneofGoName f)) in HE as (v & Hv & HE).
  2:{ by apply range_NoDup. }
  2:{ apply list_elem_of_fmap. exists (OneofGoName f, grp). split; [done|].
      by apply range_elem. }
  rewrite HE. f_equal. rewrite HD, Hsv in Hv. by injection Hv.
Qed.
End OneofBytes.

(** ** Slice headers *)

Lemma truncate_header v t :
  truncate v = Some t →
  isSlice t = true ∧ sliceLen t = 0
  ∧ sliceArr t = sliceArr v ∧ sliceCap t = sliceCap v.
Proof. destruct v; simpl; intros [= <-]; done. Qed.

Lemma rangeReset_length prog rec pooled elems P elems' P' :
  rangeReset prog rec pooled elems P = Done (elems', P') →
  length elems' = length elems.
Proof.
  revert P elems' P'. induction elems as [|mm elems IH]; intros P elems' P' H; simpl in H.
  - by done_inv H.
  - apply bind_Done in H as ([mm' P1] & _ & H).
    apply bind_Done in H as ([es P2] & Hes & H).
    done_inv H. simpl. f_equal. by eapply IH.
Qed.

(** Element [i] of the loop's result is what the reset of element [i]
    returns: [ResetVT] for a pooled element type, [Reset] otherwise. *)
Lemma rangeReset_lookup prog rec pooled elems P elems' P' i mm :
  rangeReset prog rec pooled elems P = Done (elems', P') →
  elems !! i = Some mm →
  ∃ mm', elems' !! i = Some mm'
         ∧ if pooled then ∃ Pa Pb, rec mm Pa = Done (mm', Pb)
           else plainReset prog mm = Done mm'.
Proof.
  revert P elems' P' i.
  induction elems as [|e elems IH]; intros P elems' P' i H Hi; simpl in H; [done|].
  apply bind_Done in H as ([e' P1] & He & H).
  apply bind_Done in H as ([es P2] & Hes & H). done_inv H.
  destruct i as [|i]; simpl in Hi.
  - injection Hi as ->. exists e'. split; [done|].
    destruct pooled.
    + exists P, P1. by destruct mm.
    + by done_inv He.
  - simpl. eapply IH; eassumption.
Qed.

Lemma ownPrefix_header prog rec ty cfg f fr1 fr2 v :
  exec_body prog rec ty (ownPrefix cfg f) fr1 = Done fr2 →
  getField (fGoName f) (self fr2) = Some v →
  ∃ v0, getField (fGoName f) (self fr1) = Some v0
        ∧ sliceArr v = sliceArr v0 ∧ sliceCap v = sliceCap v0.
Proof.
  intros H Hv.
  assert (ownPrefix cfg f = []
          ∨ ownPrefix cfg f = [SClear (fGoName f)]
          ∨ ∃ b, ownPrefix cfg f = [SRangeReset (fGoName f) b]) as Hown.
  { unfold ownPrefix. destruct (fIsList f); [|by left].
    destruct (fKind f); eauto. }
  destruct Hown as [E|[E|[b E]]]; rewrite E in H; simpl in H; done_inv H.
  - eauto.
  - apply exec_SClear in Ha as (v0 & v' & Hv0 & Hc & Hv' & _).
    rewrite Hv in Hv'. injection Hv' as <-. exists v0. split; [done|].
    destruct v0; simpl in Hc; simplify_eq; simpl; [done|].
    split; [done|]. rewrite length_app, length_map, <- length_app.
    by rewrite take_drop.
  - apply exec_SRangeReset in Ha as [[Hv0 ->]|(arr & len & store & elems & Hv0 & Hr & Hv')].
    + eauto.
    + rewrite Hv in Hv'. injection Hv' as ->. eexists. split; [done|]. simpl.
      split; [done|]. apply rangeReset_length in Hr.
      rewrite length_app, Hr, <- length_app. by rewrite take_drop.
Qed.

(** ** Runs that return *)

Lemma getField_setField_is_Some n k v fs fs' :
  setField n v fs = Some fs' →
  is_Some (getField k fs) → is_Some (getField k fs').
Proof.
  intros H Hk. destruct (decide (n = k)) as [->|Hne].
  - rewrite (getField_setField_eq _ _ _ _ H). by eexists.
  - by rewrite (getField_setField_ne _ _ _ _ _ Hne H).
Qed.

Lemma zeroStruct_field fs seen f :
  f ∈ fs → inRealOneof f = false →
  is_Some (getField (fGoName f) (zeroStruct fs seen)).
Proof.
  revert seen. induction fs as [|h fs IH]; intros seen Hf Hn.
  { by apply not_elem_of_nil in Hf. }
  apply elem_of_cons in Hf as [<-|Hf]; simpl.
  - rewrite Hn. simpl. rewrite String.eqb_refl. by eexists.
  - destruct (inRealOneof h).
    + case_bool_decide; [by apply IH|]. simpl.
      destruct (String.eqb _ _); [by eexists|by apply IH].
    + simpl. destruct (String.eqb _ _); [by eexists|by apply IH].
Qed.

Lemma zeroStruct_oneof fs seen f :
  f ∈ fs → inRealOneof f = true → OneofGoName f ∉ seen →
  is_Some (getField (OneofGoName f) (zeroStruct fs seen)).
Proof.
  revert seen. induction fs as [|h fs IH]; intros seen Hf Hn Hs.
  { by apply not_elem_of_nil in Hf. }
  apply elem_of_cons in Hf as [<-|Hf]; simpl.
  - rewrite Hn. rewrite bool_decide_eq_false_2 by done.
    simpl. rewrite String.eqb_refl. by eexists.
  - destruct (inRealOneof h).
    + case_bool_decide; [by apply IH|]. simpl.
      destruct (String.eqb _ _) eqn:E; [by eexists|]. apply IH; try done.
      apply not_elem_of_cons. split; [|done].
      intros E'. by rewrite E', String.eqb_refl in E.
    + simpl. destruct (String.eqb _ _); [by eexists|by apply IH].
Qed.

Lemma compatible_sym f g : compatible f g = compatible g f.
Proof.
  unfold compatible. rewrite (String.eqb_sym (structName g)).
  destruct (String.eqb _ _); [|done].
  rewrite (String.eqb_sym (fGoIdent g)).
  destruct (inRealOneof f), (inRealOneof g), (fIsList f), (fIsList g); done.
Qed.

Lemma distinctSlots_elem fs f g :
  distinctSlots fs = true → f ∈ fs → g ∈ fs → f ≠ g → compatible f g = true.
Proof.
  induction fs as [|h fs IH]; intros H Hf Hg Hne.
  { by apply not_elem_of_nil in Hf. }
  simpl in H. apply andb_prop in H as [Hh H].
  rewrite forallb_forall in Hh.
  apply elem_of_cons in Hf as [->|Hf]; apply elem_of_cons in Hg as [->|Hg].
  - done.
  - apply Hh. by apply list_elem_of_In.
  - rewrite compatible_sym. apply Hh. by apply list_elem_of_In.
  - by apply IH.
Qed.

Lemma savedField_outside f :
  (fIsList f = true → inRealOneof f = false) →
  savedField f = true → inRealOneof f = false.
Proof.
  unfold savedField. intros Hl H. destruct (fIsList f); [by apply Hl|].
  simpl in H. by destruct (inRealOneof f).
Qed.

Section Returns.
Variable cfg : Config.
Variable U : list Message.
Variable prog : program.
Variable rec : value → pools → outcome (value * pools).
Variable R : value → bool.
Variable ty : GoIdent.

Hypothesis Hrec : ∀ v P, pooledRef R v = true → ∃ r, rec v P = Done r.
Hypothesis Hplain : ∀ v, plainRef U v = true → ∃ v', plainReset prog v = Done v'.

Lemma exec_stmt_locals_mono s i fr fr' :
  exec_stmt prog rec ty s fr = Done fr' →
  is_Some (locals fr !! i) → is_Some (locals fr' !! i).
Proof.
  intros H Hi. destruct (decide (writesLocal s = Some i)) as [Hw|Hw].
  - destruct s; simpl in Hw; try done. simplify_eq.
    apply exec_SSave in H as (v & t & _ & _ & ->). simpl.
    rewrite lookup_insert_eq. by eexists.
  - by rewrite (exec_stmt_locals_other prog rec ty s i fr fr' Hw H).
Qed.

Lemma exec_body_locals_mono body i fr fr' :
  exec_body prog rec ty body fr = Done fr' →
  is_Some (locals fr !! i) → is_Some (locals fr' !! i).
Proof.
  revert fr. induction body as [|s body IH]; intros fr H Hi; simpl in H.
  - by done_inv H.
  - done_inv H. eapply IH; [exact H|]. by eapply exec_stmt_locals_mono.
Qed.

Lemma exec_stmt_names s F fr fr' :
  s ≠ SReset →
  exec_stmt prog rec ty s fr = Done fr' →
  is_Some (getField F (self fr)) → is_Some (getField F (self fr')).
Proof.
  intros Hr H HF. destruct s; try done; exec_inv H; simpl; try done;
    eapply getField_setField_is_Some; eassumption.
Qed.

Lemma exec_body_names body F fr fr' :
  Forall (fun s => s ≠ SReset) body →
  exec_body prog rec ty body fr = Done fr' →
  is_Some (getField F (self fr)) → is_Some (getField F (self fr')).
Proof.
  intros Hall. revert fr.
  induction Hall as [|s body Hs _ IH]; intros fr H HF; simpl in H.
  - by done_inv H.
  - done_inv H. eapply IH; [exact H|]. by eapply exec_stmt_names.
Qed.

Lemma rangeReset_returns (pooled : bool) elems P :
  forallb (if pooled then pooledRef R else plainRef U) elems = true →
  ∃ r, rangeReset prog rec pooled elems P = Done r.
Proof.
  revert P. induction elems as [|mm elems IH]; intros P H; simpl in *.
  { by eexists. }
  apply andb_prop in H as [Hmm H].
  destruct pooled.
  - destruct (Hrec mm P Hmm) as [[mm' P1] Hr].
    destruct (IH P1 H) as [[es P2] Hes].
    destruct mm; simpl in Hmm; try done; rewrite Hr; simpl; rewrite Hes; by eexists.
  - destruct (Hplain mm Hmm) as [mm' Hr]. rewrite Hr. simpl.
    destruct (IH P H) as [[es P2] Hes]. rewrite Hes. by eexists.
Qed.

Lemma returnToPool_returns v P :
  pooledRef R v = true → ∃ r, returnToPool rec v P = Done r.
Proof.
  intros Hv. destruct (Hrec v P Hv) as [[v' P'] Hr].
  destruct v; simpl in *; try done; [by eexists|].
  rewrite Hr. by eexists.
Qed.

Lemma SSave_returns n F v fr :
  getField F (self fr) = Some v → isSlice v = true →
  ∃ t, truncate v = Some t
       ∧ exec_stmt prog rec ty (SSave n F) fr
         = Done (mkFrame (self fr) (<[ n := t ]> (locals fr))
                   (savedOneof fr) (pool_state fr)).
Proof.
  intros Hv Hs. unfold exec_stmt. rewrite Hv. simpl.
  destruct v; try done; simpl; eauto.
Qed.

Lemma SClear_returns F v fr :
  getField F (self fr) = Some v → isSlice v = true →
  ∃ fr' v', exec_stmt prog rec ty (SClear F) fr = Done fr'
            ∧ getField F (self fr') = Some v' ∧ isSlice v' = true.
Proof.
  intros Hv Hs. unfold exec_stmt. rewrite Hv. simpl.
  destruct v; try done; simpl.
  - destruct (setField_is_Some F VNil (self fr)) as [fs' Hfs]; [by eexists|].
    rewrite Hfs. simpl. do 2 eexists. split; [done|]. simpl.
    split; [by eapply getField_setField_eq|done].
  - match goal with |- context [setField F ?w _] =>
      destruct (setField_is_Some F w (self fr)) as [fs' Hfs]; [by eexists|] end.
    rewrite Hfs. simpl. do 2 eexists. split; [done|]. simpl.
    split; [by eapply getField_setField_eq|done].
Qed.

Lemma SRangeReset_returns F (pooled : bool) v fr :
  getField F (self fr) = Some v →
  match v with
  | VNil => True
  | VSlice _ len store =>
      forallb (if pooled then pooledRef R else plainRef U) (take len store) = true
  | _ => False
  end →
  ∃ fr' v', exec_stmt prog rec ty (SRangeReset F pooled) fr = Done fr'
            ∧ getField F (self fr') = Some v' ∧ isSlice v' = true.
Proof.
  intros Hv Hs. unfold exec_stmt. rewrite Hv. simpl.
  destruct v; try done.
  - exists fr, VNil. by rewrite Hv.
  - destruct (rangeReset_returns pooled (take len store) (pool_state fr) Hs)
      as [[es P'] Hr].
    rewrite Hr. simpl.
    match goal with |- context [setField F ?w _] =>
      destruct (setField_is_Some F w (self fr)) as [fs' Hfs]; [by eexists|] end.
    rewrite Hfs. simpl. do 2 eexists. split; [done|]. simpl.
    split; [by eapply getField_setField_eq|done].
Qed.

Lemma SFieldReturn_returns F v fr :
  getField F (self fr) = Some v → pooledRef R v = true →
  ∃ fr', exec_stmt prog rec ty (SFieldReturn F) fr = Done fr'.
Proof.
  intros Hv Hs. unfold exec_stmt. rewrite Hv. simpl.
  destruct (returnToPool_returns v (pool_state fr) Hs) as [[v' P'] ->]. simpl.
  destruct (setField_is_Some F v' (self fr)) as [fs' Hfs]; [by eexists|].
  rewrite Hfs. by eexists.
Qed.

Lemma SOneofReturn_returns O W name v fr :
  getField O (self fr) = Some v →
  match v with
  | VNil => True
  | VWrap _ ty' p => if String.eqb ty' W then pooledRef R p = true else True
  | _ => False
  end →
  ∃ fr', exec_stmt prog rec ty (SOneofReturn O W name) fr = Done fr'
         ∧ (fr' = fr
            ∨ ∃ a p p', v = VWrap a W p
                        ∧ getField O (self fr') = Some (VWrap a W p')).
Proof.
  intros Hv Hs. unfold exec_stmt. rewrite Hv. simpl.
  destruct v as [| | | | |a W' p|]; try done; [by eauto|].
  destruct (String.eqb W' W) eqn:E; [|by eauto].
  apply String.eqb_eq in E. subst W'.
  destruct (returnToPool_returns p (pool_state fr) Hs) as [[p' P'] ->]. simpl.
  match goal with |- context [setField O ?w _] =>
    destruct (setField_is_Some O w (self fr)) as [fs' Hfs]; [by eexists|] end.
  rewrite Hfs. simpl. eexists. split; [done|]. right. simpl.
  do 3 eexists. split; [done|]. by eapply getField_setField_eq.
Qed.

Lemma fieldStmts_keeps k f g fr fr' :
  structName g ≠ structName f →
  exec_body prog rec ty (fieldStmts cfg k f) fr = Done fr' →
  fieldFits cfg U R (self fr') g = fieldFits cfg U R (self fr) g.
Proof.
  intros Hne H. unfold fieldFits.
  rewrite (exec_body_field_other prog rec ty (fieldStmts cfg k f) (structName g) fr fr');
    [done| |exact H].
  apply List.Forall_forall. intros s Hs.
  apply fieldStmts_writes in Hs as (Hr & [Hw|Hw] & _); split; auto; rewrite Hw;
    congruence.
Qed.

Lemma compatible_names f g :
  compatible f g = true →
  inRealOneof f = false ∨ fIsList f = true →
  structName g ≠ structName f.
Proof.
  unfold compatible. intros H Hf E. rewrite E, String.eqb_refl in H.
  destruct Hf as [Hf|Hf]; rewrite Hf in H; simpl in H;
    [done|by rewrite andb_false_r in H].
Qed.

Lemma fieldStmts_returns k f fr :
  (fIsList f = true → inRealOneof f = false) →
  fieldFits cfg U R (self fr) f = true →
  ∃ fr', exec_body prog rec ty (fieldStmts cfg k f) fr = Done fr'
    ∧ (∀ g, compatible f g = true ∨ oneofBytesField f = true →
            fieldFits cfg U R (self fr) g = true →
            fieldFits cfg U R (self fr') g = true)
    ∧ (savedField f = true → is_Some (locals fr' !! k)).
Proof.
  intros Hlist Hfit.
  unfold fieldFits in Hfit.
  destruct (getField (structName f) (self fr)) as [v|] eqn:Hv; [|done].
  destruct (fIsList f) eqn:El.
  - (* a repeated field *)
    specialize (Hlist eq_refl).
    assert (structName f = fGoName f) as En by (unfold structName; by rewrite El).
    rewrite En in Hv.
    assert (∃ fr1 v1, exec_body prog rec ty (ownPrefix cfg f) fr = Done fr1
                      ∧ getField (fGoName f) (self fr1) = Some v1
                      ∧ isSlice v1 = true) as (fr1 & v1 & H1 & Hv1 & Hs1).
    { unfold slotFits in Hfit. rewrite El in Hfit.
      unfold ownPrefix. rewrite El.
      destruct (fKind f) eqn:Ek; simpl in Hfit |- *;
        try (exists fr, v; split; [done|]; split; [done|]; by destruct v).
      - destruct (SClear_returns (fGoName f) v fr Hv) as (fr1 & v1 & -> & ? & ?);
          [by destruct v|]. simpl. eauto.
      - destruct (SClear_returns (fGoName f) v fr Hv) as (fr1 & v1 & -> & ? & ?);
          [by destruct v|]. simpl. eauto.
      - destruct (SRangeReset_returns (fGoName f) (ShouldPool cfg (fMessage f)) v fr Hv)
          as (fr1 & v1 & -> & ? & ?); [by destruct v|]. simpl. eauto.
      - destruct (SRangeReset_returns (fGoName f) (ShouldPool cfg (fMessage f)) v fr Hv)
          as (fr1 & v1 & -> & ? & ?); [by destruct v|]. simpl. eauto. }
    destruct (SSave_returns k (fGoName f) v1 fr1 Hv1 Hs1) as (t & Ht & H2).
    assert (savedField f = true) as Hsv by (unfold savedField; by rewrite El).
    assert (exec_body prog rec ty (fieldStmts cfg k f) fr
            = Done (mkFrame (self fr1) (<[ k := t ]> (locals fr1))
                      (savedOneof fr1) (pool_state fr1))) as Hrun.
    { rewrite (fieldStmts_saved _ _ _ Hsv), exec_body_app, H1. simpl. by rewrite H2. }
    eexists. split; [exact Hrun|]. split.
    + intros g [Hc|Hob] Hg.
      * rewrite (fieldStmts_keeps k f g fr _); [done| |exact Hrun].
        apply compatible_names; auto.
      * unfold oneofBytesField in Hob. by rewrite El in Hob.
    + intros _. simpl. rewrite lookup_insert_eq. by eexists.
  - destruct (inRealOneof f) eqn:Eo.
    + (* a member of a oneof *)
      assert (structName f = OneofGoName f) as En
        by (unfold structName; by rewrite El, Eo).
      rewrite En in Hv.
      assert (savedField f = false) as Hsv by (unfold savedField; by rewrite El, Eo).
      unfold slotFits in Hfit. rewrite El, Eo in Hfit.
      assert (fieldStmts cfg k f = []
              ∨ (fieldStmts cfg k f
                 = [SOneofReturn (OneofGoName f) (fGoIdent f) (fGoName f)]
                 ∧ isMessageKind (fKind f) = true
                 ∧ ShouldPool cfg (fMessage f) = true)) as [E|(E & Ek & Ep)].
      { unfold fieldStmts. rewrite El, Eo.
        destruct (fKind f); auto; destruct (ShouldPool cfg (fMessage f)); auto. }
      { rewrite E. exists fr. split; [done|]. split; [done|]. by rewrite Hsv. }
      rewrite E.
      destruct (SOneofReturn_returns (OneofGoName f) (fGoIdent f) (fGoName f) v fr Hv)
        as (fr' & Hrun & Hfr').
      { destruct v; try done. destruct (String.eqb ty0 (fGoIdent f)); [|done].
        rewrite Ep in Hfit. by destruct (fKind f). }
      exists fr'. simpl. rewrite Hrun. split; [done|]. split; [|by rewrite Hsv].
      intros g [Hc|Hob] Hg.
      2:{ unfold oneofBytesField in Hob. rewrite El, Eo in Hob. simpl in Hob.
          apply bool_decide_eq_true in Hob. rewrite Hob in Ek. done. }
      destruct Hfr' as [->|(a & p & p' & -> & Hnew)]; [done|].
      destruct (decide (structName g = structName f)) as [Eg|Eg].
      * unfold compatible in Hc. rewrite <- Eg, String.eqb_refl in Hc.
        apply andb_prop in Hc as [Hc Hid]. apply andb_prop in Hc as [Hc Hlg].
        apply andb_prop in Hc as [Hc _]. apply andb_prop in Hc as [_ Hog].
        unfold fieldFits. rewrite Eg, En, Hnew.
        unfold slotFits. apply negb_true_iff in Hlg. rewrite Hlg, Hog.
        apply negb_true_iff in Hid. by rewrite Hid.
      * erewrite (fieldStmts_keeps k f g fr fr'); [done|done|].
        rewrite E. simpl. by rewrite Hrun.
    + (* a field of its own *)
      assert (structName f = fGoName f) as En
        by (unfold structName; by rewrite El, Eo).
      rewrite En in Hv.
      unfold slotFits in Hfit. rewrite El, Eo in Hfit.
      assert (∃ fr', exec_body prog rec ty (fieldStmts cfg k f) fr = Done fr'
                     ∧ (savedField f = true → is_Some (locals fr' !! k)))
        as (fr' & Hrun & Hloc).
      { unfold fieldStmts, savedField. rewrite El, Eo. simpl.
        destruct (fKind f) eqn:Ek; simpl;
          try (exists fr; split; done).
        - destruct (SSave_returns k (fGoName f) v fr Hv Hfit) as (t & Ht & ->).
          eexists. split; [done|]. intros _. simpl.
          rewrite lookup_insert_eq. by eexists.
        - destruct (negb (fIsMap f) && ShouldPool cfg (fMessage f)); simpl.
          + destruct (SFieldReturn_returns (fGoName f) v fr Hv Hfit) as (fr' & ->).
            exists fr'. split; done.
          + exists fr. split; done.
        - destruct (negb (fIsMap f) && ShouldPool cfg (fMessage f)); simpl.
          + destruct (SFieldReturn_returns (fGoName f) v fr Hv Hfit) as (fr' & ->).
            exists fr'. split; done.
          + exists fr. split; done. }
      exists fr'. split; [done|]. split; [|done].
      intros g [Hc|Hob] Hg.
      * rewrite (fieldStmts_keeps k f g fr fr'); [done| |exact Hrun].
        apply compatible_names; auto.
      * unfold oneofBytesField in Hob. by rewrite El, Eo in Hob.
Qed.

(** The field loop returns on an instance whose fields fit; the
    fields [rest] that come later or that the loop leaves alone still
    fit afterwards, and the handles of the saved fields are in the
    locals. *)
Lemma fieldsStmts_returns fs : ∀ k fr rest,
  Forall (fun f => fIsList f = true → inRealOneof f = false) fs →
  distinctSlots fs = true →
  Forall (fun f => Forall (fun g => compatible f g = true ∨ oneofBytesField f = true)
                     rest) fs →
  Forall (fun g => fieldFits cfg U R (self fr) g = true) (fs ++ rest) →
  ∃ fr', exec_body prog rec ty (fieldsStmts cfg k fs) fr = Done fr'
    ∧ Forall (fun g => fieldFits cfg U R (self fr') g = true) rest
    ∧ (∀ i, (k ≤ i < k + length (filter (fun f => savedField f = true) fs))%nat →
            is_Some (locals fr' !! i)).
Proof.
  induction fs as [|f fs IH]; intros k fr rest H1 H2 H3 H4; simpl.
  { exists fr. split; [done|]. split; [done|]. intros i Hi. simpl in Hi. lia. }
  apply Forall_cons in H1 as [H1 H1'].
  simpl in H2. apply andb_prop in H2 as [H2 H2'].
  apply Forall_cons in H3 as [H3 H3'].
  simpl in H4. apply Forall_cons in H4 as [H4 H4'].
  destruct (fieldStmts_returns k f fr H1 H4) as (fr1 & Hrun1 & Hkeep & Hloc).
  destruct (IH (if savedField f then S k else k) fr1 rest H1' H2' H3')
    as (fr2 & Hrun2 & Hrest & Hlocs).
  { apply Forall_app in H4' as [Hfs Hrest]. apply Forall_app. split.
    - rewrite Forall_forall in Hfs |- *. intros g Hg.
      apply Hkeep; [left|by apply Hfs].
      rewrite forallb_forall in H2. apply H2. by apply list_elem_of_In.
    - rewrite Forall_forall in Hrest, H3 |- *. intros g Hg.
      apply Hkeep; [by apply H3|by apply Hrest]. }
  exists fr2. split; [by rewrite exec_body_app, Hrun1|]. split; [done|].
  intros i Hi. rewrite filter_cons in Hi.
  destruct (savedField f) eqn:Es.
  - rewrite decide_True in Hi by done. simpl in Hi.
    destruct (decide (i = k)) as [->|Hne].
    + eapply exec_body_locals_mono; [exact Hrun2|]. by apply Hloc.
    + apply Hlocs. lia.
  - rewrite decide_False in Hi by done. by apply Hlocs.
Qed.

(** The saves of the oneof groups return when the members of every
    group fit. *)
Lemma saves_return T gs : ∀ fr,
  NoDup gs.*1 →
  Forall (fun g : string * list Field =>
            g.2 ≠ []
            ∧ Forall (fun h => oneofBytesField h = true ∧ OneofGoName h = g.1
                               ∧ fieldFits cfg U R (self fr) h = true) g.2) gs →
  ∃ fr', exec_body prog rec ty (map (saveGroup T) gs) fr = Done fr'
     ∧ (∀ i, locals fr' !! i = locals fr !! i)
     ∧ Forall (fun g => is_Some (savedOneof fr' !! g.1)) gs.
Proof.
  induction gs as [|[O grp] gs IH]; intros fr Hnd Hall; simpl.
  { by exists fr. }
  simpl in Hnd. apply NoDup_cons in Hnd as [Hnotin Hnd].
  apply Forall_cons in Hall as [[Hne Hgrp] Hall]. simpl in Hne, Hgrp.
  assert (∃ fr1, exec_stmt prog rec ty (saveGroup T (O, grp)) fr = Done fr1
                 ∧ is_Some (savedOneof fr1 !! O)) as (fr1 & Hrun1 & Hsv).
  { assert (∃ v, getField O (self fr) = Some v
                 ∧ match v with VNil | VWrap _ _ _ => True | _ => False end)
      as (v & Hv & Hshape).
    { destruct grp as [|h grp']; [done|].
      apply Forall_cons in Hgrp as [(Hob & HO & Hfit) _].
      unfold fieldFits in Hfit.
      rewrite (oneofBytesField_structName _ Hob), HO in Hfit.
      destruct (getField O (self fr)) as [v|] eqn:Hv; [|done].
      exists v. split; [done|].
      unfold slotFits in Hfit. unfold oneofBytesField in Hob.
      destruct (fIsList h); [done|]. destruct (inRealOneof h); [|done].
      by destruct v. }
    unfold saveGroup, exec_stmt. cbn [fst snd]. rewrite Hv. cbn [mbind outcome_bind ofOption].
    destruct v as [| | | | |a W p|]; try done.
    { eexists. split; [done|]. simpl. rewrite lookup_insert_eq. by eexists. }
    destruct (matchCase _ W) as [c|] eqn:Hc.
    2:{ eexists. split; [done|]. simpl. rewrite lookup_insert_eq. by eexists. }
    assert (isSlice p = true) as Hp.
    { unfold matchCase in Hc. apply List.find_some in Hc as [Hin Heq].
      apply in_map_iff in Hin as (h' & <- & Hin). simpl in Heq.
      apply list_elem_of_In in Hin.
      rewrite Forall_forall in Hgrp. destruct (Hgrp h' Hin) as (Hob' & HO' & Hfit').
      unfold fieldFits in Hfit'.
      rewrite (oneofBytesField_structName _ Hob'), HO', Hv in Hfit'.
      unfold slotFits in Hfit'. unfold oneofBytesField in Hob'.
      destruct (fIsList h'); [done|]. destruct (inRealOneof h'); [|done].
      simpl in Hob'. apply bool_decide_eq_true in Hob'.
      rewrite String.eqb_sym, Heq, Hob' in Hfit'. done. }
    destruct p; try done; simpl.
    - match goal with |- context [setField O ?w _] =>
        destruct (setField_is_Some O w (self fr)) as [fs' Hfs]; [by eexists|] end.
      rewrite Hfs. simpl. eexists. split; [done|]. simpl.
      rewrite lookup_insert_eq. by eexists.
    - match goal with |- context [setField O ?w _] =>
        destruct (setField_is_Some O w (self fr)) as [fs' Hfs]; [by eexists|] end.
      rewrite Hfs. simpl. eexists. split; [done|]. simpl.
      rewrite lookup_insert_eq. by eexists. }
  destruct (IH fr1 Hnd) as (fr2 & Hrun2 & Hloc & Hsaved).
  { rewrite Forall_forall in Hall |- *. intros [O' grp'] Hin.
    destruct (Hall _ Hin) as [Hne' Hgrp']. split; [done|]. simpl in *.
    rewrite Forall_forall in Hgrp' |- *. intros h Hh.
    destruct (Hgrp' h Hh) as (Hob & HO & Hfit). split; [done|]. split; [done|].
    rewrite <- Hfit. unfold fieldFits.
    rewrite (exec_stmt_field_other prog rec ty (saveGroup T (O, grp))
               (structName h) fr fr1); [done|done| |exact Hrun1].
    unfold saveGroup. simpl. rewrite (oneofBytesField_structName _ Hob), HO.
    intros [= ->]. apply Hnotin. apply list_elem_of_fmap. by exists (O', grp'). }
  exists fr2. rewrite Hrun1. simpl. split; [done|]. split.
  - intros i. rewrite Hloc.
    apply (exec_stmt_locals_other prog rec ty (saveGroup T (O, grp)) i fr fr1);
      [done|exact Hrun1].
  - apply Forall_cons. split; [|done]. simpl.
    destruct (save_groups_other prog rec ty T gs O fr1 fr2 Hnotin Hrun2) as [_ ->].
    done.
Qed.

Lemma restoreSaved_returns saved : ∀ i fr,
  (∀ j, (j < length saved)%nat → is_Some (locals fr !! (i + j))) →
  Forall (fun f => is_Some (getField (fGoName f) (self fr))) saved →
  ∃ fr', exec_body prog rec ty
           (imap (fun j g => SRestore (fGoName g) (i + j)) saved) fr = Done fr'.
Proof.
  induction saved as [|g saved IH]; intros i fr Hloc Hnames; simpl.
  { by eexists. }
  apply Forall_cons in Hnames as [Hg Hnames].
  destruct (Hloc 0) as [v Hv]; [simpl; lia|].
  destruct (setField_is_Some (fGoName g) v (self fr) Hg) as [fs' Hfs].
  unfold exec_stmt at 1. rewrite Hv. simpl. rewrite Hfs. simpl.
  erewrite imap_ext; [apply (IH (S i))|].
  - intros j Hj. simpl. replace (S (i + j)) with (i + S j) by lia.
    apply Hloc. simpl. lia.
  - simpl. rewrite Forall_forall in Hnames |- *. intros f Hf.
    eapply getField_setField_is_Some; [exact Hfs|]. by apply Hnames.
  - intros j x _. simpl. f_equal. lia.
Qed.

Lemma restoreOneofs_returns names : ∀ fr,
  Forall (fun O => is_Some (savedOneof fr !! O) ∧ is_Some (getField O (self fr)))
         names →
  ∃ fr', exec_body prog rec ty (map SOneofRestore names) fr = Done fr'.
Proof.
  induction names as [|O names IH]; intros fr Hall; simpl.
  { by eexists. }
  apply Forall_cons in Hall as [[[v Hv] HO] Hall].
  destruct (setField_is_Some O v (self fr) HO) as [fs' Hfs].
  unfold exec_stmt at 1. rewrite Hv. simpl. rewrite Hfs. simpl.
  apply IH. simpl. rewrite Forall_forall in Hall |- *. intros O' HO'.
  destruct (Hall O' HO') as [? ?]. split; [done|].
  by eapply getField_setField_is_Some.
Qed.

(** The body printed for a well-formed message returns on every
    instance whose fields fit. *)
Lemma resetBody_returns o msg flds P :
  validOrders o →
  wellFormed msg = true →
  zeroOfType prog ty = Some (zeroStruct (mFields msg) []) →
  forallb (fieldFits cfg U R flds) (mFields msg) = true →
  ∃ fr', exec_body prog rec ty (resetBody cfg o msg) (mkFrame flds ∅ ∅ P) = Done fr'.
Proof.
  intros [Hso Hro] Hwf Hzero Hfit.
  apply andb_prop in Hwf as [Hlists Hslots].
  rewrite forallb_forall in Hlists. rewrite forallb_forall in Hfit.
  assert (∀ f, f ∈ mFields msg → fIsList f = true → inRealOneof f = false) as Hout.
  { intros f Hf Hl. apply list_elem_of_In in Hf. specialize (Hlists f Hf).
    rewrite Hl in Hlists. simpl in Hlists. by apply negb_true_iff. }
  assert (∀ h, h ∈ oneofBytesOf msg → h ∈ mFields msg ∧ oneofBytesField h = true)
    as Hob.
  { intros h Hh. unfold oneofBytesOf in Hh.
    by apply list_elem_of_filter in Hh as [? ?]. }
  (* the field loop *)
  destruct (fieldsStmts_returns (mFields msg) 0 (mkFrame flds ∅ ∅ P) (oneofBytesOf msg))
    as (fr1 & Hrun1 & Hrest & Hlocs).
  { apply Forall_forall. intros f Hf. by apply Hout. }
  { done. }
  { apply Forall_forall. intros f Hf. apply Forall_forall. intros g Hg.
    destruct (Hob g Hg) as [Hg' Hgb].
    destruct (oneofBytesField f) eqn:Ef; [by right|left].
    apply (distinctSlots_elem (mFields msg)); try done. intros ->. congruence. }
  { apply Forall_app. split; apply Forall_forall; intros g Hg; simpl.
    - apply Hfit. by apply list_elem_of_In.
    - apply Hfit. apply list_elem_of_In. by apply Hob. }
  rewrite Forall_forall in Hrest.
  (* the saves of the oneof groups *)
  assert (∃ fr2,
    exec_body prog rec ty
      (if bool_decide (0 < length (oneofBytesOf msg)) then
         map (saveGroup (mGoIdent msg)) (saveOrder o (oneofGroups (oneofBytesOf msg)))
       else []) fr1 = Done fr2
    ∧ (∀ i, locals fr2 !! i = locals fr1 !! i)
    ∧ (∀ O grp, oneofGroups (oneofBytesOf msg) !! O = Some grp →
         0 < length (oneofBytesOf msg) →
         is_Some (savedOneof fr2 !! O))) as (fr2 & Hrun2 & Hloc2 & Hsaved2).
  { case_bool_decide as Hlen.
    2:{ exists fr1. split; [done|]. split; [done|]. intros; lia. }
    destruct (saves_return (mGoIdent msg)
                (saveOrder o (oneofGroups (oneofBytesOf msg))) fr1)
      as (fr2 & Hrun2 & Hloc2 & Hsaved2).
    { by apply range_NoDup. }
    { apply Forall_forall. intros [O grp] Hin. simpl.
      apply (range_elem _ Hso) in Hin.
      rewrite oneofGroups_lookup in Hin.
      destruct (decide _) as [|Hne]; [done|]. injection Hin as <-.
      split; [done|]. apply Forall_forall. intros h Hh.
      apply list_elem_of_filter in Hh as [HO Hh].
      destruct (Hob h Hh) as [? ?]. split_and!; try done. by apply Hrest. }
    exists fr2. split; [done|]. split; [done|].
    intros O grp HO _. rewrite Forall_forall in Hsaved2.
    apply (Hsaved2 (O, grp)). by apply range_elem. }
  (* the generic clear *)
  set (fr3 := mkFrame (zeroStruct (mFields msg) []) (locals fr2) (savedOneof fr2)
                (pool_state fr2)).
  assert (exec_stmt prog rec ty SReset fr2 = Done fr3) as Hrun3.
  { unfold exec_stmt. by rewrite Hzero. }
  (* the handles are put back *)
  destruct (restoreSaved_returns (savedOf msg) 0 fr3) as (fr4 & Hrun4).
  { intros j Hj. simpl. rewrite Hloc2. apply Hlocs. simpl in *.
    unfold savedOf in Hj. lia. }
  { apply Forall_forall. intros f Hf. simpl.
    unfold savedOf in Hf. apply list_elem_of_filter in Hf as [Hs Hf].
    apply zeroStruct_field; [done|]. apply savedField_outside; [|done].
    by apply Hout. }
  change (imap _ (savedOf msg)) with (restoreSaved (savedOf msg)) in Hrun4.
  (* the wrappers are put back *)
  assert (∃ fr5,
    exec_body prog rec ty
      (if bool_decide (0 < length (oneofBytesOf msg)) then
         map (fun g => SOneofRestore g.1)
             (restoreOrder o (oneofGroups (oneofBytesOf msg)))
       else []) fr4 = Done fr5) as (fr5 & Hrun5).
  { case_bool_decide as Hlen; [|by eexists].
    rewrite <- (map_map fst SOneofRestore).
    apply restoreOneofs_returns.
    apply Forall_forall. intros O HO.
    apply list_elem_of_In, in_map_iff in HO as ([O' grp] & <- & Hin). simpl.
    apply list_elem_of_In, (range_elem _ Hro) in Hin.
    destruct (restoreSaved_frame _ _ _ _ _ _ Hrun4) as (_ & -> & _). split.
    - by eapply Hsaved2.
    - eapply exec_body_names; [|exact Hrun4|].
      { unfold restoreSaved. apply Forall_forall. intros s Hs.
        apply elem_of_lookup_imap in Hs as (j & g & -> & _). done. }
      simpl. apply oneofGroups_key in Hin as (h & Hh & <-).
      destruct (Hob h Hh) as [Hh' Hhb].
      apply zeroStruct_oneof; [done| |apply not_elem_of_nil].
      unfold oneofBytesField in Hhb. by destruct (fIsList h), (inRealOneof h). }
  exists fr5. rewrite resetBody_spec.
  rewrite exec_body_app, Hrun1. simpl.
  rewrite exec_body_app, Hrun2. simpl. rewrite Hrun3. simpl.
  by rewrite exec_body_app, Hrun4.
Qed.

End Returns.

Lemma plainReset_returns cfg U prog v :
  generatedFor cfg U prog → plainRef U v = true →
  ∃ v', plainReset prog v = Done v'.
Proof.
  intros Hprog Hv. destruct v; try done. simpl in *.
  destruct (findMessage U ty) as [msg|] eqn:E; [|done].
  destruct (Hprog _ _ E) as [-> _]. by eexists.
Qed.

(** [ResetVT] returns on every instance of a pooled type, given the
    nesting depth of the instance as fuel. *)
Lemma ResetVT_returns cfg U prog :
  generatedFor cfg U prog →
  forallb wellFormed U = true →
  ∀ n m P, pooledRef (instanceFits cfg U n) m = true →
           ∃ r, ResetVT prog n m P = Done r.
Proof.
  intros Hprog HU. rewrite forallb_forall in HU.
  induction n as [|n IH]; intros m P Hm.
  { destruct m; try done. by eexists. }
  destruct m as [| | | |addr ty flds| |]; try done; [by eexists|].
  simpl in Hm. destruct (findMessage U ty) as [msg|] eqn:E; [|done].
  apply andb_prop in Hm as [Hgen Hfit].
  destruct (Hprog _ _ E) as [Hzero Hbody].
  destruct (Hbody Hgen) as (o & Hord & Hmeth).
  assert (wellFormed msg = true) as Hwf.
  { apply HU. unfold findMessage in E. by apply List.find_some in E as [? _]. }
  destruct (resetBody_returns cfg U prog (ResetVT prog n) (instanceFits cfg U n) ty
              IH (fun v => plainReset_returns cfg U prog v Hprog)
              o msg flds P Hord Hwf Hzero Hfit) as (fr' & Hrun).
  simpl. rewrite Hmeth. simpl. rewrite Hrun. by eexists.
Qed.

(** ** The program [pool.GenerateFile] generates *)

Lemma message_eq cfg o msg p :
  message cfg o msg p =
    let p := fold_left (fun p nested => message cfg o nested p) (mMessages msg) p in
    if mIsMapEntry msg || negb (ShouldPool cfg (Some msg)) then p
    else if IsOpaque msg then p
    else {| once := true; output := output p ++ [ codeOf cfg o msg ] |}.
Proof. by destruct msg. Qed.

Lemma allMessages_eq msg :
  allMessages msg = concat (map allMessages (mMessages msg)) ++ [msg].
Proof. by destruct msg. Qed.

Lemma messages_output cfg o (ms : list Message) :
  (∀ m p, In m ms →
     output (message cfg o m p)
     = output p ++ map (codeOf cfg o)
                     (filter (fun m => generates cfg m = true) (allMessages m))) →
  ∀ p, output (fold_left (fun p nested => message cfg o nested p) ms p)
       = output p ++ map (codeOf cfg o)
                       (filter (fun m => generates cfg m = true)
                               (concat (map allMessages ms))).
Proof.
  induction ms as [|m ms IH]; intros Hm p; simpl.
  { by rewrite app_nil_r. }
  rewrite IH by (intros; apply Hm; by right).
  rewrite Hm by (by left).
  by rewrite filter_app, map_app, app_assoc.
Qed.

(** Induction on a message and the messages declared inside it. *)
Lemma Message_nested_ind (P : Message → Prop) :
  (∀ msg, Forall P (mMessages msg) → P msg) → ∀ msg, P msg.
Proof.
  intros H. fix IH 1. intros msg. apply H.
  destruct msg as [id mp me api fs ms]. simpl.
  induction ms as [|m ms IHms]; constructor; [apply IH|exact IHms].
Qed.

Lemma message_output cfg o msg : ∀ p,
  output (message cfg o msg p)
  = output p ++ map (codeOf cfg o)
                  (filter (fun m => generates cfg m = true) (allMessages msg)).
Proof.
  induction msg as [msg Hnested] using Message_nested_ind. intros p.
  rewrite message_eq, allMessages_eq. cbn zeta.
  rewrite Forall_forall in Hnested.
  assert (∀ p, output (fold_left (fun p nested => message cfg o nested p)
                                 (mMessages msg) p)
               = output p ++ map (codeOf cfg o)
                               (filter (fun m => generates cfg m = true)
                                       (concat (map allMessages (mMessages msg)))))
    as Hfold.
  { apply messages_output. intros m p' Hin. apply Hnested. by apply list_elem_of_In. }
  rewrite filter_app, map_app, filter_cons, filter_nil.
  unfold generates.
  destruct (mIsMapEntry msg || negb (ShouldPool cfg (Some msg))); simpl.
  { rewrite Hfold. by rewrite app_nil_r. }
  destruct (IsOpaque msg); simpl.
  { rewrite Hfold. by rewrite app_nil_r. }
  rewrite Hfold. by rewrite <- app_assoc.
Qed.

Lemma GenerateFile_output cfg o messages :
  output (GenerateFile cfg o messages)
  = map (codeOf cfg o)
        (filter (fun m => generates cfg m = true) (universe messages)).
Proof.
  unfold GenerateFile, universe.
  rewrite messages_output; [done|]. intros; apply message_output.
Qed.

Lemma find_map {A B} (p : B → bool) (f : A → B) l :
  List.find p (map f l) = f <$> List.find (fun a => p (f a)) l.
Proof.
  induction l as [|a l IH]; simpl; [done|]. by destruct (p (f a)).
Qed.

Lemma find_filter {A} (p q : A → bool) l x :
  List.find p l = Some x → q x = true →
  List.find p (filter (fun a => q a = true) l) = Some x.
Proof.
  induction l as [|a l IH]; simpl; [done|]. intros H Hq.
  rewrite filter_cons. destruct (p a) eqn:Ep.
  - injection H as ->. rewrite decide_True by done. simpl. by rewrite Ep.
  - case_decide; [|by apply IH]. simpl. rewrite Ep. by apply IH.
Qed.

(** The program of a run of the generator is a generated program, for
    the messages of the files and all messages declared inside them. *)
Lemma programOf_generatedFor cfg o messages :
  validOrders o →
  generatedFor cfg (universe messages) (programOf cfg o messages).
Proof.
  intros Hord ty msg Hfind. unfold findMessage in Hfind. split.
  - simpl. by rewrite Hfind.
  - intros Hgen. exists o. split; [done|]. simpl.
    rewrite GenerateFile_output, find_map. simpl.
    by rewrite (find_filter _ (generates cfg) _ msg Hfind Hgen).
Qed.

(** Where at most one oneof of a message holds bytes, the order of the
    map loops does not show in the printed body. *)
Lemma resetBody_one_group cfg o o' msg :
  validOrders o → validOrders o' →
  (size (oneofGroups (oneofBytesOf msg)) ≤ 1)%nat →
  resetBody cfg o msg = resetBody cfg o' msg.
Proof.
  intros [Hs Hr] [Hs' Hr'] Hsize.
  assert (∀ r r', validRange r → validRange r' →
            r (oneofGroups (oneofBytesOf msg)) = r' (oneofGroups (oneofBytesOf msg)))
    as Heq.
  { intros r r' H H'.
    pose proof (H (oneofGroups (oneofBytesOf msg))) as Hp.
    pose proof (H' (oneofGroups (oneofBytesOf msg))) as Hp'.
    rewrite <- Hp' in Hp.
    pose proof (Permutation_length Hp') as Hlen.
    rewrite length_map_to_list in Hlen.
    destruct (r' (oneofGroups (oneofBytesOf msg))) as [|x [|y l]].
    - by apply Permutation_nil_r in Hp.
    - by apply Permutation_singleton_r in Hp.
    - simpl in Hlen. lia. }
  rewrite !resetBody_spec.
  by rewrite (Heq _ _ Hs Hs'), (Heq _ _ Hr Hr').
Qed.

(** ** Well-formed field names *)

Lemma distinctSlots_app a f b :
  distinctSlots (a ++ f :: b) = true →
  Forall (fun g => compatible f g = true) (a ++ b).
Proof.
  induction a as [|h a IH]; simpl; intros H.
  - apply andb_prop in H as [H _]. rewrite forallb_forall in H.
    apply Forall_forall. intros g Hg. apply H. by apply list_elem_of_In.
  - apply andb_prop in H as [Hh H].
    apply Forall_cons. split; [|by apply IH].
    rewrite forallb_forall in Hh. rewrite compatible_sym. apply Hh.
    apply in_or_app. right. by left.
Qed.

Lemma wellFormed_split msg f :
  wellFormed msg = true → f ∈ mFields msg → savedField f = true →
  ∃ pre post, mFields msg = pre ++ f :: post
              ∧ Forall (fun g => structName g ≠ fGoName f) (pre ++ post).
Proof.
  intros Hwf Hf Hs. apply andb_prop in Hwf as [Hlists Hslots].
  assert (inRealOneof f = false) as Hout.
  { apply savedField_outside; [|done]. intros Hl.
    rewrite forallb_forall in Hlists. apply list_elem_of_In in Hf.
    specialize (Hlists f Hf). rewrite Hl in Hlists. by apply negb_true_iff. }
  apply list_elem_of_split in Hf as (pre & post & E).
  exists pre, post. split; [done|].
  rewrite E in Hslots. apply distinctSlots_app in Hslots.
  eapply Forall_impl; [exact Hslots|]. intros g Hc. simpl in Hc.
  rewrite <- (savedField_structName f Hs). apply compatible_names; auto.
Qed.

(** ** The generated methods *)

Lemma ResetVT_Done prog fuel addr ty flds P m' P' :
  ResetVT prog fuel (VMsg addr ty flds) P = Done (m', P') →
  ∃ fuel' body fr,
    fuel = S fuel'
    ∧ methods prog ty = Some body
    ∧ exec_body prog (ResetVT prog fuel') ty body (mkFrame flds ∅ ∅ P) = Done fr
    ∧ m' = VMsg addr ty (self fr)
    ∧ P' = pool_state fr.
Proof.
  destruct fuel as [|fuel']; simpl; [done|]. intros H. done_inv H.
  by exists fuel', a, a0.
Qed.

Lemma ReturnToVTPool_Done prog fuel addr ty flds P m' P' :
  ReturnToVTPool prog fuel (VMsg addr ty flds) P = Done (m', P') →
  ∃ P1, ResetVT prog fuel (VMsg addr ty flds) P = Done (m', P1)
        ∧ P' = poolPut ty m' P1.
Proof.
  unfold ReturnToVTPool, returnToPool. intros H.
  apply bind_Done in H as ([v P1] & Hr & H). done_inv H. eauto.
Qed.

Lemma FromVTPool_after_put prog ty m P fresh :
  FromVTPool prog ty (Some 0) fresh (poolPut ty m P)
  = Done (m, <[ ty := default [] (P !! ty) ]> P).
Proof.
  unfold FromVTPool, poolPut. rewrite lookup_insert_eq. simpl.
  by rewrite insert_insert_eq.
Qed.

(** What an instance of a generated type gives the body to work on. *)
Lemma instanceFits_inv cfg U prog fuel addr msg flds :
  generatedFor cfg U prog →
  forallb wellFormed U = true →
  findMessage U (mGoIdent msg) = Some msg →
  instanceFits cfg U fuel (VMsg addr (mGoIdent msg) flds) = true →
  ∃ n o,
    fuel = S n
    ∧ wellFormed msg = true
    ∧ validOrders o
    ∧ methods prog (mGoIdent msg) = Some (resetBody cfg o msg)
    ∧ (∀ f, f ∈ mFields msg → fieldFits cfg U (instanceFits cfg U n) flds f = true).
Proof.
  intros Hprog HU Hfind Hfit.
  destruct fuel as [|n]; [done|]. simpl in Hfit. rewrite Hfind in Hfit.
  apply andb_prop in Hfit as [Hgen Hfit].
  destruct (Hprog _ _ Hfind) as [_ Hbody].
  destruct (Hbody Hgen) as (o & Hord & Hmeth).
  exists n, o. split_and!; try done.
  - rewrite forallb_forall in HU. apply HU.
    unfold findMessage in Hfind. by apply List.find_some in Hfind as [? _].
  - intros f Hf. rewrite forallb_forall in Hfit. apply Hfit.
    by apply list_elem_of_In.
Qed.

(** C9.  [ResetVT] and [ReturnToVTPool] are printed with the guard
    [if m != nil {] around all they do: on a nil receiver both return at
    once, no field is written, nothing is reset, and the pools are as
    they were (nothing is put). *)
Theorem nil_receiver_is_noop :
  (∀ prog fuel P,
      ResetVT prog fuel VNil P = Done (VNil, P)
      ∧ ReturnToVTPool prog fuel VNil P = Done (VNil, P))
  ∧ (∀ c,
      take 2 (drop 5 (render_message c))
        = [ "func (m *" ++ pcType c ++ ") ResetVT() {"; "if m != nil {" ]%string
      ∧ take 2 (drop (9 + length (concat (map render_stmt (pcBody c))))
                  (render_message c))
        = [ "func (m *" ++ pcType c ++ ") ReturnToVTPool() {"; "if m != nil {" ]%string).
Proof.
  split.
  - intros prog fuel P. by destruct fuel.
  - intros c. split; [done|].
    unfold render_message.
    change (?a :: ?b :: ?c :: ?d :: ?e :: ?f :: [?g] ++ ?l)
      with ([a; b; c; d; e; f; g] ++ l).
    rewrite drop_app_ge by (simpl; lia).
    simpl length. rewrite drop_app_ge by lia.
    replace (9 + _ - 7 - _) with 2 by lia. done.
Qed.

(** ** Capacity is kept across the pool *)

(** Whenever [ResetVT] returns on an instance of [msg], every saved
    field and every bytes slice held by a oneof wrapper is cut to length
    zero over the backing array it had. *)
Lemma reset_keeps_capacity cfg o prog msg fuel addr flds P m' P' :
  validOrders o →
  methods prog (mGoIdent msg) = Some (resetBody cfg o msg) →
  wellFormed msg = true →
  ResetVT prog fuel (VMsg addr (mGoIdent msg) flds) P = Done (m', P') →
  ∃ flds',
    m' = VMsg addr (mGoIdent msg) flds'
    ∧ (∀ f, f ∈ mFields msg → savedField f = true →
         ∃ v v',
           getField (fGoName f) flds = Some v
           ∧ getField (fGoName f) flds' = Some v'
           ∧ isSlice v' = true ∧ sliceLen v' = 0
           ∧ sliceArr v' = sliceArr v ∧ sliceCap v' = sliceCap v)
    ∧ (∀ f a p, f ∈ mFields msg → oneofBytesField f = true →
         isSlice p = true →
         getField (OneofGoName f) flds = Some (VWrap a (fGoIdent f) p) →
         ∃ p',
           getField (OneofGoName f) flds' = Some (VWrap a (fGoIdent f) p')
           ∧ isSlice p' = true ∧ sliceLen p' = 0
           ∧ sliceArr p' = sliceArr p ∧ sliceCap p' = sliceCap p).
Proof.
  intros Hord Hm Hu H.
  apply ResetVT_Done in H as (fuel' & body & fr & -> & Hb & Hex & -> & ->).
  rewrite Hm in Hb. injection Hb as <-.
  exists (self fr). split; [done|]. split.
  - intros f Hf Hs.
    destruct (wellFormed_split msg f Hu Hf Hs) as (pre & post & E & Hn).
    destruct (saved_field_run cfg o prog _ msg pre post f Hord E Hs Hn _ _ _ Hex)
      as (fr1 & fr2 & v & t & _ & Hsame & HB & Hv & Ht & Hfinal).
    destruct (ownPrefix_header _ _ _ _ _ _ _ _ HB Hv) as (v0 & Hv0 & Harr & Hcap).
    rewrite Hsame in Hv0.
    destruct (truncate_header _ _ Ht) as (? & ? & ? & ?).
    exists v0, t. split_and!; try done; congruence.
  - intros f a p Hf Hob Hp Hget.
    destruct (oneof_bytes_run cfg o prog _ msg f Hord Hf Hob _ _ _ _ _ Hp Hget Hex)
      as (p' & Ht & Hfinal).
    destruct (truncate_header _ _ Ht) as (? & ? & ? & ?).
    exists p'. split_and!; done.
Qed.

(** The body printed for a saved field: its handle, cut to length
    zero, is put in a local before [m.Reset()] and assigned back after
    it. *)
Lemma saved_field_printed cfg o msg f :
  f ∈ mFields msg → savedField f = true →
  ∃ k pre mid post,
    resetBody cfg o msg
      = pre ++ SSave k (fGoName f) :: mid ++ SReset :: post
    ∧ In (SRestore (fGoName f) k) post.
Proof.
  intros Hf Hs. apply list_elem_of_split in Hf as (a & b & E).
  rewrite resetBody_spec, E, fieldsStmts_app. simpl.
  rewrite (fieldStmts_saved _ _ _ Hs), Hs.
  set (k := length (filter (fun g => savedField g = true) a)).
  set (saves := if bool_decide (0 < length (oneofBytesOf msg)) then _ else _).
  set (restores := if bool_decide (0 < length (oneofBytesOf msg)) then _ else _).
  exists k, (fieldsStmts cfg 0 a ++ ownPrefix cfg f),
    (fieldsStmts cfg (S k) b ++ saves),
    (restoreSaved (savedOf msg) ++ restores).
  split.
  { rewrite <- !app_assoc. reflexivity. }
  apply in_or_app. left. unfold restoreSaved.
  apply list_elem_of_In, elem_of_lookup_imap. exists k, f. split; [done|].
  unfold savedOf. rewrite E, filter_app, filter_cons, decide_True by done.
  rewrite lookup_app_r by (unfold k; lia).
  by rewrite Nat.sub_diag.
Qed.

(** The wrapper of a bytes member holds a slice. *)
Lemma oneofBytes_slice cfg U R flds f a p :
  oneofBytesField f = true →
  fieldFits cfg U R flds f = true →
  getField (OneofGoName f) flds = Some (VWrap a (fGoIdent f) p) →
  isSlice p = true.
Proof.
  intros Hob Hfit Hget. unfold fieldFits in Hfit.
  rewrite (oneofBytesField_structName _ Hob), Hget in Hfit.
  unfold slotFits in Hfit. unfold oneofBytesField in Hob.
  destruct (fIsList f); [done|]. destruct (inRealOneof f); [|done].
  simpl in Hob. apply bool_decide_eq_true in Hob.
  by rewrite String.eqb_refl, Hob in Hfit.
Qed.

(** C1.  Let [m] be an instance of a message type the pool code is
    generated for.  [m.ReturnToVTPool()] returns and leaves the instance
    in the pool of its type; a [FromVTPool] that takes it out of the
    pool yields this very instance, and in it every repeated field and
    every singular bytes field is a slice of length 0 over the same
    backing array with the same capacity as before; so is the bytes
    slice held by a oneof wrapper. *)
Theorem pooled_instance_reads_empty_keeps_capacity
    cfg U prog msg fuel addr flds P fresh :
  generatedFor cfg U prog →
  forallb wellFormed U = true →
  findMessage U (mGoIdent msg) = Some msg →
  instanceFits cfg U fuel (VMsg addr (mGoIdent msg) flds) = true →
  ∃ m' P' flds',
    ReturnToVTPool prog fuel (VMsg addr (mGoIdent msg) flds) P = Done (m', P')
    ∧ (∃ P'', FromVTPool prog (mGoIdent msg) (Some 0) fresh P' = Done (m', P''))
    ∧ m' = VMsg addr (mGoIdent msg) flds'
    ∧ (∀ f, f ∈ mFields msg → savedField f = true →
         ∃ v v',
           getField (fGoName f) flds = Some v
           ∧ getField (fGoName f) flds' = Some v'
           ∧ isSlice v' = true ∧ sliceLen v' = 0
           ∧ sliceArr v' = sliceArr v ∧ sliceCap v' = sliceCap v)
    ∧ (∀ f a p, f ∈ mFields msg → oneofBytesField f = true →
         getField (OneofGoName f) flds = Some (VWrap a (fGoIdent f) p) →
         ∃ p',
           getField (OneofGoName f) flds' = Some (VWrap a (fGoIdent f) p')
           ∧ isSlice p' = true ∧ sliceLen p' = 0
           ∧ sliceArr p' = sliceArr p ∧ sliceCap p' = sliceCap p).
Proof.
  intros Hprog HU Hfind Hfit.
  destruct (ResetVT_returns cfg U prog Hprog HU fuel
              (VMsg addr (mGoIdent msg) flds) P Hfit) as [[m' P1] Hrun].
  destruct (instanceFits_inv cfg U prog fuel addr msg flds Hprog HU Hfind Hfit)
    as (n & o & -> & Hwf & Hord & Hmeth & Hfields).
  destruct (reset_keeps_capacity cfg o prog msg _ addr flds P m' P1 Hord Hmeth Hwf Hrun)
    as (flds' & -> & Hsaved & Hbytes).
  exists (VMsg addr (mGoIdent msg) flds'), (poolPut (mGoIdent msg) (VMsg addr (mGoIdent msg) flds') P1), flds'.
  split.
  { unfold ReturnToVTPool, returnToPool. by rewrite Hrun. }
  split; [eexists; apply FromVTPool_after_put|].
  split; [done|]. split; [done|].
  intros f a p Hf Hob Hget. apply Hbytes; try done.
  eapply oneofBytes_slice; [done|by apply Hfields|done].
Qed.

Lemma forwards_valid : validOrders Sample.forwards.
Proof. split; intros m; reflexivity. Qed.

Lemma backwards_valid : validOrders Sample.backwards.
Proof. split; intros m; simpl; apply reverse_Permutation. Qed.

Lemma sample_generated :
  generatedFor Sample.cfg (universe [Sample.Item; Sample.Plain; Sample.Parent])
    Sample.prog.
Proof. apply programOf_generatedFor, forwards_valid. Qed.

Lemma pooled_instance_witness :
  ∃ m' P' flds' v',
    ReturnToVTPool Sample.prog 3 Sample.parent ∅ = Done (m', P')
    ∧ (∃ P'', FromVTPool Sample.prog "Parent" (Some 0) 99 P' = Done (m', P''))
    ∧ m' = VMsg 1 "Parent" flds'
    ∧ getField "Items" flds' = Some v'
    ∧ sliceLen v' = 0 ∧ sliceArr v' = Some 10 ∧ sliceCap v' = 4.
Proof.
  assert (forallb wellFormed (universe [Sample.Item; Sample.Plain; Sample.Parent])
          = true) as HU by (vm_compute; reflexivity).
  assert (instanceFits Sample.cfg
            (universe [Sample.Item; Sample.Plain; Sample.Parent]) 3
            (VMsg 1 (mGoIdent Sample.Parent) Sample.parentFields) = true)
    as Hfit by (vm_compute; reflexivity).
  destruct (pooled_instance_reads_empty_keeps_capacity
              Sample.cfg (universe [Sample.Item; Sample.Plain; Sample.Parent])
              Sample.prog Sample.Parent 3 1 Sample.parentFields ∅ 99
              sample_generated HU eq_refl Hfit)
    as (m' & P' & flds' & Hrun & Hfrom & -> & Hsaved & _).
  destruct (Hsaved (Sample.repeated "Items" MessageKind (Some Sample.Item)))
    as (v & v' & Hv & Hv' & _ & Hlen & Harr & Hcap);
    [apply list_elem_of_here|reflexivity|].
  vm_compute in Hv. injection Hv as <-.
  exists (VMsg 1 "Parent" flds'), P', flds', v'.
  split; [exact Hrun|]. split; [exact Hfrom|]. split; [reflexivity|].
  split; [exact Hv'|]. split; [exact Hlen|]. split; [exact Harr|exact Hcap].
Defined.

(** ** The wrapper of oneof bytes *)

(** The body printed for a bytes member of a real oneof: a type switch
    with a case for the wrapper before [m.Reset()], the assignment of
    what was saved after it. *)
Lemma oneof_bytes_printed cfg o msg f :
  validOrders o →
  f ∈ mFields msg →
  oneofBytesField f = true →
  ∃ pre cases mid post,
    resetBody cfg o msg
      = pre ++ SOneofSave (OneofGoName f) (mGoIdent msg) cases :: mid
            ++ SReset :: post
    ∧ In (fGoIdent f, fGoName f) cases
    ∧ In (SOneofRestore (OneofGoName f)) post.
Proof.
  intros [Hso Hro] Hf Hob.
  destruct (oneofBytes_group msg f Hf Hob) as (Hlen & grp & Hgrp & Hfg).
  rewrite resetBody_spec, !bool_decide_eq_true_2 by done.
  assert ((OneofGoName f, grp) ∈ saveOrder o (oneofGroups (oneofBytesOf msg)))
    as Hs by (by apply range_elem).
  apply list_elem_of_split in Hs as (s1 & s2 & ->).
  rewrite map_app. simpl.
  exists (fieldsStmts cfg 0 (mFields msg) ++ map (saveGroup (mGoIdent msg)) s1).
  eexists _, (map (saveGroup (mGoIdent msg)) s2), _.
  split; [by rewrite <- !app_assoc|]. split.
  - apply in_map_iff. exists f. split; [done|]. by apply list_elem_of_In.
  - apply in_or_app. right. apply in_map_iff.
    exists (OneofGoName f, grp). split; [done|].
    apply list_elem_of_In. by apply range_elem.
Qed.

(** C3.  For a bytes member [f] of a real oneof, the body of [ResetVT]
    holds a type switch on the oneof slot with a case for the wrapper of
    [f], before [m.Reset()], and the assignment [m.O = savedO] after
    it.  On an instance whose slot holds the wrapper of [f], [ResetVT]
    returns and leaves in the slot the same wrapper (same address, same
    type), its bytes cut to length zero over the same backing array. *)
Theorem oneof_bytes_wrapper_reused
    cfg U prog msg f fuel addr flds P a p :
  generatedFor cfg U prog →
  forallb wellFormed U = true →
  findMessage U (mGoIdent msg) = Some msg →
  instanceFits cfg U fuel (VMsg addr (mGoIdent msg) flds) = true →
  f ∈ mFields msg →
  oneofBytesField f = true →
  getField (OneofGoName f) flds = Some (VWrap a (fGoIdent f) p) →
  (∃ o pre cases mid post,
      methods prog (mGoIdent msg) = Some (resetBody cfg o msg)
      ∧ resetBody cfg o msg
        = pre ++ SOneofSave (OneofGoName f) (mGoIdent msg) cases :: mid
              ++ SReset :: post
      ∧ In (fGoIdent f, fGoName f) cases
      ∧ In (SOneofRestore (OneofGoName f)) post)
  ∧ ∃ m' P' flds' p',
      ResetVT prog fuel (VMsg addr (mGoIdent msg) flds) P = Done (m', P')
      ∧ m' = VMsg addr (mGoIdent msg) flds'
      ∧ getField (OneofGoName f) flds' = Some (VWrap a (fGoIdent f) p')
      ∧ truncate p = Some p'
      ∧ sliceLen p' = 0 ∧ sliceArr p' = sliceArr p ∧ sliceCap p' = sliceCap p.
Proof.
  intros Hprog HU Hfind Hfit Hf Hob Hget.
  destruct (ResetVT_returns cfg U prog Hprog HU fuel
              (VMsg addr (mGoIdent msg) flds) P Hfit) as [[m' P'] Hrun].
  destruct (instanceFits_inv cfg U prog fuel addr msg flds Hprog HU Hfind Hfit)
    as (n & o & -> & Hwf & Hord & Hmeth & Hfields).
  split.
  - destruct (oneof_bytes_printed cfg o msg f Hord Hf Hob)
      as (pre & cases & mid & post & E & Hc & Hr).
    by exists o, pre, cases, mid, post.
  - pose proof (oneofBytes_slice _ _ _ _ _ _ _ Hob (Hfields f Hf) Hget) as Hp.
    pose proof Hrun as H.
    apply ResetVT_Done in H as (fuel' & body & fr & [= <-] & Hb & Hex & -> & ->).
    rewrite Hmeth in Hb. injection Hb as <-.
    destruct (oneof_bytes_run cfg o prog _ msg f Hord Hf Hob _ _ _ _ _ Hp Hget Hex)
      as (p' & Ht & Hfinal).
    destruct (truncate_header _ _ Ht) as (? & ? & ? & ?).
    exists (VMsg addr (mGoIdent msg) (self fr)), (pool_state fr), (self fr), p'.
    by split_and!.
Qed.

Lemma oneof_bytes_wrapper_witness :
  ∃ m' P' flds',
    ResetVT Sample.prog 3 Sample.parent ∅ = Done (m', P')
    ∧ m' = VMsg 1 "Parent" flds'
    ∧ getField "Body" flds'
      = Some (VWrap 6 "Parent_Raw" (Sample.bytes 16 0 [4; 5; 0; 0])).
Proof.
  assert (forallb wellFormed (universe [Sample.Item; Sample.Plain; Sample.Parent])
          = true) as HU by (vm_compute; reflexivity).
  assert (instanceFits Sample.cfg
            (universe [Sample.Item; Sample.Plain; Sample.Parent]) 3
            (VMsg 1 (mGoIdent Sample.Parent) Sample.parentFields) = true)
    as Hfit by (vm_compute; reflexivity).
  assert (Sample.inOneof "Raw" "Parent_Raw" BytesKind "Body" None
            ∈ mFields Sample.Parent) as Hin.
  { do 5 apply list_elem_of_further. apply list_elem_of_here. }
  destruct (oneof_bytes_wrapper_reused
              Sample.cfg (universe [Sample.Item; Sample.Plain; Sample.Parent])
              Sample.prog Sample.Parent
              (Sample.inOneof "Raw" "Parent_Raw" BytesKind "Body" None)
              3 1 Sample.parentFields ∅ 6 (Sample.bytes 16 2 [4; 5; 0; 0])
              sample_generated HU eq_refl Hfit Hin eq_refl eq_refl)
    as (_ & m' & P' & flds' & p' & Hrun & -> & Hslot & Ht & _).
  vm_compute in Ht. injection Ht as <-.
  exists (VMsg 1 "Parent" flds'), P', flds'.
  split; [exact Hrun|]. split; [reflexivity|]. exact Hslot.
Defined.

(** ** Elements of repeated messages *)

(** Whenever [ResetVT] returns on an instance of [msg], a repeated
    field of message kind is left as the same list cut to length zero,
    its elements reset where they are. *)
Lemma repeated_reset_when_done
    cfg o prog msg f fuel addr flds P m' P' :
  validOrders o →
  methods prog (mGoIdent msg) = Some (resetBody cfg o msg) →
  wellFormed msg = true →
  f ∈ mFields msg →
  fIsList f = true →
  isMessageKind (fKind f) = true →
  ResetVT prog (S fuel) (VMsg addr (mGoIdent msg) flds) P = Done (m', P') →
  In (SRangeReset (fGoName f) (ShouldPool cfg (fMessage f))) (resetBody cfg o msg)
  ∧ ∃ flds',
      m' = VMsg addr (mGoIdent msg) flds'
      ∧ ((getField (fGoName f) flds = Some VNil
          ∧ getField (fGoName f) flds' = Some VNil)
         ∨ ∃ arr len store store',
             getField (fGoName f) flds = Some (VSlice arr len store)
             ∧ getField (fGoName f) flds' = Some (VSlice arr 0 store')
             ∧ length store' = length store
             ∧ (∀ i e, (i < len)%nat → store !! i = Some e →
                  ∃ e', store' !! i = Some e'
                        ∧ if ShouldPool cfg (fMessage f)
                          then ∃ Pa Pb, ResetVT prog fuel e Pa = Done (e', Pb)
                          else plainReset prog e = Done e')
             ∧ (∀ i, (len ≤ i)%nat → store' !! i = store !! i)).
Proof.
  intros Hord Hm Hwf Hf Hl Hk H.
  assert (savedField f = true) as Hs by (unfold savedField; by rewrite Hl).
  destruct (wellFormed_split msg f Hwf Hf Hs) as (pre & post & E & Hn).
  assert (ownPrefix cfg f
          = [SRangeReset (fGoName f) (ShouldPool cfg (fMessage f))]) as Hown.
  { unfold ownPrefix. rewrite Hl. by destruct (fKind f). }
  split.
  { rewrite resetBody_spec, E, fieldsStmts_app. simpl.
    rewrite (fieldStmts_saved _ _ _ Hs), Hown.
    apply in_or_app. left. apply in_or_app. right. by left. }
  apply ResetVT_Done in H as (fuel' & body & fr & [= <-] & Hb & Hex & -> & ->).
  rewrite Hm in Hb. injection Hb as <-.
  destruct (saved_field_run cfg o prog _ msg pre post f Hord E Hs Hn _ _ _ Hex)
    as (fr1 & fr2 & v & t & _ & Hsame & HB & Hv & Ht & Hfinal).
  exists (self fr). split; [done|].
  rewrite Hown in HB. simpl in HB. done_inv HB.
  apply exec_SRangeReset
    in Ha as [[Hv0 ->]|(arr & len & store & elems & Hv0 & Hr & Hv')].
  - left. rewrite Hv0 in Hv. injection Hv as <-. simpl in Ht. injection Ht as <-.
    by rewrite <- Hsame.
  - right. rewrite Hv' in Hv. injection Hv as <-. simpl in Ht. injection Ht as <-.
    exists arr, len, store, (elems ++ drop len store).
    pose proof (rangeReset_length _ _ _ _ _ _ _ Hr) as Hlen.
    rewrite length_take in Hlen.
    split_and!; try done.
    + by rewrite <- Hsame.
    + rewrite length_app, Hlen, length_drop. lia.
    + intros i e Hi He.
      destruct (rangeReset_lookup _ _ _ _ _ _ _ i e Hr) as (e' & He' & Hres).
      { by rewrite lookup_take_lt. }
      exists e'. split; [|done]. by apply lookup_app_l_Some.
    + intros i Hi. rewrite lookup_app_r by lia. rewrite lookup_drop, Hlen.
      destruct (decide (len ≤ length store)%nat).
      * f_equal. lia.
      * rewrite !lookup_ge_None_2; [done|lia..].
Qed.

(** C2, as the code has it.  For a repeated field of message kind the
    body prints a loop that calls [ResetVT] on every element when the
    element type is pooled ([Reset] when it is not), and then saves the
    list cut to length zero.  [ResetVT] of the message returns, and
    after it the field is that list: same backing array, same capacity,
    length zero; slot [i] of the backing array below the old length
    holds what the reset of the old element [i] returned, still in
    place, and the slots above are untouched.  The loop does not call
    [ReturnToVTPool]. *)
Theorem repeated_messages_reset_in_place
    cfg U prog msg f fuel addr flds P :
  generatedFor cfg U prog →
  forallb wellFormed U = true →
  findMessage U (mGoIdent msg) = Some msg →
  instanceFits cfg U (S fuel) (VMsg addr (mGoIdent msg) flds) = true →
  f ∈ mFields msg →
  fIsList f = true →
  isMessageKind (fKind f) = true →
  (∃ o, methods prog (mGoIdent msg) = Some (resetBody cfg o msg)
        ∧ In (SRangeReset (fGoName f) (ShouldPool cfg (fMessage f)))
             (resetBody cfg o msg))
  ∧ ∃ m' P' flds',
      ResetVT prog (S fuel) (VMsg addr (mGoIdent msg) flds) P = Done (m', P')
      ∧ m' = VMsg addr (mGoIdent msg) flds'
      ∧ ((getField (fGoName f) flds = Some VNil
          ∧ getField (fGoName f) flds' = Some VNil)
         ∨ ∃ arr len store store',
             getField (fGoName f) flds = Some (VSlice arr len store)
             ∧ getField (fGoName f) flds' = Some (VSlice arr 0 store')
             ∧ length store' = length store
             ∧ (∀ i e, (i < len)%nat → store !! i = Some e →
                  ∃ e', store' !! i = Some e'
                        ∧ if ShouldPool cfg (fMessage f)
                          then ∃ Pa Pb, ResetVT prog fuel e Pa = Done (e', Pb)
                          else plainReset prog e = Done e')
             ∧ (∀ i, (len ≤ i)%nat → store' !! i = store !! i)).
Proof.
  intros Hprog HU Hfind Hfit Hf Hl Hk.
  destruct (ResetVT_returns cfg U prog Hprog HU (S fuel)
              (VMsg addr (mGoIdent msg) flds) P Hfit) as [[m' P'] Hrun].
  destruct (instanceFits_inv cfg U prog (S fuel) addr msg flds Hprog HU Hfind Hfit)
    as (n & o & _ & Hwf & Hord & Hmeth & _).
  destruct (repeated_reset_when_done cfg o prog msg f fuel addr flds P m' P'
              Hord Hmeth Hwf Hf Hl Hk Hrun) as (Hin & flds' & -> & Hcases).
  split; [by exists o|].
  by exists (VMsg addr (mGoIdent msg) flds'), P', flds'.
Qed.

Lemma repeated_messages_witness :
  ∃ m' P' flds' store',
    ResetVT Sample.prog 3 Sample.parent ∅ = Done (m', P')
    ∧ m' = VMsg 1 "Parent" flds'
    ∧ getField "Items" flds' = Some (VSlice 10 0 store')
    ∧ length store' = 4
    ∧ ∃ e' Pa Pb,
        store' !! 0 = Some e'
        ∧ ResetVT Sample.prog 2
            (Sample.item 2 "a" (Sample.bytes 11 1 [7; 0])) Pa = Done (e', Pb).
Proof.
  assert (forallb wellFormed (universe [Sample.Item; Sample.Plain; Sample.Parent])
          = true) as HU by (vm_compute; reflexivity).
  assert (instanceFits Sample.cfg
            (universe [Sample.Item; Sample.Plain; Sample.Parent]) 3
            (VMsg 1 (mGoIdent Sample.Parent) Sample.parentFields) = true)
    as Hfit by (vm_compute; reflexivity).
  destruct (repeated_messages_reset_in_place
              Sample.cfg (universe [Sample.Item; Sample.Plain; Sample.Parent])
              Sample.prog Sample.Parent
              (Sample.repeated "Items" MessageKind (Some Sample.Item))
              2 1 Sample.parentFields ∅
              sample_generated HU eq_refl Hfit (list_elem_of_here _ _) eq_refl eq_refl)
    as (_ & m' & P' & flds' & Hrun & -> &
        [[Hv _]|(arr & len & store & store' & Hv & Hv' & Hlen & Hel & _)]).
  { vm_compute in Hv. discriminate Hv. }
  vm_compute in Hv. injection Hv as <- <- <-.
  destruct (Hel 0 (Sample.item 2 "a" (Sample.bytes 11 1 [7; 0])))
    as (e' & He' & Pa & Pb & Hres); [lia|reflexivity|].
  exists (VMsg 1 "Parent" flds'), P', flds', store'.
  split; [exact Hrun|]. split; [reflexivity|]. split; [exact Hv'|].
  split; [exact Hlen|]. exists e', Pa, Pb. split; [exact He'|exact Hres].
Defined.

(** C2 as the claim has it fails: after [ResetVT] of a message whose
    repeated field holds two elements of a pooled type, the pool of the
    element type holds nothing. *)
Lemma repeated_elements_not_pooled :
  ShouldPool Sample.cfg (Some Sample.Item) = true
  ∧ ∃ m' P',
      ResetVT Sample.prog 2 Sample.itemsOnly ∅ = Done (m', P')
      ∧ P' !! "Item" = None.
Proof.
  split; [reflexivity|].
  eexists _, _. split; [vm_compute; reflexivity|]. reflexivity.
Qed.

(** ** The order of the generated text *)

(** C6 fails on the code.  For a message with two oneofs that hold
    bytes, the blocks printed per oneof follow the iteration order of the
    Go map [oneofGroups]: two runs that visit the map in different
    orders, both of which the language allows, print different text. *)
Theorem generated_text_depends_on_map_order :
  validOrders Sample.forwards
  ∧ validOrders Sample.backwards
  ∧ render (GenerateFile Sample.cfg Sample.forwards [Sample.TwoOneofs])
    ≠ render (GenerateFile Sample.cfg Sample.backwards [Sample.TwoOneofs]).
Proof.
  split; [exact forwards_valid|]. split; [exact backwards_valid|].
  vm_compute. discriminate.
Qed.

(** ** What [ResetVT] leaves in the other fields *)

Lemma structName_outside f : inRealOneof f = false → structName f = fGoName f.
Proof. unfold structName. intros ->. by destruct (fIsList f). Qed.

Lemma wellFormed_split_outside msg f :
  wellFormed msg = true → f ∈ mFields msg → inRealOneof f = false →
  ∃ pre post, mFields msg = pre ++ f :: post
              ∧ Forall (fun g => structName g ≠ fGoName f) (pre ++ post).
Proof.
  intros Hwf Hf Hout. apply andb_prop in Hwf as [_ Hslots].
  apply list_elem_of_split in Hf as (pre & post & E).
  exists pre, post. split; [done|].
  rewrite E in Hslots. apply distinctSlots_app in Hslots.
  eapply Forall_impl; [exact Hslots|]. intros g Hc. simpl in Hc.
  rewrite <- (structName_outside f Hout). apply compatible_names; auto.
Qed.

Lemma wellFormed_lists msg f :
  wellFormed msg = true → f ∈ mFields msg → fIsList f = true →
  inRealOneof f = false.
Proof.
  intros Hwf Hf Hl. apply andb_prop in Hwf as [Hlists _].
  rewrite forallb_forall in Hlists. apply list_elem_of_In in Hf.
  specialize (Hlists f Hf). rewrite Hl in Hlists. by apply negb_true_iff.
Qed.

(** The struct literal [T{}] holds the zero value of every field that
    has a struct field of its own. *)
Lemma zeroStruct_lookup pre f post : ∀ seen,
  inRealOneof f = false →
  Forall (fun g => fIsList g = true → inRealOneof g = false) pre →
  Forall (fun g => structName g ≠ fGoName f) pre →
  getField (fGoName f) (zeroStruct (pre ++ f :: post) seen) = Some (zeroValue f).
Proof.
  induction pre as [|h pre IH]; intros seen Hout Hl Hn; simpl.
  { rewrite Hout. simpl. by rewrite String.eqb_refl. }
  apply Forall_cons in Hl as [Hlh Hl]. apply Forall_cons in Hn as [Hnh Hn].
  destruct (inRealOneof h) eqn:Eh.
  - assert (structName h = OneofGoName h) as En.
    { unfold structName. rewrite Eh. destruct (fIsList h); [|done].
      by specialize (Hlh eq_refl). }
    case_bool_decide; [by apply IH|]. simpl.
    destruct (String.eqb _ _) eqn:E; [|by apply IH].
    apply String.eqb_eq in E. congruence.
  - simpl. rewrite (structName_outside h Eh) in Hnh.
    destruct (String.eqb _ _) eqn:E; [|by apply IH].
    apply String.eqb_eq in E. congruence.
Qed.

(** After the body has run, a struct field that is neither the field of
    a saved handle nor a oneof slot with a bytes member holds what the
    struct literal [T{}] holds. *)
Lemma resetBody_other_field cfg o prog rec msg flds P fr' F zero :
  validOrders o →
  zeroOfType prog (mGoIdent msg) = Some zero →
  Forall (fun g => fGoName g ≠ F) (savedOf msg) →
  Forall (fun g => OneofGoName g ≠ F) (oneofBytesOf msg) →
  exec_body prog rec (mGoIdent msg) (resetBody cfg o msg) (mkFrame flds ∅ ∅ P)
    = Done fr' →
  getField F (self fr') = getField F zero.
Proof.
  intros [Hso Hro] Hzero Hsaved Hbytes H.
  rewrite resetBody_spec in H.
  apply exec_body_app_Done in H as (fr1 & _ & H).
  apply exec_body_app_Done in H as (fr2 & _ & H).
  simpl in H. apply bind_Done in H as (fr3 & HC & H).
  apply exec_body_app_Done in H as (fr4 & HD & HE).
  apply exec_SReset in HC as (zero' & Hz & ->).
  rewrite Hzero in Hz. injection Hz as <-.
  apply (restore_saved_other prog rec (mGoIdent msg) 0 _ F) in HD; [|done].
  simpl in HD. rewrite <- HD.
  case_bool_decide; [|simpl in HE; by done_inv HE].
  rewrite <- (map_map fst SOneofRestore) in HE.
  eapply restore_oneofs_other; [|exact HE].
  intros Hin. apply list_elem_of_fmap in Hin as ([O grp] & -> & Hin).
  apply (range_elem _ Hro) in Hin. simpl.
  apply oneofGroups_key in Hin as (g & Hg & HO).
  rewrite Forall_forall in Hbytes. by apply (Hbytes g Hg).
Qed.

(** After the body has run, a field that has a struct field of its own
    and is neither repeated nor bytes holds the zero value of its Go
    type. *)
Lemma other_field_when_done cfg o prog rec msg pre f post flds P fr :
  validOrders o →
  wellFormed msg = true →
  zeroOfType prog (mGoIdent msg) = Some (zeroStruct (mFields msg) []) →
  mFields msg = pre ++ f :: post →
  Forall (fun g => structName g ≠ fGoName f) (pre ++ post) →
  inRealOneof f = false →
  savedField f = false →
  exec_body prog rec (mGoIdent msg) (resetBody cfg o msg) (mkFrame flds ∅ ∅ P)
    = Done fr →
  getField (fGoName f) (self fr) = Some (zeroValue f).
Proof.
  intros Hord Hwf Hzero E Hn Hout Hns Hex.
  rewrite (resetBody_other_field cfg o prog rec msg flds P fr
             (fGoName f) (zeroStruct (mFields msg) []) Hord Hzero);
    [| | |exact Hex].
  - rewrite E. apply Forall_app in Hn as [Hpre _].
    apply zeroStruct_lookup; [done| |done].
    apply Forall_forall. intros g Hg. apply (wellFormed_lists msg); [done|].
    rewrite E. apply elem_of_app. by left.
  - apply Forall_forall. intros g Hg.
    unfold savedOf in Hg. apply list_elem_of_filter in Hg as [Hgs Hg].
    rewrite <- (savedField_structName g Hgs).
    rewrite Forall_forall in Hn. apply Hn.
    rewrite E in Hg. apply elem_of_app in Hg as [Hg|Hg];
      [apply elem_of_app; by left|].
    apply elem_of_cons in Hg as [->|Hg]; [congruence|apply elem_of_app; by right].
  - apply Forall_forall. intros g Hg.
    unfold oneofBytesOf in Hg. apply list_elem_of_filter in Hg as [Hgb Hg].
    rewrite <- (oneofBytesField_structName g Hgb).
    rewrite Forall_forall in Hn. apply Hn.
    rewrite E in Hg. apply elem_of_app in Hg as [Hg|Hg];
      [apply elem_of_app; by left|].
    apply elem_of_cons in Hg as [->|Hg]; [|apply elem_of_app; by right].
    unfold oneofBytesField in Hgb. rewrite Hout in Hgb.
    by destruct (fIsList f).
Qed.

(** [ResetVT] returns, and a field that has a struct field of its own
    and whose handle is not kept (it is neither repeated nor bytes) is
    left at the zero value of its Go type: a scalar at zero, an optional
    scalar, a message or a map at nil. *)
Theorem reset_zeroes_other_fields cfg U prog msg fuel addr flds P f :
  generatedFor cfg U prog →
  forallb wellFormed U = true →
  findMessage U (mGoIdent msg) = Some msg →
  instanceFits cfg U fuel (VMsg addr (mGoIdent msg) flds) = true →
  f ∈ mFields msg →
  inRealOneof f = false →
  savedField f = false →
  ∃ m' P' flds',
    ResetVT prog fuel (VMsg addr (mGoIdent msg) flds) P = Done (m', P')
    ∧ m' = VMsg addr (mGoIdent msg) flds'
    ∧ getField (fGoName f) flds' = Some (zeroValue f).
Proof.
  intros Hprog HU Hfind Hfit Hf Hout Hns.
  destruct (ResetVT_returns cfg U prog Hprog HU fuel
              (VMsg addr (mGoIdent msg) flds) P Hfit) as [[m' P'] Hrun].
  destruct (instanceFits_inv cfg U prog fuel addr msg flds Hprog HU Hfind Hfit)
    as (n & o & -> & Hwf & Hord & Hmeth & _).
  destruct (Hprog _ _ Hfind) as [Hzero _].
  destruct (wellFormed_split_outside msg f Hwf Hf Hout) as (pre & post & E & Hn).
  pose proof Hrun as H.
  apply ResetVT_Done in H as (fuel' & body & fr & [= <-] & Hb & Hex & -> & ->).
  rewrite Hmeth in Hb. injection Hb as <-.
  exists (VMsg addr (mGoIdent msg) (self fr)), (pool_state fr), (self fr).
  split; [done|]. split; [done|].
  by eapply other_field_when_done.
Qed.

Lemma reset_zeroes_other_fields_witness :
  ∃ m' P' flds',
    ResetVT Sample.prog 3 Sample.parent ∅ = Done (m', P')
    ∧ m' = VMsg 1 "Parent" flds'
    ∧ getField "Count" flds' = Some (VInt 0)
    ∧ getField "Child" flds' = Some VNil.
Proof.
  assert (forallb wellFormed (universe [Sample.Item; Sample.Plain; Sample.Parent])
          = true) as HU by (vm_compute; reflexivity).
  assert (instanceFits Sample.cfg
            (universe [Sample.Item; Sample.Plain; Sample.Parent]) 3
            (VMsg 1 (mGoIdent Sample.Parent) Sample.parentFields) = true)
    as Hfit by (vm_compute; reflexivity).
  assert (Sample.scalar "Count" Int64Kind ∈ mFields Sample.Parent) as Hin.
  { do 7 apply list_elem_of_further. apply list_elem_of_here. }
  assert (mkField "Child" "Child" MessageKind false false true false None
            (Some Sample.Item) None ∈ mFields Sample.Parent) as Hin'.
  { do 4 apply list_elem_of_further. apply list_elem_of_here. }
  destruct (reset_zeroes_other_fields
              Sample.cfg (universe [Sample.Item; Sample.Plain; Sample.Parent])
              Sample.prog Sample.Parent 3 1 Sample.parentFields ∅
              (Sample.scalar "Count" Int64Kind)
              sample_generated HU eq_refl Hfit Hin eq_refl eq_refl)
    as (m' & P' & flds' & Hrun & -> & Hcount).
  destruct (reset_zeroes_other_fields
              Sample.cfg (universe [Sample.Item; Sample.Plain; Sample.Parent])
              Sample.prog Sample.Parent 3 1 Sample.parentFields ∅
              (mkField "Child" "Child" MessageKind false false true false None
                 (Some Sample.Item) None)
              sample_generated HU eq_refl Hfit Hin' eq_refl eq_refl)
    as (m2 & P2 & flds2 & Hrun2 & -> & Hchild).
  rewrite Hrun in Hrun2. injection Hrun2 as <- <-.
  exists (VMsg 1 "Parent" flds'), P', flds'.
  split; [exact Hrun|]. split; [reflexivity|]. split; [exact Hcount|exact Hchild].
Defined.

(** ** Repeated strings and bytes *)

(** For a repeated field of strings or of bytes the body prints
    [clear(m.F)] before it saves the handle: [ResetVT] returns and
    leaves the list at length zero over its backing array, in which
    every slot below the old length holds the zero value of its type,
    so that the array kept for reuse holds on to none of the old
    strings; the slots above the old length are as they were. *)
Theorem repeated_strings_cleared cfg U prog msg f fuel addr flds P arr len store :
  generatedFor cfg U prog →
  forallb wellFormed U = true →
  findMessage U (mGoIdent msg) = Some msg →
  instanceFits cfg U fuel (VMsg addr (mGoIdent msg) flds) = true →
  f ∈ mFields msg →
  fIsList f = true →
  fKind f = StringKind ∨ fKind f = BytesKind →
  getField (fGoName f) flds = Some (VSlice arr len store) →
  ∃ m' P' flds',
    ResetVT prog fuel (VMsg addr (mGoIdent msg) flds) P = Done (m', P')
    ∧ m' = VMsg addr (mGoIdent msg) flds'
    ∧ getField (fGoName f) flds'
      = Some (VSlice arr 0 (map zeroLike (take len store) ++ drop len store)).
Proof.
  intros Hprog HU Hfind Hfit Hf Hl Hk Hget.
  destruct (ResetVT_returns cfg U prog Hprog HU fuel
              (VMsg addr (mGoIdent msg) flds) P Hfit) as [[m' P'] Hrun].
  destruct (instanceFits_inv cfg U prog fuel addr msg flds Hprog HU Hfind Hfit)
    as (n & o & -> & Hwf & Hord & Hmeth & _).
  assert (savedField f = true) as Hs by (unfold savedField; by rewrite Hl).
  destruct (wellFormed_split msg f Hwf Hf Hs) as (pre & post & E & Hn).
  assert (ownPrefix cfg f = [SClear (fGoName f)]) as Hown.
  { unfold ownPrefix. rewrite Hl. by destruct Hk as [-> | ->]. }
  pose proof Hrun as H.
  apply ResetVT_Done in H as (fuel' & body & fr & [= <-] & Hb & Hex & -> & ->).
  rewrite Hmeth in Hb. injection Hb as <-.
  destruct (saved_field_run cfg o prog (ResetVT prog n) msg pre post f Hord E Hs Hn
              flds P fr Hex)
    as (fr1 & fr2 & v & t & _ & Hsame & HB & Hv & Ht & Hfinal).
  exists (VMsg addr (mGoIdent msg) (self fr)), (pool_state fr), (self fr).
  split; [done|]. split; [done|].
  rewrite Hown in HB. simpl in HB. done_inv HB.
  apply exec_SClear in Ha as (v0 & v' & Hv0 & Hc & Hv' & _).
  rewrite Hsame, Hget in Hv0. injection Hv0 as <-.
  simpl in Hc. injection Hc as <-.
  rewrite Hv' in Hv. injection Hv as <-.
  simpl in Ht. injection Ht as <-. done.
Qed.

Lemma repeated_strings_cleared_witness :
  ∃ m' P' flds',
    ResetVT Sample.prog 3 Sample.parent ∅ = Done (m', P')
    ∧ m' = VMsg 1 "Parent" flds'
    ∧ getField "Tags" flds' = Some (VSlice 13 0 [ VStr ""; VStr ""; VStr "" ]).
Proof.
  assert (forallb wellFormed (universe [Sample.Item; Sample.Plain; Sample.Parent])
          = true) as HU by (vm_compute; reflexivity).
  assert (instanceFits Sample.cfg
            (universe [Sample.Item; Sample.Plain; Sample.Parent]) 3
            (VMsg 1 (mGoIdent Sample.Parent) Sample.parentFields) = true)
    as Hfit by (vm_compute; reflexivity).
  assert (Sample.repeated "Tags" StringKind None ∈ mFields Sample.Parent) as Hin.
  { do 2 apply list_elem_of_further. apply list_elem_of_here. }
  destruct (repeated_strings_cleared
              Sample.cfg (universe [Sample.Item; Sample.Plain; Sample.Parent])
              Sample.prog Sample.Parent
              (Sample.repeated "Tags" StringKind None)
              3 1 Sample.parentFields ∅ 13 2 [ VStr "x"; VStr "y"; VStr "" ]
              sample_generated HU eq_refl Hfit Hin eq_refl (or_introl eq_refl) eq_refl)
    as (m' & P' & flds' & Hrun & -> & Htags).
  exists (VMsg 1 "Parent" flds'), P', flds'.
  split; [exact Hrun|]. split; [reflexivity|]. exact Htags.
Defined.

(** ** What goes into the pools *)

Lemma poolsGrow_refl P : poolsGrow P P.
Proof. by intros ty x. Qed.

Lemma poolsGrow_trans P1 P2 P3 : poolsGrow P1 P2 → poolsGrow P2 P3 → poolsGrow P1 P3.
Proof. intros H1 H2 ty x Hx. by apply H2, H1. Qed.

Lemma poolPut_grows ty v P : poolsGrow P (poolPut ty v P).
Proof.
  intros ty' x Hx. unfold poolPut.
  destruct (decide (ty = ty')) as [->|Hne].
  - rewrite lookup_insert_eq. simpl. by right.
  - by rewrite lookup_insert_ne.
Qed.

Lemma poolPut_holds ty v P : v ∈ default [] (poolPut ty v P !! ty).
Proof. unfold poolPut. rewrite lookup_insert_eq. simpl. by left. Qed.

Section Grows.
Variable prog : program.
Variable rec : value → pools → outcome (value * pools).
Variable ty : GoIdent.
Hypothesis Hrec : ∀ v P v' P', rec v P = Done (v', P') → poolsGrow P P'.

Lemma returnToPool_grows v P v' P' :
  returnToPool rec v P = Done (v', P') → poolsGrow P P'.
Proof.
  destruct v; simpl; intros H; try done.
  - injection H as <- <-. apply poolsGrow_refl.
  - apply bind_Done in H as ([w P1] & Hr & H). injection H as <- <-.
    eapply poolsGrow_trans; [by eapply Hrec|apply poolPut_grows].
Qed.

Lemma rangeReset_grows pooled elems : ∀ P elems' P',
  rangeReset prog rec pooled elems P = Done (elems', P') → poolsGrow P P'.
Proof.
  induction elems as [|mm elems IH]; intros P elems' P' H; simpl in H.
  { injection H as <- <-. apply poolsGrow_refl. }
  apply bind_Done in H as ([mm' P1] & He & H).
  apply bind_Done in H as ([es P2] & Hes & H). injection H as <- <-.
  eapply poolsGrow_trans; [|by eapply IH].
  destruct pooled.
  - destruct mm; try done; by eapply Hrec.
  - done_inv He. apply poolsGrow_refl.
Qed.

Lemma exec_stmt_grows s fr fr' :
  exec_stmt prog rec ty s fr = Done fr' →
  poolsGrow (pool_state fr) (pool_state fr').
Proof.
  intros H. destruct s.
  - apply exec_SRangeReset in H
      as [[_ ->]|(arr & len & store & elems & _ & Hr & _)];
      [apply poolsGrow_refl|by eapply rangeReset_grows].
  - apply exec_SClear in H as (v & v' & _ & _ & _ & ->). apply poolsGrow_refl.
  - apply exec_SSave in H as (v & t & _ & _ & ->). apply poolsGrow_refl.
  - unfold exec_stmt in H. apply bind_Done in H as (v & _ & H).
    destruct v as [| | | | |a W p|]; try done.
    { injection H as <-. apply poolsGrow_refl. }
    destruct (String.eqb W wrapper).
    2:{ injection H as <-. apply poolsGrow_refl. }
    apply bind_Done in H as ([p' P1] & Hr & H). done_inv H. simpl.
    by eapply returnToPool_grows.
  - unfold exec_stmt in H. apply bind_Done in H as (v & _ & H).
    apply bind_Done in H as ([v' P1] & Hr & H). done_inv H. simpl.
    by eapply returnToPool_grows.
  - exec_inv H; simpl; apply poolsGrow_refl.
  - exec_inv H; simpl; apply poolsGrow_refl.
  - exec_inv H; simpl; apply poolsGrow_refl.
  - exec_inv H; simpl; apply poolsGrow_refl.
Qed.

Lemma exec_body_grows body : ∀ fr fr',
  exec_body prog rec ty body fr = Done fr' →
  poolsGrow (pool_state fr) (pool_state fr').
Proof.
  induction body as [|s body IH]; intros fr fr' H; simpl in H.
  { injection H as <-. apply poolsGrow_refl. }
  apply bind_Done in H as (fr1 & Hs & H).
  eapply poolsGrow_trans; [by eapply exec_stmt_grows|by eapply IH].
Qed.
End Grows.

Lemma ResetVT_grows prog fuel : ∀ m P m' P',
  ResetVT prog fuel m P = Done (m', P') → poolsGrow P P'.
Proof.
  induction fuel as [|fuel IH]; intros m P m' P' H.
  { destruct m; try done. injection H as <- <-. apply poolsGrow_refl. }
  destruct m as [| | | |addr ty flds| |]; try done.
  { injection H as <- <-. apply poolsGrow_refl. }
  apply ResetVT_Done in H as (fuel' & body & fr & [= <-] & Hb & Hex & -> & ->).
  by apply (exec_body_grows prog (ResetVT prog fuel) ty IH) in Hex.
Qed.

(** Neither [ResetVT] nor [ReturnToVTPool] takes an instance out of a
    pool: whatever a pool held before the call it holds after it; and
    [ReturnToVTPool] adds its receiver, as [ResetVT] left it, to the
    pool of its type. *)
Theorem reset_only_adds_to_pools prog fuel m P m' P' :
  (ResetVT prog fuel m P = Done (m', P') → poolsGrow P P')
  ∧ (ReturnToVTPool prog fuel m P = Done (m', P') →
       poolsGrow P P'
       ∧ ∀ addr ty flds, m = VMsg addr ty flds → m' ∈ default [] (P' !! ty)).
Proof.
  split; [apply ResetVT_grows|].
  intros H. split.
  - eapply (returnToPool_grows (ResetVT prog fuel)); [|exact H].
    intros v Q v' Q'. apply ResetVT_grows.
  - intros addr ty flds ->.
    apply ReturnToVTPool_Done in H as (P1 & _ & ->). apply poolPut_holds.
Qed.

Lemma reset_only_adds_to_pools_witness :
  ∃ m' P',
    ReturnToVTPool Sample.prog 3 Sample.parent (poolPut "Item" VNil ∅) = Done (m', P')
    ∧ VNil ∈ default [] (P' !! "Item")
    ∧ m' ∈ default [] (P' !! "Parent").
Proof.
  destruct (ReturnToVTPool Sample.prog 3 Sample.parent (poolPut "Item" VNil ∅))
    as [[m' P']| |] eqn:Hrun; [|by vm_compute in Hrun..].
  destruct (reset_only_adds_to_pools Sample.prog 3 Sample.parent
              (poolPut "Item" VNil ∅) m' P') as [_ Hput].
  destruct (Hput Hrun) as [Hgrow Hin].
  exists m', P'. split; [reflexivity|]. split.
  - apply Hgrow. apply poolPut_holds.
  - exact (Hin 1 "Parent" Sample.parentFields eq_refl).
Defined.

(** A singular message field of a pooled type, outside any oneof: the
    body prints [m.F.ReturnToVTPool()].  [ResetVT] of the parent
    returns; the child it held has been reset by its own [ResetVT] and
    is in the pool of its type, and the parent's field is nil. *)
Theorem singular_child_returned_to_pool
    cfg U prog msg f fuel addr flds P a cty cflds :
  generatedFor cfg U prog →
  forallb wellFormed U = true →
  findMessage U (mGoIdent msg) = Some msg →
  instanceFits cfg U (S fuel) (VMsg addr (mGoIdent msg) flds) = true →
  f ∈ mFields msg →
  fIsList f = false →
  inRealOneof f = false →
  isMessageKind (fKind f) = true →
  fIsMap f = false →
  ShouldPool cfg (fMessage f) = true →
  getField (fGoName f) flds = Some (VMsg a cty cflds) →
  ∃ m' P' flds' c',
    ResetVT prog (S fuel) (VMsg addr (mGoIdent msg) flds) P = Done (m', P')
    ∧ m' = VMsg addr (mGoIdent msg) flds'
    ∧ (∃ Pa Pb, ResetVT prog fuel (VMsg a cty cflds) Pa = Done (c', Pb))
    ∧ c' ∈ default [] (P' !! cty)
    ∧ getField (fGoName f) flds' = Some VNil.
Proof.
  intros Hprog HU Hfind Hfit Hf Hl Hout Hk Hmap Hpool Hget.
  destruct (ResetVT_returns cfg U prog Hprog HU (S fuel)
              (VMsg addr (mGoIdent msg) flds) P Hfit) as [[m' P'] Hrun].
  destruct (instanceFits_inv cfg U prog (S fuel) addr msg flds Hprog HU Hfind Hfit)
    as (n & o & [= <-] & Hwf & Hord & Hmeth & _).
  destruct (Hprog _ _ Hfind) as [Hzero _].
  destruct (wellFormed_split_outside msg f Hwf Hf Hout) as (pre & post & E & Hn).
  assert (savedField f = false) as Hns.
  { unfold savedField. rewrite Hl, Hout. simpl.
    apply bool_decide_eq_false. intros Hb. by rewrite Hb in Hk. }
  assert (∀ k, fieldStmts cfg k f = [SFieldReturn (fGoName f)]) as Hstmts.
  { intros k. unfold fieldStmts. rewrite Hl, Hout, Hmap, Hpool.
    by destruct (fKind f). }
  pose proof Hrun as H.
  apply ResetVT_Done in H as (fuel' & body & fr & [= <-] & Hb & Hex & -> & ->).
  rewrite Hmeth in Hb. injection Hb as <-.
  pose proof Hex as Hbody.
  rewrite resetBody_spec, E, fieldsStmts_app in Hbody. simpl in Hbody.
  rewrite Hstmts, <- !app_assoc in Hbody.
  apply exec_body_app_Done in Hbody as (fr1 & HA & Hbody).
  simpl in Hbody. apply bind_Done in Hbody as (fr2 & HB & Hbody).
  assert (getField (fGoName f) (self fr1) = Some (VMsg a cty cflds)) as Hget1.
  { rewrite <- Hget.
    apply (exec_body_field_other prog (ResetVT prog fuel) (mGoIdent msg)
             (fieldsStmts cfg 0 pre) (fGoName f) (mkFrame flds ∅ ∅ P) fr1);
      [|exact HA].
    apply fieldsStmts_field_other. by apply Forall_app in Hn as [? _]. }
  unfold exec_stmt in HB. rewrite Hget1 in HB. simpl in HB.
  apply bind_Done in HB as ([c' P2] & Hc & HB).
  apply bind_Done in Hc as ([c1 P3] & Hc & Hc'). injection Hc' as <- <-.
  done_inv HB.
  exists (VMsg addr (mGoIdent msg) (self fr)), (pool_state fr), (self fr), c1.
  split; [done|]. split; [done|]. split; [by exists (pool_state fr1), P3|].
  split.
  - apply (exec_body_grows prog (ResetVT prog fuel) (mGoIdent msg)
             (ResetVT_grows prog fuel)) in Hbody.
    apply Hbody. simpl. apply poolPut_holds.
  - rewrite (other_field_when_done cfg o prog (ResetVT prog fuel) msg pre f post
               flds P fr Hord Hwf Hzero E Hn Hout Hns Hex).
    f_equal. unfold zeroValue. rewrite Hl, Hmap. simpl.
    destruct (FieldGoType f) as [[? []]|]; try done. by destruct (fKind f).
Qed.

Lemma singular_child_witness :
  ∃ m' P' flds' c',
    ResetVT Sample.prog 3 Sample.parent ∅ = Done (m', P')
    ∧ m' = VMsg 1 "Parent" flds'
    ∧ c' ∈ default [] (P' !! "Item")
    ∧ getField "Child" flds' = Some VNil.
Proof.
  assert (forallb wellFormed (universe [Sample.Item; Sample.Plain; Sample.Parent])
          = true) as HU by (vm_compute; reflexivity).
  assert (instanceFits Sample.cfg
            (universe [Sample.Item; Sample.Plain; Sample.Parent]) 3
            (VMsg 1 (mGoIdent Sample.Parent) Sample.parentFields) = true)
    as Hfit by (vm_compute; reflexivity).
  assert (mkField "Child" "Child" MessageKind false false true false None
            (Some Sample.Item) None ∈ mFields Sample.Parent) as Hin.
  { do 4 apply list_elem_of_further. apply list_elem_of_here. }
  destruct (singular_child_returned_to_pool
              Sample.cfg (universe [Sample.Item; Sample.Plain; Sample.Parent])
              Sample.prog Sample.Parent
              (mkField "Child" "Child" MessageKind false false true false None
                 (Some Sample.Item) None)
              2 1 Sample.parentFields ∅ 5 "Item"
              [ ("Name", VStr "c"); ("Data", Sample.bytes 15 2 [8; 9]) ]
              sample_generated HU eq_refl Hfit Hin
              eq_refl eq_refl eq_refl eq_refl eq_refl eq_refl)
    as (m' & P' & flds' & c' & Hrun & -> & _ & Hpool & Hnil).
  exists (VMsg 1 "Parent" flds'), P', flds', c'.
  split; [exact Hrun|]. split; [reflexivity|]. split; [exact Hpool|exact Hnil].
Defined.

(** ** What [pool.GenerateFile] prints and returns *)

Lemma messages_once cfg o (ms : list Message) :
  (∀ m p, In m ms →
     once (message cfg o m p)
     = once p || existsb (generates cfg) (allMessages m)) →
  ∀ p, once (fold_left (fun p nested => message cfg o nested p) ms p)
       = once p || existsb (generates cfg) (concat (map allMessages ms)).
Proof.
  induction ms as [|m ms IH]; intros Hm p; simpl.
  { by rewrite orb_false_r. }
  rewrite IH by (intros; apply Hm; by right).
  rewrite Hm by (by left).
  by rewrite existsb_app, orb_assoc.
Qed.

Lemma message_once cfg o msg : ∀ p,
  once (message cfg o msg p)
  = once p || existsb (generates cfg) (allMessages msg).
Proof.
  induction msg as [msg Hnested] using Message_nested_ind. intros p.
  rewrite message_eq, allMessages_eq. cbn zeta.
  rewrite Forall_forall in Hnested.
  assert (∀ p, once (fold_left (fun p nested => message cfg o nested p)
                               (mMessages msg) p)
               = once p || existsb (generates cfg)
                             (concat (map allMessages (mMessages msg))))
    as Hfold.
  { apply messages_once. intros m p' Hin. apply Hnested. by apply list_elem_of_In. }
  rewrite existsb_app. cbn [existsb]. rewrite orb_false_r.
  unfold generates.
  destruct (mIsMapEntry msg || negb (ShouldPool cfg (Some msg))); cbn [negb andb].
  { by rewrite Hfold, orb_false_r. }
  destruct (IsOpaque msg); cbn [negb andb once].
  { by rewrite Hfold, orb_false_r. }
  by rewrite !orb_true_r.
Qed.

(** [pool.GenerateFile] prints pool code for exactly the messages of the
    file, nested ones included, that are not map entries, are
    pool-eligible and do not use the opaque API; a message nested in
    another comes before it, otherwise the order is that of the
    declarations; and it returns true exactly when there is at least one
    such message. *)
Theorem generate_file_prints_eligible_messages cfg o messages :
  output (GenerateFile cfg o messages)
  = map (codeOf cfg o)
        (filter (fun m => generates cfg m = true) (universe messages))
  ∧ once (GenerateFile cfg o messages)
    = existsb (generates cfg) (universe messages)
  ∧ (∀ m, generates cfg m = true ↔
          mIsMapEntry m = false ∧ ShouldPool cfg (Some m) = true
          ∧ mAPILevel m ≠ API_OPAQUE)
  ∧ (∀ m, allMessages m = concat (map allMessages (mMessages m)) ++ [m]).
Proof.
  split; [apply GenerateFile_output|]. split.
  - unfold GenerateFile, universe.
    rewrite messages_once; [done|]. intros; apply message_once.
  - split; [|apply allMessages_eq].
    intros m. unfold generates, IsOpaque.
    rewrite andb_true_iff, !negb_true_iff, orb_false_iff, negb_false_iff,
      bool_decide_eq_false.
    tauto.
Qed.

(** Where no message has two oneofs that hold bytes, the text of the
    generated file does not depend on the order the map loops take. *)
Theorem generation_order_free_below_two_groups cfg o o' messages :
  validOrders o → validOrders o' →
  Forall (fun m => (size (oneofGroups (oneofBytesOf m)) ≤ 1)%nat)
         (universe messages) →
  render (GenerateFile cfg o messages) = render (GenerateFile cfg o' messages).
Proof.
  intros Ho Ho' Hall. unfold render. rewrite !GenerateFile_output.
  rewrite Forall_forall in Hall.
  rewrite (map_ext_in (codeOf cfg o) (codeOf cfg o')); [done|].
  intros m Hm. apply list_elem_of_In, list_elem_of_filter in Hm as [_ Hm].
  unfold codeOf. by rewrite (resetBody_one_group cfg o o' m Ho Ho' (Hall m Hm)).
Qed.

Lemma generation_order_free_witness :
  render (GenerateFile Sample.cfg Sample.forwards
            [Sample.Item; Sample.Plain; Sample.Parent])
  = render (GenerateFile Sample.cfg Sample.backwards
              [Sample.Item; Sample.Plain; Sample.Parent]).
Proof.
  apply (generation_order_free_below_two_groups Sample.cfg
           Sample.forwards Sample.backwards
           [Sample.Item; Sample.Plain; Sample.Parent]
           forwards_valid backwards_valid).
  change (universe [Sample.Item; Sample.Plain; Sample.Parent])
    with [Sample.Item; Sample.Plain; Sample.Parent].
  repeat (apply Forall_cons; split; [vm_compute; lia|]). constructor.
Defined.

(** ** Locals of the printed body *)

Lemma omap_none {A B} (f : A → option B) l :
  Forall (fun x => f x = None) l → omap f l = [].
Proof. induction 1 as [|x l Hx _ IH]; simpl; [done|]. by rewrite Hx. Qed.

Lemma omap_map_Some {A B C} (h : B → option C) (k : A → B) (g : A → C) l :
  (∀ x, h (k x) = Some (g x)) → omap h (map k l) = map g l.
Proof.
  intros H. induction l as [|x l IH]; [done|].
  simpl. rewrite H. f_equal. exact IH.
Qed.

Lemma fieldStmts_declares cfg k f :
  omap writesLocal (fieldStmts cfg k f) = if savedField f then [k] else [].
Proof.
  unfold fieldStmts, savedField.
  destruct (fIsList f); [by destruct (fKind f)|].
  destruct (inRealOneof f); simpl.
  - destruct (fKind f); try done; by destruct (ShouldPool cfg (fMessage f)).
  - destruct (fKind f); try done;
      by destruct (negb (fIsMap f) && ShouldPool cfg (fMessage f)).
Qed.

Lemma fieldsStmts_declares cfg fs : ∀ k,
  omap writesLocal (fieldsStmts cfg k fs)
  = seq k (length (filter (fun f => savedField f = true) fs)).
Proof.
  induction fs as [|f fs IH]; intros k; simpl; [done|].
  rewrite omap_app, fieldStmts_declares, IH, filter_cons.
  case_decide as Hs.
  - by rewrite Hs.
  - by destruct (savedField f).
Qed.

Lemma restoreSaved_reads saved : ∀ i,
  omap readsLocal (imap (fun j g => SRestore (fGoName g) (i + j)) saved)
  = seq i (length saved).
Proof.
  induction saved as [|g saved IH]; intros i; simpl; [done|].
  rewrite Nat.add_0_r. f_equal.
  erewrite imap_ext; [apply (IH (S i))|].
  intros j x _. simpl. f_equal. lia.
Qed.

(** The printed body declares each local once and before [m.Reset()],
    and reads each once and after it: the handles [f0], [f1], ... are
    numbered in the order of the fields they save, and there is one
    [saved<Oneof>] per oneof that holds bytes, whatever order the map
    loops take.  So no [:=] or [var] of the body redeclares a name and
    no local is left unused. *)
Theorem locals_declared_once cfg o msg :
  validOrders o →
  ∃ pre post,
    resetBody cfg o msg = pre ++ SReset :: post
    ∧ omap writesLocal pre = seq 0 (length (savedOf msg))
    ∧ omap readsLocal post = seq 0 (length (savedOf msg))
    ∧ omap readsLocal pre = [] ∧ omap writesLocal post = []
    ∧ NoDup (omap writesSaved pre)
    ∧ omap readsSaved post ≡ₚ omap writesSaved pre
    ∧ omap readsSaved pre = [] ∧ omap writesSaved post = [].
Proof.
  intros [Hso Hro]. rewrite resetBody_spec.
  set (groups := oneofGroups (oneofBytesOf msg)).
  set (saves := if bool_decide (0 < length (oneofBytesOf msg))
                then map (saveGroup (mGoIdent msg)) (saveOrder o groups) else []).
  set (restores := if bool_decide (0 < length (oneofBytesOf msg))
                   then map (fun g => SOneofRestore g.1) (restoreOrder o groups)
                   else []).
  exists (fieldsStmts cfg 0 (mFields msg) ++ saves),
    (restoreSaved (savedOf msg) ++ restores).
  assert (∀ {B} (h : stmt → option B),
            (∀ s, loopStmt s = true → h s = None) →
            omap h (fieldsStmts cfg 0 (mFields msg)) = []) as Hloop.
  { intros B h Hh. apply omap_none.
    eapply Forall_impl; [apply fieldsStmts_loopStmt|]. exact Hh. }
  assert (∀ {B} (h : stmt → option B),
            (∀ O T c, h (SOneofSave O T c) = None) → omap h saves = []) as Hsaves.
  { intros B h Hh. unfold saves. case_bool_decide; [|done].
    apply omap_none, Forall_forall. intros s Hs.
    apply list_elem_of_In, in_map_iff in Hs as (g & <- & _). apply Hh. }
  assert (∀ {B} (h : stmt → option B),
            (∀ F n, h (SRestore F n) = None) →
            omap h (restoreSaved (savedOf msg)) = []) as Hrs.
  { intros B h Hh. apply omap_none, Forall_forall. intros s Hs.
    unfold restoreSaved in Hs.
    apply elem_of_lookup_imap in Hs as (j & g & -> & _). apply Hh. }
  assert (∀ {B} (h : stmt → option B),
            (∀ O, h (SOneofRestore O) = None) → omap h restores = []) as Hrest.
  { intros B h Hh. unfold restores. case_bool_decide; [|done].
    apply omap_none, Forall_forall. intros s Hs.
    apply list_elem_of_In, in_map_iff in Hs as (g & <- & _). apply Hh. }
  assert (omap writesSaved saves
          = if bool_decide (0 < length (oneofBytesOf msg))
            then (saveOrder o groups).*1 else []) as Hws.
  { unfold saves. case_bool_decide; [|done]. by apply omap_map_Some. }
  assert (omap readsSaved restores
          = if bool_decide (0 < length (oneofBytesOf msg))
            then (restoreOrder o groups).*1 else []) as Hrr.
  { unfold restores. case_bool_decide; [|done]. by apply omap_map_Some. }
  rewrite !omap_app.
  rewrite fieldsStmts_declares.
  rewrite (Hsaves _ writesLocal), (Hsaves _ readsLocal), (Hsaves _ readsSaved) by done.
  rewrite (Hloop _ readsLocal), (Hloop _ writesSaved), (Hloop _ readsSaved)
    by (by intros []).
  rewrite (Hrs _ writesLocal), (Hrs _ readsSaved), (Hrs _ writesSaved) by done.
  rewrite (Hrest _ writesLocal), (Hrest _ readsLocal), (Hrest _ writesSaved) by done.
  rewrite Hws, Hrr, !app_nil_r. simpl.
  split_and!; try done.
  - by rewrite <- !app_assoc.
  - apply (restoreSaved_reads (savedOf msg) 0).
  - case_bool_decide; [by apply range_NoDup|apply NoDup_nil_2].
  - case_bool_decide; [|done]. by rewrite (Hso groups), (Hro groups).
Qed.

Lemma locals_declared_once_witness :
  ∃ pre post,
    resetBody Sample.cfg Sample.backwards Sample.Parent = pre ++ SReset :: post
    ∧ omap writesLocal pre = [0; 1; 2; 3]
    ∧ omap readsLocal post = [0; 1; 2; 3]
    ∧ NoDup (omap writesSaved pre)
    ∧ omap readsSaved post ≡ₚ omap writesSaved pre.
Proof.
  destruct (locals_declared_once Sample.cfg Sample.backwards Sample.Parent
              backwards_valid)
    as (pre & post & E & Hw & Hr & _ & _ & Hnd & Hp & _).
  exists pre, post. split; [exact E|]. split; [exact Hw|].
  split; [exact Hr|]. split; [exact Hnd|exact Hp].
Defined.

(** ** Helpers of the generator *)

(** [ShouldPool]: the exclusion list wins over the list of poolable
    types and over the [mempool] option of the message; a nil message
    is never pooled. *)
Theorem should_pool_precedence cfg message :
  ShouldPool cfg message = true ↔
  ∃ msg, message = Some msg
         ∧ (mGoIdent msg ∉ PoolableExclude cfg)
         ∧ (mGoIdent msg ∈ Poolable cfg ∨ mMempool msg = Some true).
Proof.
  destruct message as [msg|]; simpl.
  2:{ split; [done|]. by intros (m & [=] & _). }
  unfold Contains. split.
  - intros H. exists msg. split; [done|].
    case_bool_decide; [done|]. split; [done|].
    case_bool_decide; [by left|]. right.
    destruct (mMempool msg) as [[]|]; done.
  - intros (m & [= <-] & Hex & Hin).
    rewrite bool_decide_eq_false_2 by done.
    case_bool_decide; [done|]. destruct Hin as [? | ->]; done.
Qed.

(** Every message is on exactly one of the three API levels the
    generator tells apart, an unspecified level counting as open, and
    accessors are in use exactly off the open level. *)
Theorem api_levels_partition message :
  ((IsOpen message = true ∧ IsHybrid message = false ∧ IsOpaque message = false)
   ∨ (IsOpen message = false ∧ IsHybrid message = true ∧ IsOpaque message = false)
   ∨ (IsOpen message = false ∧ IsHybrid message = false ∧ IsOpaque message = true))
  ∧ UsesAccessors message = negb (IsOpen message).
Proof.
  unfold UsesAccessors, IsOpen, IsHybrid, IsOpaque.
  destruct (mAPILevel message); (split; [|reflexivity]).
  - left. by split_and!.
  - left. by split_and!.
  - right. left. by split_and!.
  - right. right. by split_and!.
Qed.

(** [FieldGoType] reports a pointer exactly for a singular field with
    presence that is neither weak nor a map and whose kind is a scalar
    other than bytes: bytes, messages, repeated fields and maps are
    never held through a pointer of their own.  Off maps, it fails only
    on an enum field without its enum or a message field without its
    message. *)
Theorem field_go_type_pointer field :
  ((∃ t, FieldGoType field = Some (t, true)) ↔
     fIsWeak field = false ∧ fHasPresence field = true
     ∧ fIsList field = false ∧ fIsMap field = false
     ∧ fKind field ≠ BytesKind ∧ isMessageKind (fKind field) = false
     ∧ (fKind field = EnumKind → fEnum field ≠ None))
  ∧ (fIsMap field = false →
     (FieldGoType field = None ↔
        fIsWeak field = false
        ∧ ((fKind field = EnumKind ∧ fEnum field = None)
           ∨ (isMessageKind (fKind field) = true ∧ fMessage field = None)))).
Proof.
  destruct field as [n id k l m p w oo om oe]. simpl. split.
  - split.
    + intros [t H]. destruct w; [done|].
      destruct k, oe, om, l, m, p; simpl in H; try done;
        repeat case_match; simplify_eq; by split_and!.
    + intros (-> & -> & -> & -> & Hb & Hk & He).
      destruct k; try done; try (by eexists).
      destruct oe; [by eexists|]. by specialize (He eq_refl).
  - intros ->. split.
    + intros H. destruct w; [done|]. split; [done|].
      destruct k, oe, om, l; simpl in H; try done; auto.
    + intros (-> & [[-> ->]|[Hk ->]]); [done|]. by destruct k.
Qed.

(** [Alloc] and the [pool] feature: where [Alloc] prints a call of
    [<T>FromVTPool], for a message of the files that is no map entry
    and does not use the opaque API, [pool.GenerateFile] prints the
    declaration of that function. *)
Theorem alloc_calls_a_printed_function cfg o qualified vname msg messages :
  msg ∈ universe messages →
  mIsMapEntry msg = false →
  mAPILevel msg ≠ API_OPAQUE →
  ShouldPool cfg (Some msg) = true →
  Alloc cfg qualified vname msg false
    = (vname ++ " := " ++ mGoIdent msg ++ "FromVTPool()")%string
  ∧ In ("func " ++ mGoIdent msg ++ "FromVTPool() *" ++ mGoIdent msg ++ "{")%string
       (render (GenerateFile cfg o messages)).
Proof.
  intros Hin Hmap Hapi Hpool. split.
  { unfold Alloc. by rewrite Hpool. }
  assert (generates cfg msg = true) as Hgen.
  { unfold generates, IsOpaque. rewrite Hmap, Hpool. simpl.
    by rewrite bool_decide_eq_false_2. }
  unfold render. rewrite GenerateFile_output.
  apply in_concat. exists (render_message (codeOf cfg o msg)). split.
  - apply in_map, in_map. apply list_elem_of_In.
    by apply list_elem_of_filter.
  - unfold render_message, codeOf. cbn [pcType pcBody].
    apply in_or_app. right. apply in_or_app. right.
    simpl. do 8 right. by left.
Qed.

Lemma alloc_calls_witness :
  Alloc Sample.cfg (fun g => g) "v" Sample.Item false = "v := ItemFromVTPool()"
  ∧ In "func ItemFromVTPool() *Item{"
       (render (GenerateFile Sample.cfg Sample.forwards
                  [Sample.Item; Sample.Plain; Sample.Parent])).
Proof.
  apply (alloc_calls_a_printed_function Sample.cfg Sample.forwards (fun g => g) "v"
           Sample.Item [Sample.Item; Sample.Plain; Sample.Parent]).
  - apply list_elem_of_here.
  - reflexivity.
  - discriminate.
  - reflexivity.
Defined.

(** The other way round it does not hold: for a pool-eligible message
    that uses the opaque API, [Alloc] prints the call while
    [pool.message] prints nothing for the message. *)
Theorem alloc_opaque_calls_unprinted_function cfg o qualified vname msg p :
  ShouldPool cfg (Some msg) = true →
  IsOpaque msg = true →
  Alloc cfg qualified vname msg false
    = (vname ++ " := " ++ mGoIdent msg ++ "FromVTPool()")%string
  ∧ output (message cfg o msg p)
    = output (fold_left (fun p nested => message cfg o nested p) (mMessages msg) p)
  ∧ generates cfg msg = false.
Proof.
  intros Hpool Hop. split; [unfold Alloc; by rewrite Hpool|]. split.
  - rewrite message_eq. cbn zeta. rewrite Hpool, Hop.
    by destruct (mIsMapEntry msg).
  - unfold generates. rewrite Hop. apply andb_false_r.
Qed.

Lemma alloc_opaque_witness :
  Alloc Sample.cfg (fun g => g) "v"
    (mkMessage "Op" (Some true) false API_OPAQUE [] []) false
    = "v := OpFromVTPool()"
  ∧ render (GenerateFile Sample.cfg Sample.forwards
              [mkMessage "Op" (Some true) false API_OPAQUE [] []]) = [].
Proof.
  destruct (alloc_opaque_calls_unprinted_function Sample.cfg Sample.forwards
              (fun g => g) "v" (mkMessage "Op" (Some true) false API_OPAQUE [] [])
              (mkPool false []) eq_refl eq_refl) as (Hcall & Hout & _).
  split; [exact Hcall|]. unfold render, GenerateFile.
  cbn [fold_left]. rewrite Hout. reflexivity.
Defined.

(** ** Instances at rest *)

Lemma setField_same n v fs : getField n fs = Some v → setField n v fs = Some fs.
Proof.
  induction fs as [|[k w] fs IH]; simpl; [done|].
  destruct (String.eqb k n); [by intros [= ->]|].
  intros H. by rewrite (IH H).
Qed.

Lemma emptied_truncate v : emptied v = true → truncate v = Some v.
Proof.
  destruct v as [| | |arr len store| | |]; try done. simpl.
  destruct len; [done|]. done.
Qed.

Lemma truncate_emptied v t : truncate v = Some t → emptied t = true.
Proof. destruct v; simpl; intros [= <-]; done. Qed.

Section Resting.
Variable cfg : Config.
Variable msg : Message.
Variable prog : program.
Variable rec : value → pools → outcome (value * pools).
Variable ty : GoIdent.

(** On a field at rest the statements of the field loop change
    neither the instance nor the pools; they put the handle in its
    local. *)
Lemma fieldStmts_noop k f flds L SO P v :
  getField (structName f) flds = Some v →
  restingSlot cfg msg f v = true →
  exec_body prog rec ty (fieldStmts cfg k f) (mkFrame flds L SO P)
  = Done (mkFrame flds (if savedField f then <[ k := v ]> L else L) SO P).
Proof.
  intros Hv Hrest. unfold restingSlot in Hrest.
  unfold fieldStmts, savedField, structName in *.
  destruct (fIsList f).
  - (* repeated *)
    assert (exec_stmt prog rec ty (SSave k (fGoName f)) (mkFrame flds L SO P)
            = Done (mkFrame flds (<[ k := v ]> L) SO P)) as Hsave.
    { unfold exec_stmt. simpl. rewrite Hv. simpl.
      by rewrite (emptied_truncate v Hrest). }
    assert (∀ b, exec_stmt prog rec ty (SRangeReset (fGoName f) b)
                   (mkFrame flds L SO P) = Done (mkFrame flds L SO P)) as Hrange.
    { intros b. unfold exec_stmt. simpl. rewrite Hv. simpl.
      destruct v as [| | |arr len store| | |]; try done.
      destruct len; [|done]. rewrite take_0, drop_0. simpl.
      by rewrite (setField_same _ _ _ Hv). }
    assert (exec_stmt prog rec ty (SClear (fGoName f)) (mkFrame flds L SO P)
            = Done (mkFrame flds L SO P)) as Hclear.
    { unfold exec_stmt. simpl. rewrite Hv. simpl.
      destruct v as [| | |arr len store| | |]; try done; simpl.
      - by rewrite (setField_same _ _ _ Hv).
      - destruct len; [|done]. rewrite take_0, drop_0. simpl.
        by rewrite (setField_same _ _ _ Hv). }
    destruct (fKind f); simpl; rewrite ?Hrange, ?Hclear; simpl;
      by rewrite Hsave.
  - destruct (inRealOneof f); simpl.
    + (* a member of a oneof *)
      destruct (fKind f) eqn:Ek; try done;
        (destruct (ShouldPool cfg (fMessage f)); [|done]); simpl;
        unfold exec_stmt; simpl; rewrite Hv; simpl;
        destruct v as [| | | | |a W p|]; try done;
        destruct (String.eqb W (fGoIdent f)); try done;
        rewrite andb_false_r in Hrest; done.
    + destruct (fKind f) eqn:Ek; try done; simpl.
      * unfold exec_stmt. simpl. rewrite Hv. simpl.
        by rewrite (emptied_truncate v Hrest).
      * destruct (negb (fIsMap f) && ShouldPool cfg (fMessage f)); [|done].
        simpl. unfold exec_stmt. simpl. rewrite Hv. simpl.
        destruct v; try done. simpl. by rewrite (setField_same _ _ _ Hv).
      * destruct (negb (fIsMap f) && ShouldPool cfg (fMessage f)); [|done].
        simpl. unfold exec_stmt. simpl. rewrite Hv. simpl.
        destruct v; try done. simpl. by rewrite (setField_same _ _ _ Hv).
Qed.

Lemma fieldsStmts_noop fs : ∀ k flds L SO P,
  Forall (fun f => ∃ v, getField (structName f) flds = Some v
                        ∧ restingSlot cfg msg f v = true) fs →
  ∃ L', exec_body prog rec ty (fieldsStmts cfg k fs) (mkFrame flds L SO P)
        = Done (mkFrame flds L' SO P)
        ∧ (∀ i, (i < k)%nat → L' !! i = L !! i)
        ∧ (∀ j f, filter (fun f => savedField f = true) fs !! j = Some f →
             L' !! (k + j) = getField (fGoName f) flds).
Proof.
  induction fs as [|f fs IH]; intros k flds L SO P Hall; cbn [fieldsStmts].
  { exists L. split; [done|]. split; [done|]. intros j f Hj. done. }
  apply Forall_cons in Hall as [(v & Hv & Hrest) Hall].
  rewrite exec_body_app, (fieldStmts_noop k f flds L SO P v Hv Hrest).
  cbn [mbind outcome_bind].
  destruct (IH (if savedField f then S k else k) flds
              (if savedField f then <[ k := v ]> L else L) SO P Hall)
    as (L' & Hrun & Hlow & Hsaved).
  exists L'. split; [done|]. split.
  - intros i Hi.
    assert (i < if savedField f then S k else k)%nat as Hi'
      by (destruct (savedField f); lia).
    rewrite (Hlow i Hi').
    destruct (savedField f); [|done]. apply lookup_insert_ne. lia.
  - intros j g Hj. rewrite filter_cons in Hj.
    destruct (savedField f) eqn:Es.
    + rewrite decide_True in Hj by done.
      destruct j as [|j]; simpl in Hj.
      * injection Hj as <-. rewrite Nat.add_0_r.
        rewrite (Hlow k) by lia.
        rewrite lookup_insert_eq. by rewrite <- (savedField_structName f Es).
      * replace (k + S j) with (S k + j) by lia. by apply Hsaved.
    + rewrite decide_False in Hj by done. by apply Hsaved.
Qed.

(** On oneof slots at rest the saves change neither the instance nor
    the pools; each [saved<Oneof>] holds what its slot holds. *)
Lemma saves_noop T gs : ∀ flds L SO P,
  NoDup gs.*1 →
  Forall (fun g : string * list Field =>
            ∃ v, getField g.1 flds = Some v
                 ∧ (v = VNil
                    ∨ ∃ a h p, v = VWrap a (fGoIdent h) p ∧ h ∈ g.2
                               ∧ emptied p = true)) gs →
  ∃ SO', exec_body prog rec ty (map (saveGroup T) gs) (mkFrame flds L SO P)
         = Done (mkFrame flds L SO' P)
         ∧ (∀ O, O ∉ gs.*1 → SO' !! O = SO !! O)
         ∧ (∀ O, O ∈ gs.*1 → SO' !! O = getField O flds).
Proof.
  induction gs as [|[O grp] gs IH]; intros flds L SO P Hnd Hall; simpl.
  { exists SO. split; [done|]. split; [done|]. intros O HO.
    by apply not_elem_of_nil in HO. }
  simpl in Hnd. apply NoDup_cons in Hnd as [Hnotin Hnd].
  apply Forall_cons in Hall as [(v & Hv & Hshape) Hall]. simpl in Hv, Hshape.
  assert (exec_stmt prog rec ty (saveGroup T (O, grp)) (mkFrame flds L SO P)
          = Done (mkFrame flds L (<[ O := v ]> SO) P)) as Hstep.
  { unfold saveGroup, exec_stmt. cbn [fst snd self]. rewrite Hv.
    cbn [mbind outcome_bind ofOption].
    destruct Hshape as [->|(a & h & p & -> & Hh & Hp)]; [done|].
    assert (is_Some (matchCase
              (map (fun field => (fGoIdent field, fGoName field)) grp)
              (fGoIdent h))) as [c Hc].
    { unfold matchCase.
      destruct (List.find _ _) eqn:E; [by eexists|]. exfalso.
      eapply List.find_none in E.
      2:{ apply in_map_iff. exists h. split; [done|]. by apply list_elem_of_In. }
      simpl in E. by rewrite String.eqb_refl in E. }
    rewrite Hc, (emptied_truncate p Hp). cbn [mbind outcome_bind ofOption].
    by rewrite (setField_same _ _ _ Hv). }
  rewrite Hstep. simpl.
  destruct (IH flds L (<[ O := v ]> SO) P Hnd Hall) as (SO' & Hrun & Hout & Hin).
  exists SO'. split; [done|]. split.
  - intros O' HO'. apply not_elem_of_cons in HO' as [Hne HO'].
    rewrite Hout by done. by apply lookup_insert_ne.
  - intros O' HO'. apply elem_of_cons in HO' as [->|HO'].
    + rewrite Hout by done. by rewrite lookup_insert_eq.
    + by apply Hin.
Qed.
End Resting.

Lemma restore_oneofs_pools prog rec ty names : ∀ fr fr',
  exec_body prog rec ty (map SOneofRestore names) fr = Done fr' →
  pool_state fr' = pool_state fr.
Proof.
  induction names as [|O names IH]; intros fr fr' H; simpl in H.
  - by done_inv H.
  - done_inv H. rewrite (IH _ _ H). by exec_inv Ha.
Qed.

(** What [saved<Oneof>] holds after the saves: nil, or the wrapper of a
    member of the group around bytes of length zero. *)
Lemma save_groups_saved prog rec ty T l O grp : ∀ fr fr',
  NoDup l.*1 → (O, grp) ∈ l →
  exec_body prog rec ty (map (saveGroup T) l) fr = Done fr' →
  ∃ v, savedOneof fr' !! O = Some v
       ∧ (v = VNil
          ∨ ∃ a h p, v = VWrap a (fGoIdent h) p ∧ h ∈ grp ∧ emptied p = true).
Proof.
  induction l as [|[O' grp'] l IH]; intros fr fr' Hnd Hin H.
  { by apply not_elem_of_nil in Hin. }
  simpl in Hnd. apply NoDup_cons in Hnd as [Hnotin Hnd].
  simpl in H. done_inv H.
  apply elem_of_cons in Hin as [[= <- <-]|Hin]; [|by eapply IH].
  destruct (save_groups_other _ _ _ _ _ _ _ _ Hnotin H) as [_ ->].
  unfold saveGroup in Ha; simpl in Ha. unfold exec_stmt in Ha.
  apply bind_Done in Ha as (v0 & _ & Ha).
  destruct v0 as [| | | | |ad W p|]; try done.
  - done_inv Ha. simpl. rewrite lookup_insert_eq. eauto.
  - destruct (matchCase _ W) as [c|] eqn:Hc.
    2:{ done_inv Ha. simpl. rewrite lookup_insert_eq. eauto. }
    apply bind_Done in Ha as (p' & Hp' & Ha). apply ofOption_Done in Hp'.
    done_inv Ha. simpl. rewrite lookup_insert_eq.
    eexists. split; [done|]. right.
    unfold matchCase in Hc. apply List.find_some in Hc as [Hc HW].
    apply in_map_iff in Hc as (h & <- & Hh). simpl in HW.
    apply String.eqb_eq in HW. subst W.
    exists ad, h, p'. split; [done|]. split; [by apply list_elem_of_In|].
    by eapply truncate_emptied.
Qed.

(** The struct literal [T{}] holds nil in the interface field of a
    oneof. *)
Lemma zeroStruct_oneof_nil fs f : ∀ seen,
  f ∈ fs → inRealOneof f = true → OneofGoName f ∉ seen →
  Forall (fun g => inRealOneof g = false → fGoName g ≠ OneofGoName f) fs →
  getField (OneofGoName f) (zeroStruct fs seen) = Some VNil.
Proof.
  induction fs as [|h fs IH]; intros seen Hf Hn Hs Hall.
  { by apply not_elem_of_nil in Hf. }
  apply Forall_cons in Hall as [Hh Hall]. simpl.
  destruct (inRealOneof h) eqn:Eh.
  - case_bool_decide as Hseen.
    + apply elem_of_cons in Hf as [<-|Hf]; [done|]. by apply IH.
    + simpl. destruct (String.eqb _ _) eqn:E; [done|].
      apply elem_of_cons in Hf as [<-|Hf]; [by rewrite String.eqb_refl in E|].
      apply IH; try done. apply not_elem_of_cons. split; [|done].
      intros E'. by rewrite E', String.eqb_refl in E.
  - simpl. destruct (String.eqb _ _) eqn:E.
    { apply String.eqb_eq in E. by specialize (Hh eq_refl). }
    apply elem_of_cons in Hf as [<-|Hf]; [congruence|]. by apply IH.
Qed.

Lemma zeroValue_message f :
  isMessageKind (fKind f) = true → zeroValue f = VNil.
Proof.
  unfold zeroValue. destruct (FieldGoType f) as [[? []]|]; try done.
  destruct (fIsList f || fIsMap f); [done|]. by destruct (fKind f).
Qed.

(** After the body has run, the slot of a oneof that has a bytes member
    holds nil, or the wrapper of one of its bytes members around bytes
    of length zero. *)
Lemma oneof_slot_run cfg o prog rec msg O grp flds P fr' :
  validOrders o →
  oneofGroups (oneofBytesOf msg) !! O = Some grp →
  exec_body prog rec (mGoIdent msg) (resetBody cfg o msg) (mkFrame flds ∅ ∅ P)
    = Done fr' →
  ∃ v, getField O (self fr') = Some v
       ∧ (v = VNil
          ∨ ∃ a h p, v = VWrap a (fGoIdent h) p ∧ h ∈ grp ∧ emptied p = true).
Proof.
  intros [Hso Hro] Hgrp H.
  assert (0 < length (oneofBytesOf msg)) as Hlen.
  { apply oneofGroups_key in Hgrp as (g & Hg & _).
    destruct (oneofBytesOf msg); [by apply not_elem_of_nil in Hg|simpl; lia]. }
  rewrite resetBody_spec in H.
  rewrite !bool_decide_eq_true_2 in H by done.
  apply exec_body_app_Done in H as (fr1 & HA & H).
  apply exec_body_app_Done in H as (fr2 & HB & H).
  simpl in H. apply bind_Done in H as (fr3 & HC & H).
  apply exec_body_app_Done in H as (fr4 & HD & HE).
  eapply (save_groups_saved _ _ _ _ _ O grp) in HB as (v & Hv & Hshape).
  2:{ by apply range_NoDup. }
  2:{ by apply range_elem. }
  exists v. split; [|done].
  apply exec_SReset in HC as (zero & _ & ->).
  apply restoreSaved_frame in HD as (_ & HD & _). simpl in HD.
  rewrite <- (map_map fst SOneofRestore) in HE.
  eapply (restore_oneofs _ _ _ _ O) in HE as (w & Hw & HE).
  2:{ by apply range_NoDup. }
  2:{ apply list_elem_of_fmap. exists (O, grp). split; [done|].
      by apply range_elem. }
  rewrite HE. rewrite HD, Hv in Hw. by injection Hw as <-.
Qed.

(** A member of a group of [oneofGroups] is a bytes member of the oneof
    the group is filed under. *)
Lemma oneofGroups_elem msg O grp h :
  oneofGroups (oneofBytesOf msg) !! O = Some grp → h ∈ grp →
  h ∈ mFields msg ∧ oneofBytesField h = true ∧ OneofGoName h = O.
Proof.
  intros Hgrp Hh. rewrite oneofGroups_lookup in Hgrp.
  destruct (decide _); [done|]. injection Hgrp as <-.
  apply list_elem_of_filter in Hh as [HO Hh].
  unfold oneofBytesOf in Hh. apply list_elem_of_filter in Hh as [Hb Hh]. done.
Qed.

Lemma oneofGroups_elem_of msg h :
  h ∈ mFields msg → oneofBytesField h = true →
  ∃ grp, oneofGroups (oneofBytesOf msg) !! OneofGoName h = Some grp ∧ h ∈ grp.
Proof.
  intros Hh Hb. apply oneofGroups_member. by apply list_elem_of_filter.
Qed.

(** Two members of one oneof whose wrappers have one name are one
    field. *)
Lemma wrapper_names msg f h :
  wellFormed msg = true → f ∈ mFields msg → h ∈ mFields msg →
  structName h = structName f → fGoIdent h = fGoIdent f → h = f.
Proof.
  intros Hwf Hf Hh Hn Hi. apply andb_prop in Hwf as [_ Hslots].
  apply list_elem_of_split in Hf as (pre & post & E).
  rewrite E in Hslots. apply distinctSlots_app in Hslots.
  rewrite Forall_forall in Hslots.
  assert (h ∈ pre ++ post ∨ h = f) as [Hin | Heq]; [|clear Hh|done].
  { rewrite E in Hh. apply elem_of_app in Hh as [Hh|Hh].
    - left. apply elem_of_app. by left.
    - apply elem_of_cons in Hh as [Hh|Hh]; [by right|].
      left. apply elem_of_app. by right. }
  apply Hslots in Hin. unfold compatible in Hin.
  rewrite Hn, String.eqb_refl, Hi, String.eqb_refl in Hin.
  by rewrite andb_false_r in Hin.
Qed.

(** After the body has run, the slot of a oneof that has no bytes
    member holds nil. *)
Lemma oneof_slot_zero cfg o prog rec msg f flds P fr :
  validOrders o →
  wellFormed msg = true →
  zeroOfType prog (mGoIdent msg) = Some (zeroStruct (mFields msg) []) →
  f ∈ mFields msg →
  fIsList f = false →
  inRealOneof f = true →
  oneofGroups (oneofBytesOf msg) !! OneofGoName f = None →
  exec_body prog rec (mGoIdent msg) (resetBody cfg o msg) (mkFrame flds ∅ ∅ P)
    = Done fr →
  getField (OneofGoName f) (self fr) = Some VNil.
Proof.
  intros Hord Hwf Hzero Hf El Eo Hgrp Hrun.
  assert (structName f = OneofGoName f) as En.
  { unfold structName. by rewrite El, Eo. }
  assert (savedField f = false) as Es.
  { unfold savedField. by rewrite El, Eo. }
  rewrite (resetBody_other_field cfg o prog rec msg flds P fr
             (OneofGoName f) (zeroStruct (mFields msg) []) Hord Hzero);
    [| | |exact Hrun].
  - apply zeroStruct_oneof_nil; try done; [apply not_elem_of_nil|].
    apply Forall_forall. intros g Hg Hgo E.
    assert (g ≠ f) as Hne by (intros ->; congruence).
    apply andb_prop in Hwf as [_ Hslots].
    pose proof (distinctSlots_elem _ g f Hslots Hg Hf Hne) as Hc.
    apply compatible_names in Hc; [|by left].
    rewrite (structName_outside g Hgo), En in Hc. congruence.
  - apply Forall_forall. intros g Hg E.
    unfold savedOf in Hg. apply list_elem_of_filter in Hg as [Hgs Hg].
    assert (g ≠ f) as Hne by (intros ->; congruence).
    pose proof Hwf as Hwf'. apply andb_prop in Hwf' as [_ Hslots].
    pose proof (distinctSlots_elem _ g f Hslots Hg Hf Hne) as Hc.
    apply compatible_names in Hc.
    + rewrite (savedField_structName g Hgs), En in Hc. congruence.
    + left. apply savedField_outside; [|done].
      by apply (wellFormed_lists msg).
  - apply Forall_forall. intros g Hg E.
    unfold oneofBytesOf in Hg. apply list_elem_of_filter in Hg as [Hgb Hg].
    destruct (oneofGroups_elem_of msg g Hg Hgb) as (grp & Hgrp' & _).
    rewrite E, Hgrp in Hgrp'. done.
Qed.

(** After the body has run, every field is at rest. *)
Lemma resetBody_rests cfg o prog rec msg flds P fr :
  validOrders o →
  wellFormed msg = true →
  zeroOfType prog (mGoIdent msg) = Some (zeroStruct (mFields msg) []) →
  exec_body prog rec (mGoIdent msg) (resetBody cfg o msg) (mkFrame flds ∅ ∅ P)
    = Done fr →
  resting cfg msg (self fr) = true.
Proof.
  intros Hord Hwf Hzero Hrun. unfold resting.
  apply forallb_forall. intros f Hf. apply list_elem_of_In in Hf.
  destruct (savedField f) eqn:Es.
  { (* a saved handle *)
    destruct (wellFormed_split msg f Hwf Hf Es) as (pre & post & E & Hn).
    destruct (saved_field_run cfg o prog rec msg pre post f Hord E Es Hn flds P fr Hrun)
      as (fr1 & fr2 & v & t & _ & _ & _ & _ & Ht & Hfin).
    rewrite (savedField_structName f Es), Hfin.
    apply truncate_emptied in Ht.
    unfold restingSlot. unfold savedField in Es.
    destruct (fIsList f); [done|]. simpl in Es.
    destruct (inRealOneof f); [done|]. simpl in Es.
    apply bool_decide_eq_true in Es. by rewrite Es. }
  assert (fIsList f = false) as El.
  { unfold savedField in Es. by destruct (fIsList f). }
  destruct (inRealOneof f) eqn:Eo.
  2:{ (* a field of its own that is not saved *)
    destruct (wellFormed_split_outside msg f Hwf Hf Eo) as (pre & post & E & Hn).
    rewrite (structName_outside f Eo).
    rewrite (other_field_when_done cfg o prog rec msg pre f post flds P fr
               Hord Hwf Hzero E Hn Eo Es Hrun).
    unfold restingSlot. rewrite El, Eo.
    unfold savedField in Es. rewrite El, Eo in Es. simpl in Es.
    apply bool_decide_eq_false in Es.
    destruct (fKind f) eqn:Ek; try done;
      (destruct (negb (fIsMap f) && ShouldPool cfg (fMessage f)); [|done]);
      rewrite zeroValue_message; try done; by rewrite Ek. }
  (* a member of a oneof *)
  assert (structName f = OneofGoName f) as En.
  { unfold structName. by rewrite El, Eo. }
  rewrite En.
  destruct (oneofGroups (oneofBytesOf msg) !! OneofGoName f) as [grp|] eqn:Hgrp.
  - destruct (oneof_slot_run cfg o prog rec msg _ grp flds P fr Hord Hgrp Hrun)
      as (v & -> & [->|(a & h & p & -> & Hh & Hp)]).
    { unfold restingSlot. by rewrite El, Eo. }
    destruct (oneofGroups_elem msg _ grp h Hgrp Hh) as (Hhm & Hhb & HhO).
    unfold restingSlot. rewrite El, Eo, Hp. simpl.
    apply andb_true_intro. split.
    + apply existsb_exists. exists h. split; [by apply list_elem_of_In|].
      rewrite Hhb, HhO, !String.eqb_refl. done.
    + destruct (String.eqb (fGoIdent h) (fGoIdent f)) eqn:Ei; [|done].
      apply String.eqb_eq in Ei.
      assert (h = f) as <-.
      { apply (wrapper_names msg); try done.
        by rewrite (oneofBytesField_structName h Hhb), En. }
      unfold oneofBytesField in Hhb. apply andb_prop in Hhb as [_ Hhb].
      by rewrite Hhb.
  - rewrite (oneof_slot_zero cfg o prog rec msg f flds P fr
               Hord Hwf Hzero Hf El Eo Hgrp Hrun).
    unfold restingSlot. by rewrite El, Eo.
Qed.

(** On an instance whose fields are at rest the body returns, puts
    nothing into a pool and leaves every saved handle and every oneof
    slot with a bytes member as it was. *)
Lemma resetBody_noop cfg o prog rec msg flds P :
  validOrders o →
  wellFormed msg = true →
  zeroOfType prog (mGoIdent msg) = Some (zeroStruct (mFields msg) []) →
  resting cfg msg flds = true →
  ∃ fr', exec_body prog rec (mGoIdent msg) (resetBody cfg o msg) (mkFrame flds ∅ ∅ P)
         = Done fr'
    ∧ pool_state fr' = P
    ∧ (∀ f, f ∈ savedOf msg →
            getField (fGoName f) (self fr') = getField (fGoName f) flds)
    ∧ (∀ O grp, oneofGroups (oneofBytesOf msg) !! O = Some grp →
                getField O (self fr') = getField O flds).
Proof.
  intros Hord Hwf Hzero Hrest. pose proof Hord as [Hso Hro].
  assert (Forall (fun f => ∃ v, getField (structName f) flds = Some v
                                ∧ restingSlot cfg msg f v = true) (mFields msg))
    as Hall.
  { apply Forall_forall. intros f Hf. unfold resting in Hrest.
    rewrite forallb_forall in Hrest. apply list_elem_of_In in Hf.
    specialize (Hrest f Hf). destruct (getField _ flds) as [v|]; [|done].
    by exists v. }
  assert (∀ f, f ∈ mFields msg → fIsList f = true → inRealOneof f = false) as Hout.
  { intros f Hf. by apply (wellFormed_lists msg). }
  (* the slots of the groups *)
  assert (∀ O grp, oneofGroups (oneofBytesOf msg) !! O = Some grp →
            0 < length (oneofBytesOf msg)
            ∧ ∃ v, getField O flds = Some v
                   ∧ (v = VNil
                      ∨ ∃ a h p, v = VWrap a (fGoIdent h) p ∧ h ∈ grp
                                 ∧ emptied p = true)) as Hslot.
  { intros O grp Hgrp.
    pose proof Hgrp as Hk. apply oneofGroups_key in Hk as (g & Hg & HO).
    split.
    { destruct (oneofBytesOf msg); [by apply not_elem_of_nil in Hg|simpl; lia]. }
    unfold oneofBytesOf in Hg. apply list_elem_of_filter in Hg as [Hgb Hg].
    rewrite Forall_forall in Hall. destruct (Hall g Hg) as (v & Hv & Hr).
    rewrite (oneofBytesField_structName g Hgb), HO in Hv.
    exists v. split; [done|].
    unfold restingSlot in Hr. unfold oneofBytesField in Hgb.
    destruct (fIsList g); [done|]. destruct (inRealOneof g); [|done].
    destruct v as [| | | | |a W p|]; try done; [by left|right].
    apply andb_prop in Hr as [Hr _]. apply andb_prop in Hr as [Hp Hex].
    apply existsb_exists in Hex as (h & Hh & Hex).
    apply andb_prop in Hex as [Hex HW]. apply andb_prop in Hex as [Hhb HhO].
    apply String.eqb_eq in HW, HhO. subst W.
    exists a, h, p. split; [done|]. split; [|done].
    rewrite oneofGroups_lookup in Hgrp.
    destruct (decide _); [done|]. injection Hgrp as <-.
    apply list_elem_of_filter. split; [congruence|].
    apply list_elem_of_filter. split; [done|]. by apply list_elem_of_In. }
  (* the field loop *)
  destruct (fieldsStmts_noop cfg msg prog rec (mGoIdent msg) (mFields msg) 0 flds ∅ ∅ P Hall)
    as (L' & Hrun1 & _ & HL).
  (* the saves of the oneof groups *)
  assert (∃ SO',
    exec_body prog rec (mGoIdent msg)
      (if bool_decide (0 < length (oneofBytesOf msg)) then
         map (saveGroup (mGoIdent msg)) (saveOrder o (oneofGroups (oneofBytesOf msg)))
       else []) (mkFrame flds L' ∅ P) = Done (mkFrame flds L' SO' P)
    ∧ (∀ O grp, oneofGroups (oneofBytesOf msg) !! O = Some grp →
         SO' !! O = getField O flds)) as (SO' & Hrun2 & Hsaved2).
  { case_bool_decide as Hlen.
    2:{ exists ∅. split; [done|]. intros O grp Hgrp.
        destruct (Hslot O grp Hgrp) as [? _]. lia. }
    destruct (saves_noop prog rec (mGoIdent msg) (mGoIdent msg)
                (saveOrder o (oneofGroups (oneofBytesOf msg))) flds L' ∅ P)
      as (SO' & Hrun2 & _ & Hin).
    { by apply range_NoDup. }
    { apply Forall_forall. intros [O grp] Hin. simpl.
      apply (range_elem _ Hso) in Hin. by destruct (Hslot O grp Hin) as [_ ?]. }
    exists SO'. split; [done|]. intros O grp Hgrp. apply Hin.
    apply list_elem_of_fmap. exists (O, grp). split; [done|]. by apply range_elem. }
  (* the generic clear *)
  set (fr3 := mkFrame (zeroStruct (mFields msg) []) L' SO' P).
  assert (exec_stmt prog rec (mGoIdent msg) SReset (mkFrame flds L' SO' P) = Done fr3) as Hrun3.
  { unfold exec_stmt. simpl. by rewrite Hzero. }
  (* the handles are put back *)
  destruct (restoreSaved_returns prog rec (mGoIdent msg) (savedOf msg) 0 fr3) as (fr4 & Hrun4).
  { intros j Hj. simpl.
    destruct (lookup_lt_is_Some_2 (savedOf msg) j Hj) as [f Hjf].
    pose proof (HL j f Hjf) as HLj. simpl in HLj. rewrite HLj.
    apply list_elem_of_lookup_2 in Hjf. unfold savedOf in Hjf.
    apply list_elem_of_filter in Hjf as [Hs Hf].
    rewrite Forall_forall in Hall. destruct (Hall f Hf) as (v & Hv & _).
    rewrite (savedField_structName f Hs) in Hv. by rewrite Hv. }
  { apply Forall_forall. intros f Hf. simpl.
    unfold savedOf in Hf. apply list_elem_of_filter in Hf as [Hs Hf].
    apply zeroStruct_field; [done|]. apply savedField_outside; [|done].
    by apply Hout. }
  change (imap _ (savedOf msg)) with (restoreSaved (savedOf msg)) in Hrun4.
  destruct (restoreSaved_frame _ _ _ _ _ _ Hrun4) as (Hl4 & Hs4 & Hp4).
  simpl in Hl4, Hs4, Hp4.
  (* the wrappers are put back *)
  assert (∃ fr5,
    exec_body prog rec (mGoIdent msg)
      (if bool_decide (0 < length (oneofBytesOf msg)) then
         map (fun g => SOneofRestore g.1)
             (restoreOrder o (oneofGroups (oneofBytesOf msg)))
       else []) fr4 = Done fr5
    ∧ pool_state fr5 = P
    ∧ (∀ F, F ∉ (restoreOrder o (oneofGroups (oneofBytesOf msg))).*1 →
            getField F (self fr5) = getField F (self fr4))
    ∧ (∀ O grp, oneofGroups (oneofBytesOf msg) !! O = Some grp →
                getField O (self fr5) = getField O flds))
    as (fr5 & Hrun5 & Hp5 & Hother5 & Hslot5).
  { case_bool_decide as Hlen.
    2:{ exists fr4. split; [done|]. split; [done|]. split; [done|].
        intros O grp Hgrp. destruct (Hslot O grp Hgrp) as [? _]. lia. }
    rewrite <- (map_map fst SOneofRestore).
    destruct (restoreOneofs_returns prog rec (mGoIdent msg)
                (map fst (restoreOrder o (oneofGroups (oneofBytesOf msg)))) fr4)
      as (fr5 & Hrun5).
    { apply Forall_forall. intros O HO.
      apply list_elem_of_In, in_map_iff in HO as ([O' grp] & <- & Hin). simpl.
      apply list_elem_of_In, (range_elem _ Hro) in Hin.
      rewrite Hs4, (Hsaved2 O' grp Hin).
      destruct (Hslot O' grp Hin) as (_ & v & Hv & _). split; [by rewrite Hv|].
      eapply exec_body_names; [|exact Hrun4|].
      { unfold restoreSaved. apply Forall_forall. intros s Hs.
        apply elem_of_lookup_imap in Hs as (j & g & -> & _). done. }
      simpl. apply oneofGroups_key in Hin as (h & Hh & <-).
      unfold oneofBytesOf in Hh. apply list_elem_of_filter in Hh as [Hhb Hh].
      apply zeroStruct_oneof; [done| |apply not_elem_of_nil].
      unfold oneofBytesField in Hhb. by destruct (fIsList h), (inRealOneof h). }
    exists fr5. split; [done|]. split.
    { by rewrite (restore_oneofs_pools _ _ _ _ _ _ Hrun5). }
    split.
    { intros F HF. by eapply restore_oneofs_other. }
    intros O grp Hgrp.
    eapply (restore_oneofs _ _ _ _ O) in Hrun5 as (w & Hw & HE).
    2:{ by apply range_NoDup. }
    2:{ apply list_elem_of_fmap. exists (O, grp). split; [done|].
        by apply range_elem. }
    rewrite HE, <- Hw, Hs4. by eapply Hsaved2. }
  exists fr5. split.
  { rewrite resetBody_spec.
    rewrite exec_body_app, Hrun1. cbn [mbind outcome_bind].
    rewrite exec_body_app, Hrun2. cbn [mbind outcome_bind].
    cbn [app exec_body]. rewrite Hrun3. cbn [mbind outcome_bind].
    by rewrite exec_body_app, Hrun4. }
  split; [done|]. split; [|done].
  intros f Hf. unfold savedOf in Hf. apply list_elem_of_filter in Hf as [Hs Hf].
  destruct (wellFormed_split msg f Hwf Hf Hs) as (pre & post & E & Hn).
  pose proof Hn as Hn'. apply Forall_app in Hn' as [Hpre Hpost].
  rewrite Hother5 by (by apply (oneof_names_other msg pre post f)).
  assert (savedOf msg =
            filter (fun g => savedField g = true) pre
            ++ f :: filter (fun g => savedField g = true) post) as Hsv.
  { unfold savedOf. rewrite E, filter_app, filter_cons.
    by rewrite decide_True. }
  pose proof Hrun4 as Hrun4'. rewrite Hsv in Hrun4'.
  apply restore_saved in Hrun4' as (t & Ht & HG).
  2:{ apply Forall_forall. intros g Hg.
      apply list_elem_of_filter in Hg as [Hgs Hg].
      rewrite Forall_forall in Hpost. specialize (Hpost g Hg).
      by rewrite savedField_structName in Hpost. }
  rewrite HG, <- Ht. simpl.
  apply (HL (length (filter (fun g => savedField g = true) pre)) f).
  fold (savedOf msg). rewrite Hsv.
  by rewrite list_lookup_middle.
Qed.

(** ** The struct of an instance, field by field *)

Lemma setField_keys n v fs : ∀ fs', setField n v fs = Some fs' → fs'.*1 = fs.*1.
Proof.
  induction fs as [|[k w] fs IH]; intros fs' H; simpl in H; [done|].
  destruct (String.eqb k n); [by injection H as <-|].
  destruct (setField n v fs) as [fs1|]; [|done].
  injection H as <-. simpl. f_equal. by apply IH.
Qed.

Lemma exec_stmt_keys prog rec ty s fr fr' :
  s ≠ SReset →
  exec_stmt prog rec ty s fr = Done fr' → (self fr').*1 = (self fr).*1.
Proof.
  intros Hr H. destruct s; try done; exec_inv H; simpl; try done;
    eapply setField_keys; eassumption.
Qed.

Lemma exec_body_keys prog rec ty body : ∀ fr fr',
  Forall (fun s => s ≠ SReset) body →
  exec_body prog rec ty body fr = Done fr' → (self fr').*1 = (self fr).*1.
Proof.
  induction body as [|s body IH]; intros fr fr' Hall H; simpl in H.
  - by done_inv H.
  - apply Forall_cons in Hall as [Hs Hall]. done_inv H.
    rewrite (IH _ _ Hall H). by eapply exec_stmt_keys.
Qed.

(** After the body has run, the struct has the fields of [T{}], in
    their order. *)
Lemma resetBody_keys cfg o prog rec msg flds P fr zero :
  zeroOfType prog (mGoIdent msg) = Some zero →
  exec_body prog rec (mGoIdent msg) (resetBody cfg o msg) (mkFrame flds ∅ ∅ P)
    = Done fr →
  (self fr).*1 = zero.*1.
Proof.
  intros Hzero H. rewrite resetBody_spec in H.
  apply exec_body_app_Done in H as (fr1 & _ & H).
  apply exec_body_app_Done in H as (fr2 & _ & H).
  simpl in H. apply bind_Done in H as (fr3 & HC & H).
  apply exec_SReset in HC as (zero' & Hz & ->).
  rewrite Hzero in Hz. injection Hz as <-.
  apply exec_body_keys in H; [done|].
  apply Forall_app. split.
  - unfold restoreSaved. apply Forall_forall. intros s Hs.
    apply elem_of_lookup_imap in Hs as (j & g & -> & _). done.
  - case_bool_decide; [|constructor].
    apply Forall_forall. intros s Hs.
    apply list_elem_of_fmap in Hs as (g & -> & _). done.
Qed.

Lemma getField_None n fs : n ∉ fs.*1 → getField n fs = None.
Proof.
  induction fs as [|[k w] fs IH]; simpl; [done|]. intros Hn.
  apply not_elem_of_cons in Hn as [Hne Hn].
  destruct (String.eqb k n) eqn:E; [|by apply IH].
  apply String.eqb_eq in E. congruence.
Qed.

(** Two structs with the same fields, none of them twice, that read
    the same in every field are the same. *)
Lemma fields_ext (a : fields) : ∀ b : fields,
  a.*1 = b.*1 → NoDup a.*1 →
  (∀ F, getField F a = getField F b) → a = b.
Proof.
  induction a as [|[k v] a IH]; intros [|[k' w] b] Hk Hnd Hget; try done.
  simpl in Hk. injection Hk as <- Hk.
  assert (a.*1 = b.*1) as Hk' by exact Hk. clear Hk. rename Hk' into Hk.
  simpl in Hnd. apply NoDup_cons in Hnd as [Hnotin Hnd].
  pose proof (Hget k) as Hv. simpl in Hv. rewrite String.eqb_refl in Hv.
  injection Hv as <-. f_equal. apply IH; try done.
  intros F. destruct (decide (F = k)) as [->|Hne].
  - rewrite (getField_None k a Hnotin), (getField_None k b); [done|].
    by rewrite <- Hk.
  - specialize (Hget F). simpl in Hget.
    destruct (String.eqb k F) eqn:E; [|done].
    apply String.eqb_eq in E. congruence.
Qed.

(** A field of [T{}] is the struct field of a message field. *)
Lemma zeroStruct_keys fs : ∀ seen F,
  F ∈ (zeroStruct fs seen).*1 →
  ∃ g, g ∈ fs
       ∧ (if inRealOneof g then OneofGoName g = F ∧ F ∉ seen else fGoName g = F).
Proof.
  induction fs as [|h fs IH]; intros seen F HF; simpl in HF.
  { by apply not_elem_of_nil in HF. }
  destruct (inRealOneof h) eqn:Eh.
  - case_bool_decide as Hseen.
    + destruct (IH _ _ HF) as (g & Hg & HgF).
      exists g. split; [by apply list_elem_of_further|done].
    + simpl in HF. apply elem_of_cons in HF as [->|HF].
      * exists h. split; [apply list_elem_of_here|]. by rewrite Eh.
      * destruct (IH _ _ HF) as (g & Hg & HgF).
        exists g. split; [by apply list_elem_of_further|].
        destruct (inRealOneof g); [|done]. destruct HgF as [? Hn].
        split; [done|]. by apply not_elem_of_cons in Hn as [_ ?].
  - simpl in HF. apply elem_of_cons in HF as [->|HF].
    + exists h. split; [apply list_elem_of_here|]. by rewrite Eh.
    + destruct (IH _ _ HF) as (g & Hg & HgF).
      exists g. split; [by apply list_elem_of_further|done].
Qed.

(** The struct of a well-formed message has no field twice. *)
Lemma zeroStruct_NoDup fs : ∀ seen,
  Forall (fun g => fIsList g = true → inRealOneof g = false) fs →
  distinctSlots fs = true →
  NoDup (zeroStruct fs seen).*1.
Proof.
  induction fs as [|h fs IH]; intros seen Hl Hd; simpl; [constructor|].
  apply Forall_cons in Hl as [Hlh Hl].
  simpl in Hd. apply andb_prop in Hd as [Hh Hd].
  rewrite forallb_forall in Hh.
  assert (∀ g, g ∈ fs → inRealOneof g = false → fGoName g ≠ structName h) as Hout.
  { intros g Hg Hgo E.
    specialize (Hh g (proj1 (list_elem_of_In _ _) Hg)).
    unfold compatible in Hh.
    rewrite (structName_outside g Hgo), E, String.eqb_refl, Hgo in Hh.
    by rewrite andb_false_r in Hh. }
  destruct (inRealOneof h) eqn:Eh.
  - case_bool_decide as Hseen; [by apply IH|]. simpl.
    apply NoDup_cons. split; [|by apply IH].
    intros HF. apply zeroStruct_keys in HF as (g & Hg & HgF).
    destruct (inRealOneof g) eqn:Eg.
    + destruct HgF as [_ Hn]. apply Hn, list_elem_of_here.
    + apply (Hout g Hg Eg). unfold structName. rewrite Eh.
      destruct (fIsList h); [by specialize (Hlh eq_refl)|done].
  - simpl. apply NoDup_cons. split; [|by apply IH].
    intros HF. apply zeroStruct_keys in HF as (g & Hg & HgF).
    specialize (Hh g (proj1 (list_elem_of_In _ _) Hg)).
    unfold compatible in Hh.
    assert (structName h = structName g) as E.
    { rewrite (structName_outside h Eh).
      destruct (inRealOneof g) eqn:Eg.
      - destruct HgF as [<- _]. unfold structName. rewrite Eg.
        rewrite Forall_forall in Hl.
        destruct (fIsList g) eqn:El; [|done]. by rewrite (Hl g Hg El) in Eg.
      - by rewrite (structName_outside g Eg). }
    rewrite E, String.eqb_refl, Eh in Hh. done.
Qed.

(** ** A second reset *)

(** [ResetVT] on an instance at rest whose other fields hold what
    [T{}] holds returns the instance as it is, and the pools as they
    are. *)
Lemma ResetVT_at_rest cfg o prog msg n addr flds P :
  validOrders o →
  wellFormed msg = true →
  zeroOfType prog (mGoIdent msg) = Some (zeroStruct (mFields msg) []) →
  methods prog (mGoIdent msg) = Some (resetBody cfg o msg) →
  resting cfg msg flds = true →
  flds.*1 = (zeroStruct (mFields msg) []).*1 →
  (∀ F, Forall (fun g => fGoName g ≠ F) (savedOf msg) →
        Forall (fun g => OneofGoName g ≠ F) (oneofBytesOf msg) →
        getField F flds = getField F (zeroStruct (mFields msg) [])) →
  ResetVT prog (S n) (VMsg addr (mGoIdent msg) flds) P
  = Done (VMsg addr (mGoIdent msg) flds, P).
Proof.
  intros Hord Hwf Hzero Hmeth Hrest Hk Hother.
  destruct (resetBody_noop cfg o prog (ResetVT prog n) msg flds P
              Hord Hwf Hzero Hrest) as (fr' & Hex' & Hp' & Hsaved & Hslots).
  cbn [ResetVT]. rewrite Hmeth. cbn [mbind outcome_bind ofOption].
  rewrite Hex'. cbn [mbind outcome_bind]. rewrite Hp'.
  do 3 f_equal.
  pose proof (resetBody_keys _ _ _ _ _ _ _ _ _ Hzero Hex') as Hk'.
  apply fields_ext.
  { by rewrite Hk, Hk'. }
  { rewrite Hk'. pose proof Hwf as Hwf'. apply andb_prop in Hwf' as [_ Hd].
    apply zeroStruct_NoDup; [|done].
    apply Forall_forall. intros g Hg. by apply (wellFormed_lists msg). }
  intros F.
  destruct (decide (Exists (fun g => fGoName g = F) (savedOf msg))) as [Hs|Hs].
  { apply Exists_exists in Hs as (g & Hg & <-). by apply Hsaved. }
  destruct (oneofGroups (oneofBytesOf msg) !! F) as [grp|] eqn:Hgrp.
  { by eapply Hslots. }
  apply not_Exists_Forall in Hs; [|intros g; apply _].
  assert (Forall (fun g => OneofGoName g ≠ F) (oneofBytesOf msg)) as Hb.
  { apply Forall_forall. intros g Hg E.
    destruct (oneofGroups_member _ g Hg) as (grp & Hgrp' & _).
    rewrite E, Hgrp in Hgrp'. done. }
  rewrite (resetBody_other_field cfg o prog _ msg _ _ fr' F _ Hord Hzero Hs Hb Hex').
  symmetry. by apply Hother.
Qed.

(** [ResetVT] returns an instance on which a second [ResetVT] changes
    nothing: it returns the same struct, field for field, and puts
    nothing more into a pool. *)
Theorem reset_is_idempotent cfg U prog msg fuel addr flds P :
  generatedFor cfg U prog →
  forallb wellFormed U = true →
  findMessage U (mGoIdent msg) = Some msg →
  instanceFits cfg U fuel (VMsg addr (mGoIdent msg) flds) = true →
  ∃ m1 P1,
    ResetVT prog fuel (VMsg addr (mGoIdent msg) flds) P = Done (m1, P1)
    ∧ ResetVT prog fuel m1 P1 = Done (m1, P1).
Proof.
  intros Hprog HU Hfind Hfit.
  destruct (ResetVT_returns cfg U prog Hprog HU fuel
              (VMsg addr (mGoIdent msg) flds) P Hfit) as [[m1 P1] Hrun].
  destruct (instanceFits_inv cfg U prog fuel addr msg flds Hprog HU Hfind Hfit)
    as (n & o & -> & Hwf & Hord & Hmeth & _).
  destruct (Hprog _ _ Hfind) as [Hzero _].
  exists m1, P1. split; [done|].
  apply ResetVT_Done in Hrun as (fuel' & body & fr & [= <-] & Hb & Hex & -> & ->).
  rewrite Hmeth in Hb. injection Hb as <-.
  apply (ResetVT_at_rest cfg o); try done.
  - by eapply resetBody_rests.
  - by eapply resetBody_keys.
  - intros F Hs Hbs. by eapply resetBody_other_field.
Qed.

Lemma reset_is_idempotent_witness :
  ∃ m1 P1,
    ResetVT Sample.prog 3 Sample.parent ∅ = Done (m1, P1)
    ∧ ResetVT Sample.prog 3 m1 P1 = Done (m1, P1).
Proof.
  assert (forallb wellFormed (universe [Sample.Item; Sample.Plain; Sample.Parent])
          = true) as HU by (vm_compute; reflexivity).
  assert (instanceFits Sample.cfg
            (universe [Sample.Item; Sample.Plain; Sample.Parent]) 3
            (VMsg 1 (mGoIdent Sample.Parent) Sample.parentFields) = true)
    as Hfit by (vm_compute; reflexivity).
  exact (reset_is_idempotent
           Sample.cfg (universe [Sample.Item; Sample.Plain; Sample.Parent])
           Sample.prog Sample.Parent 3 1 Sample.parentFields ∅
           sample_generated HU eq_refl Hfit).
Defined.

(** ** A new instance *)

Lemma zeroValue_list f : fIsList f = true → zeroValue f = VNil.
Proof.
  unfold zeroValue. intros ->. by destruct (FieldGoType f) as [[? []]|].
Qed.

Lemma zeroValue_bytes f : fKind f = BytesKind → zeroValue f = VNil.
Proof.
  unfold zeroValue. intros ->. destruct (FieldGoType f) as [[? []]|]; try done.
  by destruct (fIsList f || fIsMap f).
Qed.

(** The struct literal [T{}] is at rest. *)
Lemma zeroStruct_resting cfg msg :
  wellFormed msg = true → resting cfg msg (zeroStruct (mFields msg) []) = true.
Proof.
  intros Hwf. unfold resting.
  apply forallb_forall. intros f Hf. apply list_elem_of_In in Hf.
  destruct (inRealOneof f) eqn:Eo.
  - assert (fIsList f = false) as El.
    { destruct (fIsList f) eqn:El; [|done].
      by rewrite (wellFormed_lists msg f Hwf Hf El) in Eo. }
    unfold structName. rewrite El, Eo.
    rewrite zeroStruct_oneof_nil; try done.
    + unfold restingSlot. by rewrite El, Eo.
    + apply not_elem_of_nil.
    + apply Forall_forall. intros g Hg Hgo E.
      assert (g ≠ f) as Hne by (intros ->; congruence).
      apply andb_prop in Hwf as [_ Hslots].
      pose proof (distinctSlots_elem _ g f Hslots Hg Hf Hne) as Hc.
      apply compatible_names in Hc; [|by left].
      rewrite (structName_outside g Hgo) in Hc.
      unfold structName in Hc. rewrite El, Eo in Hc. congruence.
  - destruct (wellFormed_split_outside msg f Hwf Hf Eo) as (pre & post & E & Hn).
    rewrite (structName_outside f Eo), E.
    apply Forall_app in Hn as [Hpre _].
    rewrite zeroStruct_lookup; try done.
    2:{ apply Forall_forall. intros g Hg. apply (wellFormed_lists msg); [done|].
        rewrite E. apply elem_of_app. by left. }
    unfold restingSlot. rewrite Eo.
    destruct (fIsList f) eqn:El; [by rewrite zeroValue_list|].
    destruct (fKind f) eqn:Ek; try done;
      try (by rewrite zeroValue_bytes);
      (destruct (negb (fIsMap f) && ShouldPool cfg (fMessage f)); [|done]);
      rewrite zeroValue_message; try done; by rewrite Ek.
Qed.

(** With nothing to hand out, [FromVTPool] returns what [New]
    allocates, [&T{}], and leaves the pools as they are.  [ResetVT] on
    that instance changes nothing, and [ReturnToVTPool] puts it into the
    pool of its type as it is. *)
Theorem new_instance_is_reset cfg U prog msg fuel fresh P :
  generatedFor cfg U prog →
  forallb wellFormed U = true →
  findMessage U (mGoIdent msg) = Some msg →
  generates cfg msg = true →
  ∃ m,
    FromVTPool prog (mGoIdent msg) None fresh P = Done (m, P)
    ∧ m = VMsg fresh (mGoIdent msg) (zeroStruct (mFields msg) [])
    ∧ ResetVT prog (S fuel) m P = Done (m, P)
    ∧ ReturnToVTPool prog (S fuel) m P = Done (m, poolPut (mGoIdent msg) m P).
Proof.
  intros Hprog HU Hfind Hgen.
  destruct (Hprog _ _ Hfind) as [Hzero Hbody].
  destruct (Hbody Hgen) as (o & Hord & Hmeth).
  assert (wellFormed msg = true) as Hwf.
  { rewrite forallb_forall in HU. apply HU.
    unfold findMessage in Hfind. by apply List.find_some in Hfind as [? _]. }
  assert (ResetVT prog (S fuel)
            (VMsg fresh (mGoIdent msg) (zeroStruct (mFields msg) [])) P
          = Done (VMsg fresh (mGoIdent msg) (zeroStruct (mFields msg) []), P))
    as Hreset.
  { apply (ResetVT_at_rest cfg o); try done. by apply zeroStruct_resting. }
  exists (VMsg fresh (mGoIdent msg) (zeroStruct (mFields msg) [])).
  split; [|split; [done|split; [done|]]].
  - unfold FromVTPool. cbn [mbind option_bind]. by rewrite Hzero.
  - unfold ReturnToVTPool, returnToPool. by rewrite Hreset.
Qed.

Lemma new_instance_witness :
  ∃ m,
    FromVTPool Sample.prog "Parent" None 9 ∅ = Done (m, ∅)
    ∧ ResetVT Sample.prog 1 m ∅ = Done (m, ∅)
    ∧ ReturnToVTPool Sample.prog 1 m ∅ = Done (m, poolPut "Parent" m ∅).
Proof.
  assert (forallb wellFormed (universe [Sample.Item; Sample.Plain; Sample.Parent])
          = true) as HU by (vm_compute; reflexivity).
  destruct (new_instance_is_reset
              Sample.cfg (universe [Sample.Item; Sample.Plain; Sample.Parent])
              Sample.prog Sample.Parent 0 9 ∅
              sample_generated HU eq_refl eq_refl)
    as (m & Hfrom & _ & Hreset & Hput).
  exists m. split; [exact Hfrom|]. split; [exact Hreset|exact Hput].
Defined.

(** ** A oneof that holds a member other than bytes *)

Section WrapperIdent.
Variable prog : program.
Variable rec : value → pools → outcome (value * pools).
Variable ty : GoIdent.
Variables (O : string) (a : nat) (W : GoIdent).

(** The statements of the field loop leave a wrapper in its slot; only
    [oneof.F.ReturnToVTPool()] under the wrapper's own type test
    touches what it holds. *)
Lemma exec_stmt_wrapper s p fr fr' :
  loopStmt s = true →
  getField O (self fr) = Some (VWrap a W p) →
  exec_stmt prog rec ty s fr = Done fr' →
  ∃ p', getField O (self fr') = Some (VWrap a W p')
        ∧ ((∀ n, s ≠ SOneofReturn O W n) → p' = p).
Proof.
  intros Hs Hget H.
  destruct (decide (writesField s = Some O)) as [Hw|Hw].
  2:{ exists p. split; [|done].
      rewrite <- Hget. eapply exec_stmt_field_other; [|exact Hw|exact H].
      by destruct s. }
  destruct s; simpl in Hs, Hw; try done; simplify_eq;
    unfold exec_stmt in H; rewrite Hget in H; simpl in H; try done.
  destruct (String.eqb W wrapper) eqn:E.
  - apply String.eqb_eq in E. subst wrapper.
    apply bind_Done in H as ([p' P1] & _ & H). done_inv H. simpl.
    exists p'. split; [by eapply getField_setField_eq|].
    intros Hne. by specialize (Hne fieldName).
  - done_inv H. by exists p.
Qed.

Lemma exec_body_wrapper body : ∀ p fr fr',
  Forall (fun s => loopStmt s = true) body →
  getField O (self fr) = Some (VWrap a W p) →
  exec_body prog rec ty body fr = Done fr' →
  ∃ p', getField O (self fr') = Some (VWrap a W p')
        ∧ (Forall (fun s => ∀ n, s ≠ SOneofReturn O W n) body → p' = p).
Proof.
  induction body as [|s body IH]; intros p fr fr' Hall Hget H; simpl in H.
  { done_inv H. by exists p. }
  apply Forall_cons in Hall as [Hs Hall]. done_inv H.
  destruct (exec_stmt_wrapper s p fr a0 Hs Hget Ha) as (p1 & Hget1 & Hp1).
  destruct (IH p1 a0 fr' Hall Hget1 H) as (p2 & Hget2 & Hp2).
  exists p2. split; [done|]. intros Hne.
  apply Forall_cons in Hne as [Hne1 Hne]. by rewrite (Hp2 Hne), (Hp1 Hne1).
Qed.

(** The type switch of a group has no case for a wrapper that is not
    of one of its members: nothing is saved for the slot. *)
Lemma save_groups_unmatched T l grp : ∀ p fr fr',
  NoDup l.*1 → (O, grp) ∈ l →
  Forall (fun h => fGoIdent h ≠ W) grp →
  getField O (self fr) = Some (VWrap a W p) →
  exec_body prog rec ty (map (saveGroup T) l) fr = Done fr' →
  savedOneof fr' !! O = Some VNil.
Proof.
  induction l as [|[O' grp'] l IH]; intros p fr fr' Hnd Hin Hgrp Hget H.
  { by apply not_elem_of_nil in Hin. }
  simpl in Hnd. apply NoDup_cons in Hnd as [Hnotin Hnd].
  simpl in H. done_inv H.
  apply elem_of_cons in Hin as [[= <- <-]|Hin].
  - destruct (save_groups_other _ _ _ _ _ _ _ _ Hnotin H) as [_ ->].
    unfold saveGroup in Ha; simpl in Ha. unfold exec_stmt in Ha.
    rewrite Hget in Ha. simpl in Ha.
    destruct (matchCase _ W) as [c|] eqn:Hc.
    + exfalso. unfold matchCase in Hc. apply List.find_some in Hc as [Hc HW].
      apply in_map_iff in Hc as (h & <- & Hh). simpl in HW.
      apply String.eqb_eq in HW. rewrite Forall_forall in Hgrp.
      by apply (Hgrp h); [apply list_elem_of_In|].
    + done_inv Ha. simpl. apply lookup_insert_eq.
  - assert (O ≠ O') as Hne.
    { intros ->. apply Hnotin. apply list_elem_of_fmap. by exists (O', grp). }
    apply (IH p a0 fr' Hnd Hin Hgrp); [|done].
    rewrite <- Hget. eapply exec_stmt_field_other; [| |exact Ha];
      unfold saveGroup; simpl; congruence.
Qed.
End WrapperIdent.

(** A struct field that [oneof.F.ReturnToVTPool()] is printed for. *)
Lemma fieldStmts_oneof_return cfg k g O W n :
  In (SOneofReturn O W n) (fieldStmts cfg k g) →
  fIsList g = false ∧ inRealOneof g = true
  ∧ O = OneofGoName g ∧ W = fGoIdent g.
Proof.
  unfold fieldStmts.
  destruct (fIsList g); [|destruct (inRealOneof g)];
    destruct (fKind g); simpl; repeat case_match; simpl; intros Hin;
    repeat (destruct Hin as [Hin|Hin]; [try done; by simplify_eq|]); done.
Qed.

(** A run of the whole body, seen from a oneof slot that holds the
    wrapper of a member other than bytes: the slot ends up nil. *)
Lemma oneof_member_run cfg o prog rec msg f flds P aw p fr :
  validOrders o →
  wellFormed msg = true →
  zeroOfType prog (mGoIdent msg) = Some (zeroStruct (mFields msg) []) →
  f ∈ mFields msg →
  fIsList f = false →
  inRealOneof f = true →
  fKind f ≠ BytesKind →
  getField (OneofGoName f) flds = Some (VWrap aw (fGoIdent f) p) →
  exec_body prog rec (mGoIdent msg) (resetBody cfg o msg) (mkFrame flds ∅ ∅ P)
    = Done fr →
  getField (OneofGoName f) (self fr) = Some VNil.
Proof.
  intros Hord Hwf Hzero Hf El Eo Hk Hget Hrun.
  destruct (oneofGroups (oneofBytesOf msg) !! OneofGoName f) as [grp|] eqn:Hgrp.
  2:{ by eapply oneof_slot_zero. }
  pose proof Hord as [Hso Hro]. pose proof Hrun as H.
  assert (0 < length (oneofBytesOf msg)) as Hlen.
  { pose proof Hgrp as Hkey. apply oneofGroups_key in Hkey as (g & Hg & _).
    destruct (oneofBytesOf msg); [by apply not_elem_of_nil in Hg|simpl; lia]. }
  rewrite resetBody_spec in H.
  rewrite !bool_decide_eq_true_2 in H by done.
  apply exec_body_app_Done in H as (fr1 & HA & H).
  apply exec_body_app_Done in H as (fr2 & HB & H).
  simpl in H. apply bind_Done in H as (fr3 & HC & H).
  apply exec_body_app_Done in H as (fr4 & HD & HE).
  destruct (exec_body_wrapper _ _ _ _ _ _ _ _ (mkFrame flds ∅ ∅ P) _
              (fieldsStmts_loopStmt cfg 0 (mFields msg)) Hget HA) as (p' & Hget1 & _).
  eapply (save_groups_unmatched _ _ _ _ _ _ _ _ grp) in HB;
    [| |apply range_elem; [exact Hso|exact Hgrp]| |exact Hget1].
  2:{ by apply range_NoDup. }
  2:{ apply Forall_forall. intros h Hh Ei.
      destruct (oneofGroups_elem msg _ grp h Hgrp Hh) as (Hhm & Hhb & HhO).
      assert (h = f) as ->.
      { apply (wrapper_names msg); try done.
        rewrite (oneofBytesField_structName h Hhb), HhO.
        unfold structName. by rewrite El, Eo. }
      unfold oneofBytesField in Hhb. apply andb_prop in Hhb as [_ Hhb].
      by apply bool_decide_eq_true in Hhb. }
  apply exec_SReset in HC as (zero & _ & ->).
  apply restoreSaved_frame in HD as (_ & HD & _). simpl in HD.
  rewrite <- (map_map fst SOneofRestore) in HE.
  eapply (restore_oneofs _ _ _ _ (OneofGoName f)) in HE as (w & Hw & HE).
  2:{ by apply range_NoDup. }
  2:{ apply list_elem_of_fmap. exists (OneofGoName f, grp). split; [done|].
      by apply range_elem. }
  rewrite HE. rewrite HD, HB in Hw. by injection Hw as <-.
Qed.

(** A oneof set to a member that is not bytes (a scalar, a string, a
    message): [ResetVT] returns and leaves the oneof unset; the wrapper
    is dropped, where the wrapper of a bytes member is kept. *)
Theorem oneof_member_cleared cfg U prog msg f fuel addr flds P aw p :
  generatedFor cfg U prog →
  forallb wellFormed U = true →
  findMessage U (mGoIdent msg) = Some msg →
  instanceFits cfg U fuel (VMsg addr (mGoIdent msg) flds) = true →
  f ∈ mFields msg →
  fIsList f = false →
  inRealOneof f = true →
  fKind f ≠ BytesKind →
  getField (OneofGoName f) flds = Some (VWrap aw (fGoIdent f) p) →
  ∃ m' P' flds',
    ResetVT prog fuel (VMsg addr (mGoIdent msg) flds) P = Done (m', P')
    ∧ m' = VMsg addr (mGoIdent msg) flds'
    ∧ getField (OneofGoName f) flds' = Some VNil.
Proof.
  intros Hprog HU Hfind Hfit Hf El Eo Hk Hget.
  destruct (ResetVT_returns cfg U prog Hprog HU fuel
              (VMsg addr (mGoIdent msg) flds) P Hfit) as [[m' P'] Hrun].
  destruct (instanceFits_inv cfg U prog fuel addr msg flds Hprog HU Hfind Hfit)
    as (n & o & -> & Hwf & Hord & Hmeth & _).
  destruct (Hprog _ _ Hfind) as [Hzero _].
  pose proof Hrun as H.
  apply ResetVT_Done in H as (fuel' & body & fr & [= <-] & Hb & Hex & -> & ->).
  rewrite Hmeth in Hb. injection Hb as <-.
  exists (VMsg addr (mGoIdent msg) (self fr)), (pool_state fr), (self fr).
  split; [done|]. split; [done|].
  by eapply oneof_member_run.
Qed.

Lemma oneof_member_cleared_witness :
  ∃ m' P' flds',
    ResetVT Sample.prog 3
      (VMsg 1 "Parent"
         [ ("Items", VNil); ("Plains", VNil); ("Tags", VNil); ("Payload", VNil);
           ("Child", VNil);
           ("Body", VWrap 6 "Parent_Sub" (Sample.item 7 "s" VNil));
           ("Count", VInt 3) ]) ∅ = Done (m', P')
    ∧ m' = VMsg 1 "Parent" flds'
    ∧ getField "Body" flds' = Some VNil.
Proof.
  assert (forallb wellFormed (universe [Sample.Item; Sample.Plain; Sample.Parent])
          = true) as HU by (vm_compute; reflexivity).
  assert (Sample.inOneof "Sub" "Parent_Sub" MessageKind "Body" (Some Sample.Item)
            ∈ mFields Sample.Parent) as Hin.
  { do 6 apply list_elem_of_further. apply list_elem_of_here. }
  assert (MessageKind ≠ BytesKind) as Hk by discriminate.
  assert (instanceFits Sample.cfg
            (universe [Sample.Item; Sample.Plain; Sample.Parent]) 3
            (VMsg 1 (mGoIdent Sample.Parent)
               [ ("Items", VNil); ("Plains", VNil); ("Tags", VNil); ("Payload", VNil);
                 ("Child", VNil);
                 ("Body", VWrap 6 "Parent_Sub" (Sample.item 7 "s" VNil));
                 ("Count", VInt 3) ]) = true)
    as Hfit by (vm_compute; reflexivity).
  exact (oneof_member_cleared
           Sample.cfg (universe [Sample.Item; Sample.Plain; Sample.Parent])
           Sample.prog Sample.Parent
           (Sample.inOneof "Sub" "Parent_Sub" MessageKind "Body" (Some Sample.Item))
           3 1 _ ∅ 6 (Sample.item 7 "s" VNil)
           sample_generated HU eq_refl Hfit Hin eq_refl eq_refl Hk eq_refl).
Defined.

(** A pooled message held by a oneof: the body prints
    [oneof.F.ReturnToVTPool()] under the type test of its wrapper.
    [ResetVT] of the parent returns; the message has been reset by its
    own [ResetVT] and is in the pool of its type, and the oneof is
    unset. *)
Theorem oneof_child_returned_to_pool
    cfg U prog msg f fuel addr flds P aw a cty cflds :
  generatedFor cfg U prog →
  forallb wellFormed U = true →
  findMessage U (mGoIdent msg) = Some msg →
  instanceFits cfg U (S fuel) (VMsg addr (mGoIdent msg) flds) = true →
  f ∈ mFields msg →
  fIsList f = false →
  inRealOneof f = true →
  isMessageKind (fKind f) = true →
  ShouldPool cfg (fMessage f) = true →
  getField (OneofGoName f) flds
    = Some (VWrap aw (fGoIdent f) (VMsg a cty cflds)) →
  ∃ m' P' flds' c',
    ResetVT prog (S fuel) (VMsg addr (mGoIdent msg) flds) P = Done (m', P')
    ∧ m' = VMsg addr (mGoIdent msg) flds'
    ∧ (∃ Pa Pb, ResetVT prog fuel (VMsg a cty cflds) Pa = Done (c', Pb))
    ∧ c' ∈ default [] (P' !! cty)
    ∧ getField (OneofGoName f) flds' = Some VNil.
Proof.
  intros Hprog HU Hfind Hfit Hf El Eo Hk Hpool Hget.
  destruct (ResetVT_returns cfg U prog Hprog HU (S fuel)
              (VMsg addr (mGoIdent msg) flds) P Hfit) as [[m' P'] Hrun].
  destruct (instanceFits_inv cfg U prog (S fuel) addr msg flds Hprog HU Hfind Hfit)
    as (n & o & [= <-] & Hwf & Hord & Hmeth & _).
  destruct (Hprog _ _ Hfind) as [Hzero _].
  assert (structName f = OneofGoName f) as En.
  { unfold structName. by rewrite El, Eo. }
  assert (fKind f ≠ BytesKind) as Hnb.
  { intros Hb. by rewrite Hb in Hk. }
  assert (∀ k, fieldStmts cfg k f
               = [SOneofReturn (OneofGoName f) (fGoIdent f) (fGoName f)]) as Hstmts.
  { intros k. unfold fieldStmts. rewrite El, Eo, Hpool. by destruct (fKind f). }
  pose proof Hf as Hsplit.
  apply list_elem_of_split in Hsplit as (pre & post & E).
  pose proof Hrun as H.
  apply ResetVT_Done in H as (fuel' & body & fr & [= <-] & Hb & Hex & -> & ->).
  rewrite Hmeth in Hb. injection Hb as <-.
  pose proof Hex as Hbody.
  rewrite resetBody_spec, E, fieldsStmts_app in Hbody. simpl in Hbody.
  rewrite Hstmts, <- !app_assoc in Hbody.
  apply exec_body_app_Done in Hbody as (fr1 & HA & Hbody).
  simpl in Hbody. apply bind_Done in Hbody as (fr2 & HB & Hbody).
  (* the statements printed before are under other type tests *)
  assert (getField (OneofGoName f) (self fr1)
          = Some (VWrap aw (fGoIdent f) (VMsg a cty cflds))) as Hget1.
  { destruct (exec_body_wrapper prog (ResetVT prog fuel) (mGoIdent msg)
                (OneofGoName f) aw (fGoIdent f) (fieldsStmts cfg 0 pre)
                (VMsg a cty cflds) (mkFrame flds ∅ ∅ P) fr1
                (fieldsStmts_loopStmt cfg 0 pre) Hget HA) as (p' & Hp' & Hsame).
    rewrite Hp', Hsame; [done|].
    apply List.Forall_forall. intros s Hs nm ->.
    apply fieldsStmts_In in Hs as (k' & g & Hg & _ & Hs).
    apply fieldStmts_oneof_return in Hs as (Hgl & Hgo & HO & HW).
    pose proof Hwf as Hwf'. apply andb_prop in Hwf' as [_ Hslots].
    rewrite E in Hslots. apply distinctSlots_app in Hslots.
    rewrite Forall_forall in Hslots.
    assert (compatible f g = true) as Hc.
    { apply Hslots. apply elem_of_app. left. by apply list_elem_of_In. }
    unfold compatible in Hc.
    assert (structName g = structName f) as Eg.
    { rewrite En. unfold structName. by rewrite Hgl, Hgo. }
    rewrite Eg, String.eqb_refl, HW, String.eqb_refl in Hc.
    by rewrite andb_false_r in Hc. }
  unfold exec_stmt in HB. rewrite Hget1 in HB. simpl in HB.
  rewrite String.eqb_refl in HB.
  apply bind_Done in HB as ([c' P2] & Hc & HB).
  apply bind_Done in Hc as ([c1 P3] & Hc & Hc'). injection Hc' as <- <-.
  done_inv HB.
  exists (VMsg addr (mGoIdent msg) (self fr)), (pool_state fr), (self fr), c1.
  split; [done|]. split; [done|]. split; [by exists (pool_state fr1), P3|].
  split.
  - apply (exec_body_grows prog (ResetVT prog fuel) (mGoIdent msg)
             (ResetVT_grows prog fuel)) in Hbody.
    apply Hbody. simpl. apply poolPut_holds.
  - exact (oneof_member_run cfg o prog (ResetVT prog fuel) msg f flds P aw _ fr
             Hord Hwf Hzero Hf El Eo Hnb Hget Hex).
Qed.

Lemma oneof_child_witness :
  ∃ m' P' flds' c',
    ResetVT Sample.prog 3
      (VMsg 1 "Parent"
         [ ("Items", VNil); ("Plains", VNil); ("Tags", VNil); ("Payload", VNil);
           ("Child", VNil);
           ("Body", VWrap 6 "Parent_Sub" (Sample.item 7 "s" (Sample.bytes 17 1 [9])));
           ("Count", VInt 3) ]) ∅ = Done (m', P')
    ∧ m' = VMsg 1 "Parent" flds'
    ∧ c' ∈ default [] (P' !! "Item")
    ∧ getField "Body" flds' = Some VNil.
Proof.
  assert (forallb wellFormed (universe [Sample.Item; Sample.Plain; Sample.Parent])
          = true) as HU by (vm_compute; reflexivity).
  assert (Sample.inOneof "Sub" "Parent_Sub" MessageKind "Body" (Some Sample.Item)
            ∈ mFields Sample.Parent) as Hin.
  { do 6 apply list_elem_of_further. apply list_elem_of_here. }
  assert (instanceFits Sample.cfg
            (universe [Sample.Item; Sample.Plain; Sample.Parent]) 3
            (VMsg 1 (mGoIdent Sample.Parent)
               [ ("Items", VNil); ("Plains", VNil); ("Tags", VNil); ("Payload", VNil);
                 ("Child", VNil);
                 ("Body", VWrap 6 "Parent_Sub"
                            (Sample.item 7 "s" (Sample.bytes 17 1 [9])));
                 ("Count", VInt 3) ]) = true)
    as Hfit by (vm_compute; reflexivity).
  destruct (oneof_child_returned_to_pool
              Sample.cfg (universe [Sample.Item; Sample.Plain; Sample.Parent])
              Sample.prog Sample.Parent
              (Sample.inOneof "Sub" "Parent_Sub" MessageKind "Body" (Some Sample.Item))
              2 1 _ ∅ 6 7 "Item"
              [ ("Name", VStr "s"); ("Data", Sample.bytes 17 1 [9]) ]
              sample_generated HU eq_refl Hfit Hin
              eq_refl eq_refl eq_refl eq_refl eq_refl)
    as (m' & P' & flds' & c' & Hrun & -> & _ & Hpool & Hnil).
  exists (VMsg 1 "Parent" flds'), P', flds', c'.
  split; [exact Hrun|]. split; [reflexivity|]. split; [exact Hpool|exact Hnil].
Defined.

(** ** Handles that are cut and nothing more *)

(** For a singular bytes field outside a oneof and for a repeated
    field of scalars or enums the body prints the save [fN := m.F[:0]]
    and nothing before it: [ResetVT] returns and leaves the field at
    length zero over its backing array, and the array holds what it
    held; the old bytes and numbers are not overwritten. *)
Theorem handle_cut_contents_kept cfg U prog msg f fuel addr flds P arr len store :
  generatedFor cfg U prog →
  forallb wellFormed U = true →
  findMessage U (mGoIdent msg) = Some msg →
  instanceFits cfg U fuel (VMsg addr (mGoIdent msg) flds) = true →
  f ∈ mFields msg →
  (fIsList f = true ∧ isMessageKind (fKind f) = false
   ∧ fKind f ≠ BytesKind ∧ fKind f ≠ StringKind)
  ∨ (fIsList f = false ∧ inRealOneof f = false ∧ fKind f = BytesKind) →
  getField (fGoName f) flds = Some (VSlice arr len store) →
  ∃ m' P' flds',
    ResetVT prog fuel (VMsg addr (mGoIdent msg) flds) P = Done (m', P')
    ∧ m' = VMsg addr (mGoIdent msg) flds'
    ∧ getField (fGoName f) flds' = Some (VSlice arr 0 store).
Proof.
  intros Hprog HU Hfind Hfit Hf Hshape Hget.
  destruct (ResetVT_returns cfg U prog Hprog HU fuel
              (VMsg addr (mGoIdent msg) flds) P Hfit) as [[m' P'] Hrun].
  destruct (instanceFits_inv cfg U prog fuel addr msg flds Hprog HU Hfind Hfit)
    as (n & o & -> & Hwf & Hord & Hmeth & _).
  assert (savedField f = true ∧ ownPrefix cfg f = []) as [Hs Hown].
  { unfold savedField, ownPrefix.
    destruct Hshape as [(-> & Hm & Hb & Hst)|(-> & -> & ->)]; [|done].
    split; [done|]. by destruct (fKind f). }
  destruct (wellFormed_split msg f Hwf Hf Hs) as (pre & post & E & Hn).
  pose proof Hrun as H.
  apply ResetVT_Done in H as (fuel' & body & fr & [= <-] & Hb & Hex & -> & ->).
  rewrite Hmeth in Hb. injection Hb as <-.
  destruct (saved_field_run cfg o prog (ResetVT prog n) msg pre post f Hord E Hs Hn
              flds P fr Hex)
    as (fr1 & fr2 & v & t & _ & Hsame & HB & Hv & Ht & Hfinal).
  exists (VMsg addr (mGoIdent msg) (self fr)), (pool_state fr), (self fr).
  split; [done|]. split; [done|].
  rewrite Hown in HB. simpl in HB. injection HB as <-.
  rewrite Hsame, Hget in Hv. injection Hv as <-.
  simpl in Ht. injection Ht as <-. done.
Qed.

Lemma handle_cut_witness :
  ∃ m' P' flds',
    ResetVT Sample.prog 3 Sample.parent ∅ = Done (m', P')
    ∧ m' = VMsg 1 "Parent" flds'
    ∧ getField "Payload" flds' = Some (Sample.bytes 14 0 [1; 2; 3; 0; 0]).
Proof.
  assert (forallb wellFormed (universe [Sample.Item; Sample.Plain; Sample.Parent])
          = true) as HU by (vm_compute; reflexivity).
  assert (instanceFits Sample.cfg
            (universe [Sample.Item; Sample.Plain; Sample.Parent]) 3
            (VMsg 1 (mGoIdent Sample.Parent) Sample.parentFields) = true)
    as Hfit by (vm_compute; reflexivity).
  assert (Sample.scalar "Payload" BytesKind ∈ mFields Sample.Parent) as Hin.
  { do 3 apply list_elem_of_further. apply list_elem_of_here. }
  exact (handle_cut_contents_kept
           Sample.cfg (universe [Sample.Item; Sample.Plain; Sample.Parent])
           Sample.prog Sample.Parent (Sample.scalar "Payload" BytesKind)
           3 1 Sample.parentFields ∅ 14 3
           (map (fun b => VInt (Z.of_nat b)) [1; 2; 3; 0; 0])
           sample_generated HU eq_refl Hfit Hin
           (or_intror (conj eq_refl (conj eq_refl eq_refl))) eq_refl).
Defined.

(** ** A nil element in a list of messages that are not pooled *)

(** [mm.Reset()] on a nil element ends the loop with a panic, whatever
    the other elements are. *)
Lemma rangeReset_plain_nil prog rec elems : ∀ i P,
  elems !! i = Some VNil →
  rangeReset prog rec false elems P = Fault.
Proof.
  induction elems as [|e elems IH]; intros i P Hi; [done|].
  destruct i as [|i]; simpl in Hi.
  { by injection Hi as ->. }
  cbn [rangeReset].
  destruct (plainReset prog e) as [e'| |] eqn:Ee; cbn [mbind outcome_bind].
  - by rewrite (IH i P Hi).
  - done.
  - destruct e; simpl in Ee; try done.
    by destruct (zeroOfType prog ty).
Qed.

Lemma distinctSlots_prefix a b : distinctSlots (a ++ b) = true → distinctSlots a = true.
Proof.
  induction a as [|h a IH]; simpl; [done|]. intros H.
  apply andb_prop in H as [Hh H]. rewrite (IH H), andb_true_r.
  rewrite forallb_forall in Hh |- *. intros g Hg. apply Hh.
  apply in_or_app. by left.
Qed.

(** For a repeated field of a message type that is not pooled the body
    prints [mm.Reset()] in the loop over the elements, with no test for
    nil.  On an instance whose list holds a nil element below its
    length [ResetVT] does not return, whatever the depth allowed to
    nested calls; and when the fields before the list are as their Go
    types have them, so that the run comes to the loop, it ends in a
    panic.  (The loop over elements of a pooled type calls
    [mm.ResetVT()], which returns on nil.) *)
Theorem nil_element_of_plain_list_panics
    cfg U prog msg f addr flds P arr len store i :
  generatedFor cfg U prog →
  forallb wellFormed U = true →
  findMessage U (mGoIdent msg) = Some msg →
  generates cfg msg = true →
  f ∈ mFields msg →
  fIsList f = true →
  isMessageKind (fKind f) = true →
  ShouldPool cfg (fMessage f) = false →
  getField (fGoName f) flds = Some (VSlice arr len store) →
  (i < len)%nat →
  store !! i = Some VNil →
  (∀ fuel m' P',
     ResetVT prog fuel (VMsg addr (mGoIdent msg) flds) P ≠ Done (m', P'))
  ∧ (∀ n,
       (∀ g, g ∈ mFields msg → g ≠ f →
             fieldFits cfg U (instanceFits cfg U n) flds g = true) →
       ResetVT prog (S n) (VMsg addr (mGoIdent msg) flds) P = Fault).
Proof.
  intros Hprog HU Hfind Hgen Hf Hl Hk Hpool Hget Hi Hnil.
  destruct (Hprog _ _ Hfind) as [Hzero Hbody].
  destruct (Hbody Hgen) as (o & Hord & Hmeth).
  assert (wellFormed msg = true) as Hwf.
  { rewrite forallb_forall in HU. apply HU.
    unfold findMessage in Hfind. by apply List.find_some in Hfind as [? _]. }
  pose proof (wellFormed_lists msg f Hwf Hf Hl) as Hout.
  destruct (wellFormed_split_outside msg f Hwf Hf Hout) as (pre & post & E & Hn).
  pose proof Hn as Hn'. apply Forall_app in Hn' as [Hpre _].
  assert (∀ k, fieldStmts cfg k f
               = [SRangeReset (fGoName f) false; SSave k (fGoName f)]) as Hstmts.
  { intros k. unfold fieldStmts. rewrite Hl, Hpool. by destruct (fKind f). }
  assert (take len store !! i = Some VNil) as Hnil'.
  { by rewrite lookup_take_lt. }
  assert (∀ rec fr1,
            getField (fGoName f) (self fr1) = Some (VSlice arr len store) →
            exec_stmt prog rec (mGoIdent msg) (SRangeReset (fGoName f) false) fr1
            = Fault) as Hloop.
  { intros rec fr1 Hget1. unfold exec_stmt. rewrite Hget1.
    cbn [mbind outcome_bind ofOption].
    by rewrite (rangeReset_plain_nil prog rec (take len store) i _ Hnil'). }
  assert (∀ rec fr1,
            exec_body prog rec (mGoIdent msg) (fieldsStmts cfg 0 pre)
              (mkFrame flds ∅ ∅ P) = Done fr1 →
            exec_body prog rec (mGoIdent msg) (resetBody cfg o msg)
              (mkFrame flds ∅ ∅ P) = Fault) as Hrun.
  { intros rec fr1 HA.
    rewrite resetBody_spec, E, fieldsStmts_app. simpl.
    rewrite Hstmts, <- !app_assoc.
    rewrite exec_body_app, HA. cbn [mbind outcome_bind app exec_body].
    rewrite Hloop; [done|].
    rewrite <- Hget.
    apply (exec_body_field_other prog rec (mGoIdent msg)
             (fieldsStmts cfg 0 pre) (fGoName f) (mkFrame flds ∅ ∅ P) fr1);
      [|exact HA].
    by apply fieldsStmts_field_other. }
  split.
  - intros fuel m' P' H.
    apply ResetVT_Done in H as (fuel' & body & fr & -> & Hb & Hex & _ & _).
    rewrite Hmeth in Hb. injection Hb as <-.
    pose proof Hex as Hex'.
    rewrite resetBody_spec, E, fieldsStmts_app in Hex'.
    apply exec_body_app_Done in Hex' as (fr0 & Hex' & _).
    apply exec_body_app_Done in Hex' as (fr1 & HA & _).
    rewrite (Hrun _ fr1 HA) in Hex. done.
  - intros n Hfits.
    pose proof Hwf as Hwf'. apply andb_prop in Hwf' as [_ Hslots].
    destruct (fieldsStmts_returns cfg U prog (ResetVT prog n) (instanceFits cfg U n)
                (mGoIdent msg) (ResetVT_returns cfg U prog Hprog HU n)
                (fun v => plainReset_returns cfg U prog v Hprog)
                pre 0 (mkFrame flds ∅ ∅ P) [])
      as (fr1 & HA & _).
    + apply Forall_forall. intros g Hg. apply (wellFormed_lists msg); [done|].
      rewrite E. apply elem_of_app. by left.
    + rewrite E in Hslots. by apply distinctSlots_prefix in Hslots.
    + apply Forall_forall. intros g _. constructor.
    + rewrite app_nil_r. apply Forall_forall. intros g Hg. simpl.
      apply Hfits.
      * rewrite E. apply elem_of_app. by left.
      * intros ->. rewrite Forall_forall in Hpre.
        apply (Hpre f Hg). by apply structName_outside.
    + cbn [ResetVT]. rewrite Hmeth. cbn [mbind outcome_bind ofOption].
      by rewrite (Hrun _ fr1 HA).
Qed.

Lemma nil_element_witness :
  ResetVT Sample.prog 3
    (VMsg 1 "Parent"
       [ ("Items", VNil); ("Plains", VSlice 12 1 [ VNil ]); ("Tags", VNil);
         ("Payload", VNil); ("Child", VNil); ("Body", VNil);
         ("Count", VInt 3) ]) ∅
  = Fault.
Proof.
  assert (forallb wellFormed (universe [Sample.Item; Sample.Plain; Sample.Parent])
          = true) as HU by (vm_compute; reflexivity).
  assert (Sample.repeated "Plains" MessageKind (Some Sample.Plain)
            ∈ mFields Sample.Parent) as Hin.
  { apply list_elem_of_further. apply list_elem_of_here. }
  destruct (nil_element_of_plain_list_panics
              Sample.cfg (universe [Sample.Item; Sample.Plain; Sample.Parent])
              Sample.prog Sample.Parent
              (Sample.repeated "Plains" MessageKind (Some Sample.Plain))
              1 [ ("Items", VNil); ("Plains", VSlice 12 1 [ VNil ]); ("Tags", VNil);
                  ("Payload", VNil); ("Child", VNil); ("Body", VNil);
                  ("Count", VInt 3) ] ∅ 12 1 [ VNil ] 0
              sample_generated HU eq_refl eq_refl Hin eq_refl eq_refl eq_refl
              eq_refl ltac:(lia) eq_refl) as [_ Hpanic].
  apply (Hpanic 2). intros g Hg Hne.
  repeat (apply elem_of_cons in Hg as [->|Hg]; [try done|]);
    [by apply not_elem_of_nil in Hg].
Defined.

(** ** The codecs *)

Import Codecs.

(** C10.  When the value lacks [MarshalVT] or [UnmarshalVT], the gRPC
    codec's [Marshal] returns nil bytes and an error, and its
    [Unmarshal] returns an error and leaves the value as it was; both
    return, neither panics. *)
Theorem grpc_rejects_values_without_helpers
    {S E} (v : methodSet S E) (s : S) (data : list Z) :
  msMarshalVT v = None ∨ msUnmarshalVT v = None →
  grpcMarshal v s
    = Returned (None, Some (MissingHelpers (missingHelpers "marshal" (typeName v))))
  ∧ grpcUnmarshal data v s
    = (s, Returned (Some (MissingHelpers (missingHelpers "unmarshal" (typeName v))))).
Proof.
  intros H.
  assert (asVtprotoMessage v = None) as Hno.
  { unfold asVtprotoMessage. destruct H as [-> | ->]; [done|].
    by destruct (msMarshalVT v). }
  unfold grpcMarshal, grpcUnmarshal. by rewrite Hno.
Qed.

Lemma grpc_rejects_witness :
  (msMarshalVT marshalOnly = None ∨ msUnmarshalVT marshalOnly = None)
  ∧ grpcMarshal marshalOnly [1%Z]
    = Returned (None, Some (MissingHelpers
        "failed to marshal, message is *MarshalOnly (missing vtprotobuf helpers)"))
  ∧ grpcUnmarshal [2%Z] marshalOnly [1%Z]
    = ([1%Z], Returned (Some (MissingHelpers
        "failed to unmarshal, message is *MarshalOnly (missing vtprotobuf helpers)"))).
Proof.
  split; [right; reflexivity|].
  apply (grpc_rejects_values_without_helpers marshalOnly [1%Z] [2%Z]).
  right. reflexivity.
Defined.

(** C4, as the code has it.  For a value that has [MarshalVT] and
    [UnmarshalVT], both codecs call the value's [ResetVT] when it has
    one, else its [Reset] when it has one, and then [UnmarshalVT] on the
    same bytes; the state and error are those of [UnmarshalVT] run on
    the reset state.  So when that reset puts every state into the state
    [fresh] of a new instance, [Unmarshal] leaves the value as a decode
    of the bytes into a new instance does, whatever it held before. *)
Theorem unmarshal_resets_before_decoding
    {S E} (v : methodSet S E) marshalVT unmarshalVT r (data : list Z) (s : S) :
  msMarshalVT v = Some marshalVT →
  msUnmarshalVT v = Some unmarshalVT →
  msResetVT v = Some r ∨ (msResetVT v = None ∧ msReset v = Some r) →
  grpcUnmarshal data v s
    = (let '(s', err) := unmarshalVT data (r s) in (s', Returned (MessageError <$> err)))
  ∧ drpcUnmarshal data v s
    = (let '(s', err) := unmarshalVT data (r s) in (s', Returned err))
  ∧ ∀ fresh, (∀ t, r t = fresh) →
      (grpcUnmarshal data v s).1 = (unmarshalVT data fresh).1
      ∧ (drpcUnmarshal data v s).1 = (unmarshalVT data fresh).1.
Proof.
  intros Hm Hu Hr.
  assert (resetBeforeUnmarshal v s = r s) as Hreset.
  { unfold resetBeforeUnmarshal. by destruct Hr as [-> | [-> ->]]. }
  unfold grpcUnmarshal, drpcUnmarshal, asVtprotoMessage.
  rewrite Hm, Hu, Hreset. split_and!; try done.
  intros fresh Hfresh. rewrite Hfresh. by destruct (unmarshalVT data fresh).
Qed.

Lemma unmarshal_resets_witness :
  msMarshalVT resettable = Some (fun s => (Some s, None))
  ∧ (grpcUnmarshal [2%Z] resettable [1%Z]).1 = [2%Z]
  ∧ (drpcUnmarshal [2%Z] resettable [1%Z]).1 = [2%Z].
Proof.
  split; [reflexivity|].
  destruct (unmarshal_resets_before_decoding resettable
              (fun s => (Some s, None)) (fun data s => (s ++ data, None))
              (fun _ => []) [2%Z] [1%Z] eq_refl eq_refl
              (or_intror (conj eq_refl eq_refl)))
    as (_ & _ & Hfresh).
  exact (Hfresh [] (fun _ => eq_refl)).
Defined.

(** C4 as the claim has it fails: a value with [MarshalVT] and
    [UnmarshalVT] and neither [ResetVT] nor [Reset] is not reset, and
    what [Unmarshal] leaves in it depends on what it held before. *)
Lemma unmarshal_without_reset_merges :
  asVtprotoMessage appender ≠ None
  ∧ grpcUnmarshal [2%Z] appender [1%Z] = ([1%Z; 2%Z], Returned None)
  ∧ grpcUnmarshal [2%Z] appender [] = ([2%Z], Returned None)
  ∧ drpcUnmarshal [2%Z] appender [1%Z] = ([1%Z; 2%Z], Returned None)
  ∧ drpcUnmarshal [2%Z] appender [] = ([2%Z], Returned None).
Proof. split_and!; done. Qed.

(** The generated [ResetVT] does not put an instance into the state of
    a new one: a oneof that held bytes stays set, to its emptied wrapper.
    Through the codec: for a pooled type whose [UnmarshalVT] leaves the
    instance alone on empty input, as a decode loop does, [Unmarshal] of
    no bytes leaves the oneof set, where a new instance has a nil
    oneof. *)
Lemma reset_keeps_oneof_set {E} (v : methodSet value E) marshalVT unmarshalVT :
  msMarshalVT v = Some marshalVT →
  msUnmarshalVT v = Some unmarshalVT →
  msResetVT v
    = Some (fun m => match ResetVT Sample.prog 3 m ∅ with
                     | Done (m', _) => m'
                     | _ => m
                     end) →
  (∀ m, unmarshalVT [] m = (m, None)) →
  ∃ flds' zero,
    (grpcUnmarshal [] v Sample.parent).1 = VMsg 1 "Parent" flds'
    ∧ getField "Body" flds'
      = Some (VWrap 6 "Parent_Raw" (Sample.bytes 16 0 [4; 5; 0; 0]))
    ∧ zeroOfType Sample.prog "Parent" = Some zero
    ∧ (unmarshalVT [] (VMsg 1 "Parent" zero)).1 = VMsg 1 "Parent" zero
    ∧ getField "Body" zero = Some VNil.
Proof.
  intros Hm Hu Hr Hid.
  unfold grpcUnmarshal, asVtprotoMessage, resetBeforeUnmarshal.
  rewrite Hm, Hu, Hr, Hid. cbn [fst].
  eexists _, _. split; [vm_compute; reflexivity|].
  split; [reflexivity|]. split; [reflexivity|].
  split; [by rewrite Hid|reflexivity].
Qed.

(** ** The two codecs side by side *)

(** On a value that has [MarshalVT] and [UnmarshalVT] the gRPC and the
    DRPC codec do the same: [Marshal] returns what [MarshalVT] returns,
    [Unmarshal] leaves the value in the same state and returns the same
    error.  On a value that lacks one of the two, the gRPC codec returns
    an error and leaves the value alone, where the DRPC codec panics,
    its [Unmarshal] after it has reset the value. *)
Theorem codecs_agree_on_vtproto_messages
    {S E} (v : methodSet S E) (s : S) (data : list Z) :
  (asVtprotoMessage v ≠ None →
     (∃ bytes err,
        drpcMarshal v s = Returned (bytes, err)
        ∧ grpcMarshal v s = Returned (bytes, MessageError <$> err))
     ∧ (grpcUnmarshal data v s).1 = (drpcUnmarshal data v s).1
     ∧ ∃ err,
         (drpcUnmarshal data v s).2 = Returned err
         ∧ (grpcUnmarshal data v s).2 = Returned (MessageError <$> err))
  ∧ (asVtprotoMessage v = None →
     drpcMarshal v s = Panicked
     ∧ drpcUnmarshal data v s = (resetBeforeUnmarshal v s, Panicked)
     ∧ (grpcUnmarshal data v s).1 = s
     ∧ ((msResetVT v = None ∧ msReset v = None) →
        (drpcUnmarshal data v s).1 = s)).
Proof.
  split.
  - intros Hvt. unfold grpcMarshal, drpcMarshal, grpcUnmarshal, drpcUnmarshal.
    destruct (asVtprotoMessage v) as [[marshalVT unmarshalVT]|]; [|done].
    split_and!.
    + destruct (marshalVT s) as [bytes err]. by exists bytes, err.
    + by destruct (unmarshalVT data (resetBeforeUnmarshal v s)).
    + destruct (unmarshalVT data (resetBeforeUnmarshal v s)) as [s' err].
      by exists err.
  - intros Hno. unfold drpcMarshal, grpcUnmarshal, drpcUnmarshal.
    rewrite Hno. split_and!; try done.
    intros [Hr1 Hr2]. unfold resetBeforeUnmarshal. by rewrite Hr1, Hr2.
Qed.

Lemma codecs_agree_witness :
  grpcUnmarshal [2%Z] resettable [1%Z] = ([2%Z], Returned None)
  ∧ drpcUnmarshal [2%Z] resettable [1%Z] = ([2%Z], Returned None)
  ∧ drpcUnmarshal [2%Z]
      (mkMethods "*ResetOnly" None None None (Some (fun _ => [])) :
         methodSet (list Z) Empty_set) [1%Z]
    = ([], Panicked).
Proof.
  destruct (codecs_agree_on_vtproto_messages resettable [1%Z] [2%Z]) as [Hyes _].
  destruct (Hyes ltac:(discriminate)) as (_ & Hstate & err & Hd & Hg).
  destruct (codecs_agree_on_vtproto_messages
              (mkMethods "*ResetOnly" None None None (Some (fun _ => [])) :
                 methodSet (list Z) Empty_set) [1%Z] [2%Z]) as [_ Hno].
  destruct (Hno eq_refl) as (_ & Hpanic & _).
  split; [reflexivity|]. split; [reflexivity|]. exact Hpanic.
Defined.

(** ** The encoder against the reference encoder *)

Import Wire Codegen.

Arguments putBack : simpl never.
Arguments marshalField : simpl never.

Lemma encodeVarint_length fuel v :
  length (encodeVarintFuel fuel v) = sizeVarintFuel fuel v.
Proof.
  revert v. induction fuel as [|fuel IH]; intros v; simpl; [done|].
  destruct (v <? 128)%Z; simpl; [done|]. by rewrite IH.
Qed.

Lemma littleEndian_length n v : length (littleEndian n v) = n.
Proof. revert v. induction n as [|n IH]; intros v; simpl; [done|]. by rewrite IH. Qed.

Lemma scalarSize_length k z : scalarSize k z = length (scalarPayload k z).
Proof.
  unfold scalarSize, scalarPayload, SizeOfVarint, EncodeVarint.
  destruct k; by rewrite ?encodeVarint_length, ?littleEndian_length.
Qed.

(** Size exactness, per field and per message. *)
Lemma sizeField_length p v : sizeField p v = length (referenceField p v).
Proof.
  unfold sizeField, referenceField.
  destruct (emitted p v) as [payload|] eqn:E; [|done].
  rewrite !length_app. f_equal.
  destruct (lengthDelimited p).
  { unfold SizeOfVarint, EncodeVarint. by rewrite encodeVarint_length. }
  simpl. unfold emitted in E.
  destruct v as [z|[z|]| | |]; try done.
  - destruct (z =? 0)%Z; [done|]. injection E as <-. apply scalarSize_length.
  - injection E as <-. apply scalarSize_length.
Qed.

Lemma SizeVT_length plans vals :
  SizeVT plans vals = length (referenceEncode plans vals).
Proof.
  revert vals. induction plans as [|p plans IH]; intros [|v vals]; simpl; try done.
  by rewrite length_app, sizeField_length, IH.
Qed.

Lemma putBack_spec bs buf i :
  (length bs ≤ i)%nat → (i ≤ length buf)%nat →
  ∃ buf', putBack bs (buf, i) = Some (buf', (i - length bs)%nat)
          ∧ length buf' = length buf
          ∧ drop (i - length bs) buf' = bs ++ drop i buf.
Proof.
  intros Hbs Hi. unfold putBack. rewrite bool_decide_eq_true_2 by done.
  eexists. split; [done|].
  assert (length (take (i - length bs) buf) = (i - length bs)%nat) as Ht
    by (rewrite length_take; lia).
  split.
  - rewrite !length_app, Ht, length_drop. lia.
  - by rewrite drop_app_length'.
Qed.

Lemma marshalField_spec p v buf i :
  (length (referenceField p v) ≤ i)%nat → (i ≤ length buf)%nat →
  ∃ buf', marshalField p v (buf, i)
            = Some (buf', (i - length (referenceField p v))%nat)
          ∧ length buf' = length buf
          ∧ drop (i - length (referenceField p v)) buf'
            = referenceField p v ++ drop i buf.
Proof.
  unfold marshalField, referenceField.
  destruct (emitted p v) as [payload|]; simpl.
  2:{ intros _ _. exists buf. by rewrite Nat.sub_0_r. }
  rewrite !length_app. intros Hlen Hi.
  destruct (putBack_spec payload buf i) as (b1 & -> & Hl1 & Hd1); [lia..|].
  simpl.
  set (mid := if lengthDelimited p
              then EncodeVarint (Z.of_nat (length payload)) else []) in *.
  assert (∃ b2, (if lengthDelimited p
                 then putBack (EncodeVarint (Z.of_nat (length payload)))
                        (b1, (i - length payload)%nat)
                 else Some (b1, (i - length payload)%nat))
                = Some (b2, (i - length payload - length mid)%nat)
                ∧ length b2 = length buf
                ∧ drop (i - length payload - length mid) b2
                  = mid ++ payload ++ drop i buf) as (b2 & -> & Hl2 & Hd2).
  { subst mid. destruct (lengthDelimited p).
    - destruct (putBack_spec (EncodeVarint (Z.of_nat (length payload)))
                  b1 (i - length payload)) as (b2 & E & Hl & Hd); [lia..|].
      exists b2. split; [done|]. split; [lia|]. by rewrite Hd, Hd1.
    - exists b1. simpl. rewrite Nat.sub_0_r. by rewrite Hd1. }
  simpl.
  destruct (putBack_spec (tagBytes p) b2 (i - length payload - length mid))
    as (b3 & E & Hl3 & Hd3); [lia..|].
  exists b3. rewrite E. split; [f_equal; f_equal; lia|]. split; [lia|].
  replace (i - (length (tagBytes p) + (length mid + length payload)))%nat
    with (i - length payload - length mid - length (tagBytes p))%nat by lia.
  by rewrite Hd3, Hd2, <- !app_assoc.
Qed.

Lemma marshalToSizedBuffer_spec plans vals buf i :
  (length (referenceEncode plans vals) ≤ i)%nat → (i ≤ length buf)%nat →
  ∃ buf', MarshalToSizedBufferVT plans vals (buf, i)
            = Some (buf', (i - length (referenceEncode plans vals))%nat)
          ∧ length buf' = length buf
          ∧ drop (i - length (referenceEncode plans vals)) buf'
            = referenceEncode plans vals ++ drop i buf.
Proof.
  revert vals i. induction plans as [|p plans IH]; intros [|v vals] i; simpl;
    try (intros _ _; exists buf; by rewrite Nat.sub_0_r).
  rewrite length_app. intros Hlen Hi.
  destruct (IH vals i) as (b1 & -> & Hl1 & Hd1); [lia..|]. simpl.
  destruct (marshalField_spec p v b1 (i - length (referenceEncode plans vals)))
    as (b2 & -> & Hl2 & Hd2); [lia..|].
  exists b2. split; [f_equal; f_equal; lia|]. split; [lia|].
  replace (i - (length (referenceField p v) + length (referenceEncode plans vals)))%nat
    with (i - length (referenceEncode plans vals) - length (referenceField p v))%nat
    by lia.
  by rewrite Hd2, Hd1, <- app_assoc.
Qed.

(** The generated encoder, which fills a buffer of the computed size
    from the tail backward, writes what the reference encoder writes
    front to back, for every instance. *)
Lemma MarshalVT_reference plans vals :
  MarshalVT plans vals = Some (referenceEncode plans vals).
Proof.
  unfold MarshalVT.
  pose proof (SizeVT_length plans vals) as Hsize.
  pose proof (repeat_length 0%Z (SizeVT plans vals)) as Hrep.
  destruct (marshalToSizedBuffer_spec plans vals
              (repeat 0%Z (SizeVT plans vals)) (SizeVT plans vals))
    as (buf & -> & Hl & Hd); [lia..|].
  simpl. rewrite Hrep in Hl.
  rewrite Hsize, Nat.sub_diag in Hd. simpl in Hd.
  rewrite <- Hsize in Hd. rewrite (drop_ge (repeat _ _)) in Hd by lia.
  rewrite app_nil_r in Hd. change (drop 0 buf) with buf in Hd.
  rewrite Hsize, Nat.sub_diag, Nat.sub_0_r. f_equal.
  rewrite <- Hd at 2. apply take_ge. lia.
Qed.

Lemma referenceEncode_insert plans vals i p v v' :
  plans !! i = Some p →
  referenceField p v = referenceField p v' →
  referenceEncode plans (<[ i := v ]> vals) = referenceEncode plans (<[ i := v' ]> vals).
Proof.
  revert vals i. induction plans as [|q plans IH]; intros [|w vals] [|i] Hp Hf;
    simpl in *; try done.
  - injection Hp as ->. by rewrite Hf.
  - f_equal. by apply IH.
Qed.

(** C7.  For a bytes field with implicit presence, an instance that
    holds nil and an instance that holds an empty slice encode to the
    same bytes, and each encoding is what the reference encoder writes
    for that instance. *)
Theorem implicit_bytes_nil_and_empty_encode_alike plans vals i p :
  plans !! i = Some p →
  pKind p = BytesKind →
  pPresence p = Implicit →
  MarshalVT plans (<[ i := Slice None ]> vals)
    = MarshalVT plans (<[ i := Slice (Some []) ]> vals)
  ∧ MarshalVT plans (<[ i := Slice None ]> vals)
    = Some (referenceEncode plans (<[ i := Slice None ]> vals))
  ∧ MarshalVT plans (<[ i := Slice (Some []) ]> vals)
    = Some (referenceEncode plans (<[ i := Slice (Some []) ]> vals)).
Proof.
  intros Hp Hk Hi. rewrite !MarshalVT_reference. split_and!; try done.
  f_equal. apply (referenceEncode_insert plans vals i p); [done|].
  unfold referenceField, emitted. by rewrite Hi.
Qed.

Lemma implicit_bytes_witness :
  let plans := [ mkPlan 1 Int64Kind Implicit false; mkPlan 2 BytesKind Implicit false ] in
  plans !! 1%nat = Some (mkPlan 2 BytesKind Implicit false)
  ∧ MarshalVT plans [ Direct 7; Slice None ] = Some [ 8; 7 ]%Z
  ∧ MarshalVT plans [ Direct 7; Slice (Some []) ] = Some [ 8; 7 ]%Z.
Proof.
  split; [reflexivity|].
  destruct (implicit_bytes_nil_and_empty_encode_alike
              [ mkPlan 1 Int64Kind Implicit false; mkPlan 2 BytesKind Implicit false ]
              [ Direct 7; Slice None ] 1
              (mkPlan 2 BytesKind Implicit false) eq_refl eq_refl eq_refl)
    as (Heq & Hnil & Hempty).
  split; [exact Hnil|]. exact Hempty.
Defined.

(** With explicit presence the two differ: an empty slice is present
    and is written, nil is absent. *)
Lemma explicit_bytes_nil_and_empty_differ :
  MarshalVT [ mkPlan 2 BytesKind Explicit false ] [ Slice None ] = Some []
  ∧ MarshalVT [ mkPlan 2 BytesKind Explicit false ] [ Slice (Some []) ] = Some [ 18; 0 ]%Z.
Proof. split; reflexivity. Qed.

(** ** Varints read back *)

Open Scope Z_scope.

Lemma split_low7 v :
  v = Z.lor (Z.land v 127) (Z.shiftl (Z.shiftr v 7) 7).
Proof.
  apply Z.bits_inj'. intros n Hn.
  rewrite Z.lor_spec, Z.land_spec. change 127 with (Z.ones 7).
  destruct (Z.lt_ge_cases n 7).
  - rewrite Z.ones_spec_low, Z.shiftl_spec_low by lia.
    by rewrite andb_true_r, orb_false_r.
  - rewrite Z.ones_spec_high, Z.shiftl_spec, Z.shiftr_spec by lia.
    rewrite andb_false_r. simpl. f_equal. lia.
Qed.

Lemma continuation_byte v :
  0 ≤ v →
  Z.land (Z.lor (Z.land v 127) 128) 127 = Z.land v 127
  ∧ 128 ≤ Z.lor (Z.land v 127) 128.
Proof.
  intros Hv. split.
  - rewrite Z.land_lor_distr_l, <- Z.land_assoc.
    change (Z.land 127 127) with 127. change (Z.land 128 127) with 0.
    apply Z.lor_0_r.
  - pose proof (Z.add_lor_land (Z.land v 127) 128) as Hadd.
    rewrite <- Z.land_assoc in Hadd. change (Z.land 127 128) with 0 in Hadd.
    rewrite Z.land_0_r in Hadd.
    assert (0 ≤ Z.land v 127) by (apply Z.land_nonneg; lia). lia.
Qed.

Lemma low7_le v : 0 ≤ v → 0 ≤ Z.land v 127 ≤ v.
Proof.
  intros Hv. change 127 with (Z.ones 7). rewrite Z.land_ones by lia.
  split; [apply Z.mod_pos_bound; lia|apply Z.mod_le; lia].
Qed.

Lemma readVarintFuel_cons fuel shift acc b rest :
  readVarintFuel (S fuel) shift acc (b :: rest) =
    if b <? 128
    then Ok (Z.lor acc (uint64 (Z.shiftl (Z.land b 127) shift)), rest)
    else readVarintFuel fuel (shift + 7)
           (Z.lor acc (uint64 (Z.shiftl (Z.land b 127) shift))) rest.
Proof. reflexivity. Qed.

Lemma encodeVarintFuel_S fuel v :
  encodeVarintFuel (S fuel) v =
    if v <? 128 then [v]
    else Z.lor (Z.land v 127) 128 :: encodeVarintFuel fuel (Z.shiftr v 7).
Proof. reflexivity. Qed.

Lemma readVarint_encode fuel v shift acc rest :
  0 ≤ v < 2 ^ (7 * Z.of_nat (S fuel)) →
  0 ≤ shift →
  v * 2 ^ shift < 2 ^ 64 →
  readVarintFuel (S fuel) shift acc (encodeVarintFuel (S fuel) v ++ rest)
  = Ok (Z.lor acc (Z.shiftl v shift), rest).
Proof.
  revert v shift acc. induction fuel as [|fuel IH]; intros v shift acc Hv Hs Hfit.
  - change (2 ^ (7 * Z.of_nat 1)) with 128 in Hv.
    simpl. destruct (Z.ltb_spec v 128); [|lia]. simpl.
    destruct (Z.ltb_spec v 128); [|lia].
    change 127 with (Z.ones 7). rewrite Z.land_ones, Z.mod_small by lia.
    unfold uint64. rewrite Z.shiftl_mul_pow2, Z.mod_small by lia. done.
  - rewrite encodeVarintFuel_S. destruct (Z.ltb_spec v 128) as [Hlt|Hge].
    + cbn [app]. rewrite readVarintFuel_cons. destruct (Z.ltb_spec v 128); [|lia].
      change 127 with (Z.ones 7). rewrite Z.land_ones, Z.mod_small by lia.
      unfold uint64. rewrite Z.shiftl_mul_pow2, Z.mod_small by lia. done.
    + destruct (continuation_byte v) as [Hlow Hhigh]; [lia|].
      pose proof (low7_le v ltac:(lia)) as Hl7.
      rewrite <- app_comm_cons, readVarintFuel_cons, Hlow.
      destruct (Z.ltb_spec (Z.lor (Z.land v 127) 128) 128); [lia|].
      assert (0 ≤ Z.shiftr v 7 < 2 ^ (7 * Z.of_nat (S fuel))) as Hv'.
      { rewrite Z.shiftr_div_pow2 by lia. split; [apply Z.div_pos; lia|].
        apply Z.div_lt_upper_bound; [lia|].
        rewrite <- Z.pow_add_r by lia.
        replace (7 + 7 * Z.of_nat (S fuel)) with (7 * Z.of_nat (S (S fuel))) by lia.
        lia. }
      assert (Z.shiftr v 7 * 2 ^ (shift + 7) ≤ v * 2 ^ shift) as Hfit'.
      { rewrite Z.shiftr_div_pow2, Z.pow_add_r by lia.
        rewrite (Z.mul_comm (2 ^ shift)), Z.mul_assoc.
        apply Z.mul_le_mono_nonneg_r; [lia|].
        rewrite Z.mul_comm. apply Z.mul_div_le. lia. }
      rewrite IH by lia.
      unfold uint64. rewrite Z.mod_small.
      2:{ rewrite Z.shiftl_mul_pow2 by lia. split; [nia|].
          assert (0 < 2 ^ shift) by lia. nia. }
      f_equal. f_equal. rewrite <- Z.lor_assoc. f_equal.
      rewrite (split_low7 v) at 3.
      rewrite Z.shiftl_lor, Z.shiftl_shiftl by lia.
      do 2 f_equal. lia.
Qed.

(** Reading a varint off the front of a stream gives back the number
    written and the rest of the stream. *)
Lemma ReadVarint_EncodeVarint v rest :
  ReadVarint (EncodeVarint v ++ rest) = Ok (uint64 v, rest).
Proof.
  unfold ReadVarint, EncodeVarint.
  assert (0 ≤ uint64 v < 2 ^ 64) as Hu by (apply Z.mod_pos_bound; lia).
  rewrite readVarint_encode; [by rewrite Z.shiftl_0_r|..]; lia.
Qed.

(** ** Decoding *)

Lemma EncodeVarint_nonempty v : EncodeVarint v ≠ [].
Proof.
  unfold EncodeVarint. rewrite encodeVarintFuel_S. by destruct (_ <? _).
Qed.

Lemma referenceField_fresh q : referenceField q (freshValue q) = [].
Proof.
  unfold referenceField, freshValue, emitted.
  destruct (pKind q); destruct (heldByPointer q); reflexivity.
Qed.

Lemma referenceEncode_fresh plans : referenceEncode plans (fresh plans) = [].
Proof.
  induction plans as [|q plans IH]; simpl; [done|].
  by rewrite referenceField_fresh, IH.
Qed.

Lemma referenceEncode_single plans i p v :
  plans !! i = Some p →
  referenceEncode plans (<[ i := v ]> (fresh plans)) = referenceField p v.
Proof.
  revert i. induction plans as [|q plans IH]; intros [|i] Hp; simpl in *; try done.
  - injection Hp as ->. fold (fresh plans).
    by rewrite referenceEncode_fresh, app_nil_r.
  - fold (fresh plans). by rewrite referenceField_fresh, IH.
Qed.

Lemma referenceEncode_delete plans vals i p v :
  plans !! i = Some p → vals !! i = Some v →
  referenceField p v = [] →
  referenceEncode plans vals = referenceEncode (delete i plans) (delete i vals).
Proof.
  revert vals i. induction plans as [|q plans IH]; intros [|w vals] [|i] Hp Hv Hf;
    simpl in *; try done.
  - injection Hp as ->. injection Hv as ->. by rewrite Hf.
  - f_equal. by eapply IH.
Qed.

Lemma findPlan_NoDup plans k i p :
  NoDup (pNumber <$> plans) → plans !! i = Some p →
  findPlan (pNumber p) plans k = Some ((k + i)%nat, p).
Proof.
  revert k i. induction plans as [|q plans IH]; intros k [|i] Hnd Hp;
    simpl in *; try done.
  - injection Hp as ->. rewrite Z.eqb_refl. do 2 f_equal. lia.
  - apply NoDup_cons in Hnd as [Hq Hnd].
    destruct (Z.eqb_spec (pNumber q) (pNumber p)) as [E|_].
    + exfalso. apply Hq. rewrite E. apply list_elem_of_fmap.
      exists p. split; [done|]. by eapply list_elem_of_lookup_2.
    + rewrite (IH (S k) i Hnd Hp). do 2 f_equal. lia.
Qed.

(** The tag of a planned field reads back as its number and wire
    type. *)
Lemma tag_reads_back p w rest :
  wireTypeOf (pKind p) = Some w →
  0 < pNumber p < 2 ^ 29 →
  ∃ wire, ReadVarint (tagBytes p ++ rest) = Ok (wire, rest)
          ∧ int32 (Z.shiftr wire 3) = pNumber p
          ∧ Z.land wire 7 = w
          ∧ w ≠ WireEndGroup.
Proof.
  intros Hw Hn. unfold tagBytes. rewrite Hw. simpl.
  assert (w = 0 ∨ w = 1 ∨ w = 2 ∨ w = 5) as Hcases.
  { unfold wireTypeOf in Hw. destruct (pKind p); simplify_eq; auto. }
  assert (0 ≤ w < 8) as Hw8 by lia.
  set (tag := tagOf (pNumber p) w).
  assert (Z.shiftr tag 3 = pNumber p) as Hnum.
  { unfold tag, tagOf. rewrite Z.shiftr_lor, Z.shiftr_shiftl_l by lia.
    rewrite Z.sub_diag, Z.shiftl_0_r.
    rewrite (Z.shiftr_div_pow2 w), Z.div_small by lia. apply Z.lor_0_r. }
  assert (Z.land tag 7 = w) as Hwt.
  { unfold tag, tagOf. rewrite Z.land_lor_distr_l.
    change 7 with (Z.ones 3). rewrite !Z.land_ones by lia.
    rewrite Z.shiftl_mul_pow2, Z_mod_mult by lia.
    rewrite Z.mod_small by lia. done. }
  assert (tag = pNumber p * 8 + w) as Etag.
  { pose proof (Z.add_lor_land (pNumber p * 8) w) as Hadd.
    assert (Z.land (pNumber p * 8) w = 0) as Hdisj.
    { apply Z.bits_inj'. intros n Hn0. rewrite Z.land_spec, Z.bits_0.
      destruct (Z.lt_ge_cases n 3).
      - replace (pNumber p * 8) with (Z.shiftl (pNumber p) 3)
          by (rewrite Z.shiftl_mul_pow2; lia).
        by rewrite Z.shiftl_spec_low.
      - rewrite (Z.bits_above_log2 w n), andb_false_r; [done|lia|].
        destruct Hcases as [-> | [-> | [-> | ->]]]; simpl; lia. }
    unfold tag, tagOf. rewrite Z.shiftl_mul_pow2 by lia.
    change (2 ^ 3) with 8. lia. }
  assert (0 ≤ tag < 2 ^ 64) as Htag by lia.
  exists tag. rewrite ReadVarint_EncodeVarint.
  unfold uint64. rewrite Z.mod_small by lia.
  split_and!; try done.
  - rewrite Hnum. unfold int32. rewrite Z.mod_small by lia. lia.
  - unfold WireEndGroup. lia.
Qed.

Lemma unmarshalFuel_S fuel plans data vals :
  data ≠ [] →
  unmarshalFuel (S fuel) plans data vals
  = unmarshalStep (unmarshalFuel fuel plans) plans data vals.
Proof. by destruct data. Qed.

Lemma unmarshalFuel_nil fuel plans vals :
  unmarshalFuel fuel plans [] vals = Some (Ok vals).
Proof. by destruct fuel. Qed.

(** An empty stream decodes to the fresh instance. *)
Lemma decode_empty plans : decode plans [] = Some (Ok (fresh plans)).
Proof. reflexivity. Qed.

Lemma lengthDelimited_scalar p :
  isScalar (pKind p) = true → lengthDelimited p = false.
Proof. unfold isScalar, lengthDelimited. by destruct (pKind p). Qed.

Lemma fresh_lookup plans i p :
  plans !! i = Some p → fresh plans !! i = Some (freshValue p).
Proof. intros H. unfold fresh. by rewrite list_lookup_fmap, H. Qed.

(** ** The decoder returns on every input *)

Lemma readVarintFuel_shrinks fuel shift acc data v rest :
  readVarintFuel fuel shift acc data = Ok (v, rest) →
  (length rest < length data)%nat.
Proof.
  revert shift acc data. induction fuel as [|fuel IH]; intros shift acc data H.
  { done. }
  destruct data as [|b data]; [done|]. rewrite readVarintFuel_cons in H.
  destruct (b <? 128).
  - injection H as _ <-. simpl. lia.
  - apply IH in H. simpl. lia.
Qed.

Lemma readFixed_shrinks n data v rest :
  readFixed n data = Ok (v, rest) → (length rest ≤ length data)%nat.
Proof.
  unfold readFixed. case_bool_decide; [|done].
  intros [= _ <-]. rewrite length_drop. lia.
Qed.

Lemma readLengthDelimited_shrinks data s rest :
  readLengthDelimited data = Ok (s, rest) → (length rest < length data)%nat.
Proof.
  unfold readLengthDelimited.
  destruct (ReadVarint data) as [[len r]|] eqn:E; [|done].
  apply readVarintFuel_shrinks in E.
  destruct (2 ^ 63 <=? len); [done|].
  destruct (Z.of_nat (length r) <? len); [done|].
  intros [= _ <-]. rewrite length_drop. lia.
Qed.

Lemma readScalar_shrinks k data z rest :
  readScalar k data = Ok (z, rest) → (length rest ≤ length data)%nat.
Proof.
  unfold readScalar.
  destruct k;
    match goal with
    | |- match ?x with _ => _ end = _ → _ =>
        destruct x as [[u r]|e] eqn:E; [|done]
    end;
    intros [= _ <-];
    first [apply readFixed_shrinks in E | apply readVarintFuel_shrinks in E]; lia.
Qed.

Lemma readField_shrinks p data v rest :
  readField p data = Ok (v, rest) → (length rest ≤ length data)%nat.
Proof.
  unfold readField. intros H.
  destruct (pKind p);
    match type of H with
    | match ?x with _ => _ end = _ => destruct x as [[u r]|e] eqn:E; [|done]
    end;
    try (apply readScalar_shrinks in E; by injection H as _ <-).
  - destruct (pStrict p && negb (ValidateUTF8 u)); [done|].
    injection H as _ <-. apply readLengthDelimited_shrinks in E. lia.
  - injection H as _ <-. apply readLengthDelimited_shrinks in E. lia.
Qed.

Lemma skipOne_shrinks w rest depth r d :
  skipOne w rest depth = Ok (r, d) → (length r ≤ length rest)%nat.
Proof.
  unfold skipOne. intros H.
  repeat match type of H with
  | match ?x with _ => _ end = _ => destruct x eqn:?; try done
  | (if ?x then _ else _) = _ => destruct x eqn:?; try done
  end;
  simplify_eq;
  repeat match goal with
  | E : readLengthDelimited _ = Ok _ |- _ => apply readLengthDelimited_shrinks in E
  | E : readFixed _ _ = Ok _ |- _ => apply readFixed_shrinks in E
  | E : ReadVarint _ = Ok _ |- _ => apply readVarintFuel_shrinks in E
  end; lia.
Qed.

Lemma skipFuel_returns fuel : ∀ depth data,
  (length data < fuel)%nat →
  ∃ r, skipFuel fuel depth data = Some r
       ∧ ∀ rest, r = Ok rest → (length rest < length data)%nat.
Proof.
  induction fuel as [|fuel IH]; intros depth data Hlen; [lia|].
  simpl. destruct (ReadVarint data) as [[wire rest]|e] eqn:E.
  2:{ eexists. split; [done|]. done. }
  apply readVarintFuel_shrinks in E.
  destruct (skipOne (Z.land wire 7) rest depth) as [[rest' d]|e] eqn:Es.
  2:{ eexists. split; [done|]. done. }
  apply skipOne_shrinks in Es.
  destruct d as [|d].
  - eexists. split; [done|]. intros ? [= <-]. lia.
  - destruct (IH (S d) rest') as (r & -> & Hr); [lia|].
    eexists. split; [done|]. intros rest0 ->. specialize (Hr _ eq_refl). lia.
Qed.

Lemma Skip_returns data :
  ∃ r, Skip data = Some r ∧ ∀ rest, r = Ok rest → (length rest < length data)%nat.
Proof. apply skipFuel_returns. lia. Qed.

(** The decode loop ends: every turn consumes input, so the length of
    the input bounds the number of turns. *)
Lemma unmarshalFuel_returns plans fuel : ∀ data vals,
  (length data ≤ fuel)%nat →
  ∃ r, unmarshalFuel fuel plans data vals = Some r.
Proof.
  induction fuel as [|fuel IH]; intros data vals Hlen.
  { destruct data; [by eexists|simpl in Hlen; lia]. }
  destruct data as [|b data]; [by eexists|].
  rewrite unmarshalFuel_S by done. unfold unmarshalStep.
  destruct (ReadVarint (b :: data)) as [[wire rest]|e] eqn:E; [|by eexists].
  apply readVarintFuel_shrinks in E.
  destruct (Z.land wire 7 =? WireEndGroup); [by eexists|].
  destruct (int32 (Z.shiftr wire 3) <=? 0); [by eexists|].
  assert (∃ r, match Skip (b :: data) with
               | None => None
               | Some (Err e) => Some (Err e)
               | Some (Ok rest') => unmarshalFuel fuel plans rest' vals
               end = Some r) as Hskip.
  { destruct (Skip_returns (b :: data)) as (r & -> & Hr).
    destruct r as [rest'|e]; [|by eexists].
    apply IH. specialize (Hr _ eq_refl). simpl in Hlen, Hr. lia. }
  destruct (findPlan _ plans 0) as [[i p]|]; [|exact Hskip].
  case_bool_decide; [|exact Hskip].
  destruct (readField p rest) as [[v rest']|e] eqn:Er; [|by eexists].
  apply readField_shrinks in Er. apply IH. simpl in Hlen, E. lia.
Qed.

Lemma UnmarshalVT_returns plans data vals :
  ∃ r, UnmarshalVT plans data vals = Some r.
Proof. by apply unmarshalFuel_returns. Qed.

(** ** Presence *)

Lemma heldByPointer_plan p :
  heldByPointer p
  = match pKind p with
    | BytesKind | MessageKind | GroupKind => false
    | _ => bool_decide (pPresence p = Explicit)
    end.
Proof. destruct p as [n k pr st]. by destruct k. Qed.

Lemma zeroHeld_shape p :
  isMessageKind (pKind p) = false →
  wellShaped p (zeroHeld p) = true ∧ nonAbsent (zeroHeld p) = true.
Proof.
  intros Hk. unfold wellShaped, zeroHeld, storeScalar, storeText.
  destruct (pKind p); try done; by destruct (heldByPointer p).
Qed.

(** What follows the tag of a present zero reads back as the zero. *)
Lemma readField_zeroWire p :
  isMessageKind (pKind p) = false →
  readField p (zeroWire p) = Ok (zeroHeld p, []).
Proof.
  intros Hk. unfold readField, zeroWire, zeroHeld, lengthDelimited.
  destruct (pKind p); simpl; try done.
  by rewrite andb_false_r.
Qed.

(** A stream that holds one known field, a present zero, decodes to the
    fresh instance with that field set. *)
Lemma decode_present_zero plans i p :
  NoDup (pNumber <$> plans) →
  plans !! i = Some p →
  0 < pNumber p < 2 ^ 29 →
  isMessageKind (pKind p) = false →
  decode plans (tagBytes p ++ zeroWire p)
  = Some (Ok (<[ i := zeroHeld p ]> (fresh plans))).
Proof.
  intros Hnd Hp Hn Hk. unfold decode, UnmarshalVT.
  assert (∃ w, wireTypeOf (pKind p) = Some w) as [w Hw].
  { destruct (pKind p); try done; by eexists. }
  destruct (tag_reads_back p w (zeroWire p) Hw Hn)
    as (wire & Hread & Hnum & Hwt & Hne).
  assert (tagBytes p ++ zeroWire p ≠ []) as Hdata.
  { intros E. apply app_eq_nil in E as [E _]. by apply EncodeVarint_nonempty in E. }
  destruct (length (tagBytes p ++ zeroWire p)) as [|fuel] eqn:Hlen.
  { by apply length_zero_iff_nil in Hlen. }
  rewrite unmarshalFuel_S by done.
  unfold unmarshalStep. rewrite Hread. cbn zeta. rewrite Hnum, Hwt.
  destruct (Z.eqb_spec w WireEndGroup); [done|].
  destruct (Z.leb_spec (pNumber p) 0); [lia|].
  rewrite (findPlan_NoDup plans 0 i p Hnd Hp). simpl.
  rewrite bool_decide_eq_true_2 by done.
  rewrite readField_zeroWire by done.
  apply unmarshalFuel_nil.
Qed.

(** A present zero on the wire: its tag and what [zeroWire] gives. *)
Lemma referenceField_zeroHeld p :
  isMessageKind (pKind p) = false →
  pPresence p = Explicit →
  referenceField p (zeroHeld p) = tagBytes p ++ zeroWire p.
Proof.
  intros Hk Hpres.
  unfold referenceField, zeroWire, zeroHeld, storeScalar, storeText, emitted,
    lengthDelimited.
  rewrite heldByPointer_plan, Hpres.
  destruct (pKind p); try done; simpl; by rewrite ?app_nil_r.
Qed.

(** C8.  Let [p] be a singular field of any kind but message or group
    (an integer, a floating-point number, a bool, an enum, a string, a
    byte sequence) in a message whose wire numbers are unique, and let
    [zeroHeld p] be the field set to the zero value of its kind.  With
    implicit presence the zero puts no byte on the wire (the encoding is
    that of the message without the field), and the stream written
    decodes to the fresh instance, which holds that zero (for bytes,
    nil, which encodes as the empty sequence does).  With explicit
    presence a fresh instance holds an absent slot, which is not
    written; every slot that is not absent is written whatever it
    holds, tag first; the stream written for an instance whose only set
    field is a present zero decodes to a present zero, which differs
    from the absent slot. *)
Theorem presence_decides_what_zero_means plans i p :
  NoDup (pNumber <$> plans) →
  plans !! i = Some p →
  0 < pNumber p < 2 ^ 29 →
  isMessageKind (pKind p) = false →
  (pPresence p = Implicit →
     fresh plans !! i = Some (freshValue p)
     ∧ (pKind p ≠ BytesKind → freshValue p = zeroHeld p)
     ∧ (pKind p = BytesKind →
          freshValue p = Slice None ∧ zeroHeld p = Slice (Some [])
          ∧ referenceField p (freshValue p) = [])
     ∧ (isScalar (pKind p) = true → zeroHeld p = Direct 0)
     ∧ (pKind p = StringKind → zeroHeld p = Text [])
     ∧ emitted p (zeroHeld p) = None
     ∧ referenceField p (zeroHeld p) = []
     ∧ (∀ vals, vals !! i = Some (zeroHeld p) →
          MarshalVT plans vals = MarshalVT (delete i plans) (delete i vals))
     ∧ MarshalVT plans (<[ i := zeroHeld p ]> (fresh plans)) = Some []
     ∧ decode plans [] = Some (Ok (fresh plans)))
  ∧ (pPresence p = Explicit →
     fresh plans !! i = Some (freshValue p)
     ∧ nonAbsent (freshValue p) = false
     ∧ emitted p (freshValue p) = None
     ∧ (isScalar (pKind p) = true →
          freshValue p = Pointer None ∧ zeroHeld p = Pointer (Some 0)
          ∧ zeroWire p = scalarPayload (pKind p) 0
          ∧ ∀ v, referenceField p (Pointer (Some v))
                 = tagBytes p ++ scalarPayload (pKind p) v)
     ∧ (pKind p = StringKind →
          freshValue p = TextPointer None ∧ zeroHeld p = TextPointer (Some []))
     ∧ (pKind p = BytesKind →
          freshValue p = Slice None ∧ zeroHeld p = Slice (Some []))
     ∧ (∀ v, wellShaped p v = true → nonAbsent v = true →
          ∃ payload,
            emitted p v = Some payload
            ∧ referenceField p v
              = tagBytes p
                ++ (if lengthDelimited p
                    then EncodeVarint (Z.of_nat (length payload)) else [])
                ++ payload)
     ∧ wellShaped p (zeroHeld p) = true
     ∧ nonAbsent (zeroHeld p) = true
     ∧ MarshalVT plans (<[ i := zeroHeld p ]> (fresh plans))
       = Some (tagBytes p ++ zeroWire p)
     ∧ tagBytes p ++ zeroWire p ≠ []
     ∧ decode plans (tagBytes p ++ zeroWire p)
       = Some (Ok (<[ i := zeroHeld p ]> (fresh plans)))
     ∧ <[ i := zeroHeld p ]> (fresh plans) !! i = Some (zeroHeld p)
     ∧ zeroHeld p ≠ freshValue p).
Proof.
  intros Hnd Hp Hn Hk.
  pose proof (fresh_lookup plans i p Hp) as Hfresh.
  pose proof (heldByPointer_plan p) as Hptr.
  destruct (zeroHeld_shape p Hk) as [Hshape Hset].
  split; intros Hpres; rewrite Hpres in Hptr.
  - assert (emitted p (zeroHeld p) = None) as Hnone.
    { unfold emitted, zeroHeld, storeScalar, storeText. rewrite Hptr, Hpres.
      by destruct (pKind p). }
    assert (referenceField p (zeroHeld p) = []) as Href.
    { unfold referenceField. by rewrite Hnone. }
    split_and!; try done.
    + intros Hnb. unfold freshValue, zeroHeld, storeScalar, storeText.
      rewrite Hptr. by destruct (pKind p).
    + intros Hb. unfold freshValue, zeroHeld, referenceField, emitted.
      by rewrite Hb.
    + intros Hs. unfold zeroHeld, storeScalar. rewrite Hptr.
      by destruct (pKind p).
    + intros Hs. unfold zeroHeld, storeText. by rewrite Hptr, Hs.
    + intros vals Hv. rewrite !MarshalVT_reference. f_equal.
      by apply (referenceEncode_delete plans vals i p (zeroHeld p)).
    + by rewrite MarshalVT_reference, (referenceEncode_single plans i p), Href.
  - assert (freshValue p ≠ zeroHeld p ∧ nonAbsent (freshValue p) = false
            ∧ emitted p (freshValue p) = None) as (Hdiff & Habs & Hfe).
    { unfold freshValue, zeroHeld, storeScalar, storeText, emitted.
      rewrite Hptr. by destruct (pKind p). }
    split_and!; try done.
    + intros Hs. unfold freshValue, zeroHeld, zeroWire, storeScalar.
      rewrite Hptr, (lengthDelimited_scalar p Hs).
      split_and!; try by destruct (pKind p).
      intros v. unfold referenceField. simpl.
      by rewrite (lengthDelimited_scalar p Hs).
    + intros Hs. unfold freshValue, zeroHeld, storeText. by rewrite Hptr, Hs.
    + intros Hb. unfold freshValue, zeroHeld. by rewrite Hb.
    + intros v Hv Hv'. unfold referenceField.
      assert (∃ payload, emitted p v = Some payload) as [payload E].
      { unfold emitted. rewrite Hpres.
        destruct v as [z|[z|]|s|[s|]|[b|]]; try done; try by eexists.
        - exfalso. unfold wellShaped in Hv. rewrite Hptr in Hv.
          by destruct (pKind p).
        - exfalso. unfold wellShaped in Hv. rewrite Hptr in Hv.
          by destruct (pKind p). }
      exists payload. by rewrite E.
    + rewrite MarshalVT_reference, (referenceEncode_single plans i p) by done.
      by rewrite referenceField_zeroHeld.
    + intros E. apply app_eq_nil in E as [E _]. by apply EncodeVarint_nonempty in E.
    + by apply decode_present_zero.
    + apply list_lookup_insert_eq. apply lookup_lt_Some in Hfresh. done.
Qed.

Lemma presence_witness :
  let plans := [ mkPlan 1 FloatKind Implicit false;
                 mkPlan 2 StringKind Explicit false;
                 mkPlan 3 Int64Kind Explicit false ] in
  NoDup (pNumber <$> plans)
  ∧ MarshalVT plans [ Direct 0; TextPointer None; Pointer None ] = Some []
  ∧ decode plans [] = Some (Ok [ Direct 0; TextPointer None; Pointer None ])
  ∧ MarshalVT plans [ Direct 0; TextPointer (Some []); Pointer None ]
    = Some [ 18; 0 ]
  ∧ decode plans [ 18; 0 ]
    = Some (Ok [ Direct 0; TextPointer (Some []); Pointer None ])
  ∧ MarshalVT plans [ Direct 0; TextPointer None; Pointer (Some 0) ]
    = Some [ 24; 0 ]
  ∧ decode plans [ 24; 0 ]
    = Some (Ok [ Direct 0; TextPointer None; Pointer (Some 0) ]).
Proof.
  assert (NoDup (pNumber <$> [ mkPlan 1 FloatKind Implicit false;
                               mkPlan 2 StringKind Explicit false;
                               mkPlan 3 Int64Kind Explicit false ])) as Hnd.
  { by apply (bool_decide_unpack _). }
  split; [exact Hnd|].
  destruct (presence_decides_what_zero_means
              [ mkPlan 1 FloatKind Implicit false;
                mkPlan 2 StringKind Explicit false;
                mkPlan 3 Int64Kind Explicit false ]
              0 (mkPlan 1 FloatKind Implicit false) Hnd eq_refl
              ltac:(simpl; lia) eq_refl) as [Himplicit _].
  destruct (Himplicit eq_refl) as (_ & _ & _ & _ & _ & _ & _ & _ & Henc0 & Hdec0).
  destruct (presence_decides_what_zero_means
              [ mkPlan 1 FloatKind Implicit false;
                mkPlan 2 StringKind Explicit false;
                mkPlan 3 Int64Kind Explicit false ]
              1 (mkPlan 2 StringKind Explicit false) Hnd eq_refl
              ltac:(simpl; lia) eq_refl) as [_ Hstring].
  destruct (Hstring eq_refl)
    as (_ & _ & _ & _ & _ & _ & _ & _ & _ & Henc1 & _ & Hdec1 & _).
  destruct (presence_decides_what_zero_means
              [ mkPlan 1 FloatKind Implicit false;
                mkPlan 2 StringKind Explicit false;
                mkPlan 3 Int64Kind Explicit false ]
              2 (mkPlan 3 Int64Kind Explicit false) Hnd eq_refl
              ltac:(simpl; lia) eq_refl) as [_ Hint].
  destruct (Hint eq_refl)
    as (_ & _ & _ & _ & _ & _ & _ & _ & _ & Henc2 & _ & Hdec2 & _).
  split; [exact Henc0|]. split; [exact Hdec0|].
  split; [exact Henc1|]. split; [exact Hdec1|].
  split; [exact Henc2|exact Hdec2].
Defined.

(** ** Strings under the strict contract *)

(** C5.  For a string field with number 14 under the strict contract,
    decoding [114, 4, 0xFF, 0xFE, 0xFD, 0xFC] fails with
    [ErrInvalidUTF8]; the same tag and length followed by four bytes of
    well-formed text decodes to that text; [ErrInvalidUTF8] is the
    invalid-encoding kind and none of the malformed-input kinds. *)
Theorem strict_string_rejects_invalid_utf8 presence payload :
  length payload = 4%nat →
  ValidateUTF8 payload = true →
  decode [ mkPlan 14 StringKind presence true ] [ 114; 4; 255; 254; 253; 252 ]
    = Some (Err ErrInvalidUTF8)
  ∧ decode [ mkPlan 14 StringKind presence true ] (114 :: 4 :: payload)
    = Some (Ok [ storeText (mkPlan 14 StringKind presence true) payload ])
  ∧ invalidEncoding ErrInvalidUTF8 = true
  ∧ (∀ e, malformedInput e = true → e ≠ ErrInvalidUTF8).
Proof.
  intros Hlen Hvalid. split_and!.
  - by destruct presence.
  - destruct payload as [|a [|b [|c [|d [|]]]]]; try done.
    unfold decode, UnmarshalVT. cbn [length].
    rewrite unmarshalFuel_S by done.
    unfold unmarshalStep.
    change (ReadVarint (114 :: 4 :: [a; b; c; d])) with
      (@Ok (Z * bytes) (114, 4 :: [a; b; c; d])).
    cbn beta iota zeta.
    change (int32 (Z.shiftr 114 3)) with 14.
    change (Z.land 114 7) with 2.
    change (2 =? WireEndGroup) with false.
    change (14 <=? 0) with false.
    cbn [findPlan pNumber pKind]. change (14 =? 14) with true. cbn iota.
    change (wireTypeOf StringKind) with (Some 2).
    rewrite bool_decide_eq_true_2 by done.
    unfold readField. cbn [pKind pStrict].
    change (readLengthDelimited (4 :: [a; b; c; d]))
      with (@Ok (bytes * bytes) ([a; b; c; d], [])).
    cbn beta iota. rewrite Hvalid. cbn [negb andb]. cbn beta iota.
    rewrite unmarshalFuel_nil. done.
  - done.
  - by intros [].
Qed.

Lemma strict_string_witness :
  ValidateUTF8 [ 116; 101; 115; 116 ] = true
  ∧ decode [ mkPlan 14 StringKind Explicit true ] [ 114; 4; 255; 254; 253; 252 ]
    = Some (Err ErrInvalidUTF8)
  ∧ decode [ mkPlan 14 StringKind Explicit true ] [ 114; 4; 116; 101; 115; 116 ]
    = Some (Ok [ TextPointer (Some [ 116; 101; 115; 116 ]) ]).
Proof.
  split; [reflexivity|].
  destruct (strict_string_rejects_invalid_utf8 Explicit [ 116; 101; 115; 116 ]
              eq_refl eq_refl) as (Hbad & Hgood & _).
  split; [exact Hbad|exact Hgood].
Defined.
